(* ===== verification/_CoqProject ===== *)
-Q . S2P
Prelude.v
ContourTable.v
Contour.v
Calibration.v
FloatExt.v
ContourFloat.v
Float32.v
Compress.v
Tensor.v
Spline.v
SplineCubic.v
SplineReal.v
Compressor.v
CompressorLevel.v
CompressorFloat.v
