(* ===== verification/Prelude.v ===== *)
(** * A verification development of torchpaqm's loudness model

    The program is [src/src/torchpaqm/loudness.py] (110 lines): the table
    of ISO 226 parameters, and the class [LoudnessCompressor] that turns a
    power spectrum on an auditory (Bark) frequency grid into compressed
    loudness, the first stage of the PAQM audio-quality metric.

    ** How the parts interact

    [__init__] (lines 47-58) evaluates [equal_loudness_contour] (60-76) once
    at the hearing-threshold level and caches the 29 SPL values with the 29
    anchor frequencies of the table (10-41).  [compress] (97-110) calls
    [hearing_threshold_excitation] (90-95), which calls
    [hearing_threshold_at_freqs] (78-85): Bark to Hertz by
    [utils.bark_to_hertz], a scipy [CubicSpline] through (anchor frequency,
    cached contour) evaluated at those frequencies, [10^(x/10)]; the column
    of powers goes through the [transfer] collaborator; [compress] then
    evaluates the Beaton-Beerends formula element-wise in torch (line 109)
    with broadcasting, and clips at [0] (line 110).

    ** Files, in dependency order

    - [Prelude.v] (this file): the error model [result] ([ValueError],
      [RuntimeError], [LinAlgError]) with its [let*] notation in
      [loud_scope]; list helpers ([zip_with], [increasing_b]); [log10] and
      [Rpower] facts; rational bounds on [exp] and [ln]; hint database
      [loud] and tactic [rpos].
    - [ContourTable.v]: [EQUAL_LOUDNESS_CONTOUR_PARAMS] as 29 records
      [contour_param] of exact rationals (the decimal literals of the
      source), [PHON_HEARING_THRESHOLD], the anchor frequencies
      [contour_freqs] (lines 53-55), and a boolean well-formedness check of
      the table evaluated by [vm_compute].
    - [Contour.v]: [equal_loudness_contour] on real numbers: the guard of
      line 63 returning [Err ValueError], then [iso226_spl] of [iso226_Af]
      per row (lines 67-75).
    - [Calibration.v]: the 1 kHz row of the contour against the phon scale,
      with rational enclosures of [10^0.24], [10^0.35] by integer powers.
    - [FloatExt.v]: [xr], a real number or [+inf], [-inf], NaN, with the
      IEEE rules of [/], [*], [+], [-], [**] (C99 [pow]), [<] and
      [torch.clip].
    - [ContourFloat.v]: [equal_loudness_contour] on a float level, the
      guard with IEEE comparisons and the formula on [xr].
    - [Float32.v]: rounding to nearest-even onto binary formats
      ([round_prec]), the double and float32 instances, and the table as
      the float32 tensors of lines 53-55 and 67-69.
    - [Compress.v]: [compress_elem], line 109-110 on one element in [xr],
      and [loudness_spec], the same formula on non-negative reals (the
      abstract specification of an element).
    - [Tensor.v]: 2-D tensors, element-wise maps, and [tzip], torch's
      broadcasting rule with [RuntimeError] on a mismatch; [unsqueeze1].
    - [Spline.v]: scipy's [CubicSpline] with its default not-a-knot boundary
      and [PPoly.__call__], over any field given as the class [SplineField]
      with laws [SplineFieldLaws]: input checks, the tridiagonal system
      ([first_row], [interior_rows], [last_row]), elimination [thomas]
      ([sweep], returning [None] on a zero pivot), Hermite pieces, the binary
      search [find_interval] with a carried hint, Horner evaluation; an
      instance on exact rationals [Qc] runs it on concrete data.
    - [SplineCubic.v]: uniqueness of the solution found by elimination,
      and exactness of the fit on cubic polynomials (a reference model).
    - [SplineReal.v]: the instance on [R], and that elimination never meets a
      zero pivot on strictly increasing knots; the anchor grid as reals.
    - [Compressor.v]: the collaborators as interfaces (class [BarkScale],
      record [OuterToInnerTransfer] and its contract [TransferPositive]);
      the state [LoudnessCompressor], [init], [hearing_threshold_at_freqs],
      [hearing_threshold_excitation], [compress_tensor] (lines 105-110 one
      torch operation per step) and [compress]; the state invariant [lc_wf].
    - [CompressorLevel.v]: the order of tensors ([tensor_le]) and the
      order contract [TransferMonotone] of the transfer; the path from the
      level given to [__init__] to the result of [compress].
    - [CompressorFloat.v]: the same object with the level and the contour
      as floats ([LoudnessCompressorF], [init_f] and the three methods),
      and [cubic_spline_f], scipy's [CubicSpline] on float arrays, whose
      [prepare_input] raises [ValueError] on a non-finite [x] or [y];
      [lift] embeds the real object.

    ** What the theorems show

    - Compression ([Compressor.v], [Compress.v]): for a compressor built by
      [__init__] with [0 < s <= 1], [g > 0], a transfer meeting its contract
      and a non-negative spectrum, [compress] refines [loudness_spec]
      element-wise over the broadcast shape, its result is finite and
      non-negative, zero at threshold, and at most [x^g] for [g <= 1];
      element-wise it is a difference of powers
      [(e + e0 (1-s)/s)^g - (e0/s)^g], clipped, and: zero below
      threshold, positive above, monotone in the excitation; NaN on a zero
      threshold, on [s = 0], and on [s > 1] with a non-integer [g] (none of
      which the code guards); for [g <= 1] a higher threshold never gives
      more loudness (concavity of [x^g] by the mean value theorem); scaling
      threshold and excitation by [k] scales the loudness by [k^g]; the
      output shape is the broadcast shape, which may exceed the
      excitation's.
    - Composition ([CompressorLevel.v]): two compressors built at levels
      [L1 <= L2] and evaluated at the anchor frequencies through a positive,
      order-preserving transfer give results of one shape, the one at [L2]
      element-wise at most the one at [L1].
    - Contour ([Contour.v], [ContourTable.v]): [ValueError] exactly outside
      [[0, 90]]; [Af > 0] for every level
      [>= 0], so [torch.log10] never sees a non-positive number; contours
      strictly increase with the level; the table is well formed; at 1 kHz
      the contour is within [0.015] dB of the level ([Calibration.v]).
    - Float levels ([ContourFloat.v]): on finite levels the float evaluation
      is the real one; infinite levels raise [ValueError]; a NaN level passes
      the guard and yields 29 NaN values.
    - Float32 storage ([Float32.v]): [Af > 0] still holds with the float32
      constants; lemmas justify the model: rounding has relative error at
      most [2^-prec] in the normal range, and the float32 table keeps its
      frequencies exactly and stays well formed.
    - Construction and threshold ([Compressor.v]): [__init__] raises exactly
      when the level is out of range and otherwise establishes [lc_wf]; the
      threshold is a finite positive power at every frequency and equals
      [10^(c/10)] at the anchors; the default object's threshold at 1 kHz
      is [3.539] dB within [0.015].
    - Spline ([Spline.v], [SplineReal.v]): a returned elimination solves its
      system; the fitted curve is C2 at interior knots and not-a-knot at both
      ends; the binary search with any hint returns the unique interval of
      the reference scan, and needs at most [log2 (high - low) + 1]
      iterations; on increasing real knots the fit never fails and
      evaluating it at the anchors returns the data; the fit reproduces
      every cubic polynomial exactly ([SplineCubic.v]).
      On real data the fit fails exactly when scipy's input checks fail
      (fewer than two knots, lengths that differ, knots not increasing),
      and then with [ValueError]: [LinAlgError] is never raised.
    - The object on floats ([CompressorFloat.v]): on finite levels it is
      the lift of the real object, method by method (lemmas); an object
      [__init__] accepts comes from a level in [[0, 90]], and its
      threshold never fails, or from a NaN level, and then
      [hearing_threshold_at_freqs] and [compress] always raise scipy's
      [ValueError]: the invalid level is reported at the first call, not at
      construction.

    ** Bounds and fuel

    The positivity of [Af] uses [(1 + x/n)^n <= exp x <= (1 - x/n)^(-n)]
    with [n = 16] ([ln 0.4 >= -1]), [n = 64] ([ln 10 <= 2.4]) and [n = 128]
    ([exp (-6.9) > 0.0006705]): the smallest [n] for which the constants,
    checked by [lra], are tight enough for the worst row of the table.
    [bsearch] has fuel [length xs]; [bsearch_log_fuel] shows that any fuel
    above [log2 (high - low)] gives the result, so [length xs] is enough
    for every point and hint.  The 1 kHz calibration encloses [10^0.24]
    and [10^0.35] between 5-digit rationals by their 25th and 20th powers,
    and [(0.4 * 10^-8.76)^0.25] by its 4th power; with [ln 10 >= 2.25]
    (from [n = 64]) this bounds the error by [0.013] dB.  Elimination is written without
    pivoting, where scipy calls LAPACK's banded solver with partial pivoting:
    both compute the unique solution of a non-singular system, and
    [SplineReal.v] shows that on the knots of this program no pivot is zero.

    ** Not modelled

    Rounding of the arithmetic (each float32 operation of lines 71-75 and
    109, the float64 spline of scipy) and signed zeros: the model computes
    exactly on [R] with IEEE special values, and rounds only the stored
    table constants ([Float32.v]); overflow to infinity in that rounding is
    not modelled, the table being far from it.  The Bark frequencies and
    the factors [s] and [g] are taken as reals: special float values are
    modelled for the loudness level, the cached contour ([ContourFloat.v],
    [CompressorFloat.v]) and the elements of the tensors
    ([compress_tensor]).  There is no concurrency or unbounded loop in the
    program, so no liveness property arises.  [utils.bark_to_hertz] and
    [transfer.OuterToInnerTransfer] are not among the sources and appear as
    interfaces; the compression theorems assume only [TransferPositive],
    and the theorem on the level also [TransferMonotone].
    Device and dtype moves ([.to], [.cpu], numpy conversions) are identities
    on values.  scipy's closed forms for two and three knots are modelled, but
    the spline theorems are stated for four or more knots (the program
    always has 29); the other boundary conditions and [extrapolate=False] are not modelled,
    since the program uses the defaults.  Tensors are 2-D, the only rank the
    program produces. *)

From Stdlib Require Import List Reals Lra Lia QArith Qreals.
Import ListNotations.

Declare Scope loud_scope.
Delimit Scope loud_scope with loud.

(** ** Errors: the exceptions the modelled code raises *)

Inductive py_error : Type :=
| ValueError      (* raised explicitly, loudness.py line 64, and by scipy *)
| RuntimeError    (* raised by torch when two shapes do not broadcast *)
| LinAlgError.    (* raised by scipy's banded solver on a singular system *)

Inductive result (A : Type) : Type :=
| Ok (a : A)
| Err (e : py_error).
Arguments Ok {A} a.
Arguments Err {A} e.

Definition bind {A B : Type} (r : result A) (k : A -> result B) : result B :=
  match r with
  | Ok a => k a
  | Err e => Err e
  end.

Notation "'let*' x ':=' c 'in' k" := (bind c (fun x => k))
  (at level 61, x name, c at next level, right associativity) : loud_scope.

(** [f] applied to a successful result; an error is passed on. *)
Definition rmap {A B : Type} (f : A -> B) (r : result A) : result B :=
  match r with Ok a => Ok (f a) | Err e => Err e end.

Definition is_ok {A : Type} (r : result A) : bool :=
  match r with Ok _ => true | Err _ => false end.

Lemma bind_ok {A B : Type} (r : result A) (k : A -> result B) (b : B) :
  bind r k = Ok b -> exists a, r = Ok a /\ k a = Ok b.
Proof. destruct r; simpl; [eauto | discriminate]. Qed.

Lemma bind_err {A B : Type} (e : py_error) (k : A -> result B) :
  bind (Err e) k = Err e.
Proof. reflexivity. Qed.

(** ** Element-wise traversal of two vectors *)

Fixpoint zip_with {A B C : Type} (f : A -> B -> C) (xs : list A) (ys : list B)
  : list C :=
  match xs, ys with
  | x :: xs', y :: ys' => f x y :: zip_with f xs' ys'
  | _, _ => []
  end.

Lemma length_zip_with {A B C : Type} (f : A -> B -> C) xs ys :
  length (zip_with f xs ys) = Nat.min (length xs) (length ys).
Proof. revert ys; induction xs; destruct ys; simpl; auto. Qed.

Lemma nth_zip_with {A B C : Type} (f : A -> B -> C) xs ys i da db dc :
  (i < length xs)%nat -> (i < length ys)%nat ->
  nth i (zip_with f xs ys) dc = f (nth i xs da) (nth i ys db).
Proof.
  revert ys i; induction xs as [|x xs IH]; destruct ys, i; simpl; intros;
    try lia; auto.
  apply IH; lia.
Qed.

Lemma nth_map_lt {A B : Type} (g : A -> B) (l : list A) i da db :
  (i < length l)%nat -> nth i (map g l) db = g (nth i l da).
Proof.
  intros Hi. rewrite nth_indep with (d' := g da) by (rewrite length_map; exact Hi).
  apply map_nth.
Qed.

Lemma skipn_nth_cons {A : Type} (l : list A) j d :
  (j < length l)%nat -> skipn j l = nth j l d :: skipn (S j) l.
Proof.
  revert j; induction l as [|a l IH]; intros [|j] Hj; simpl in *; try lia; auto.
  apply IH; lia.
Qed.

Lemma Forall_zip_with {A B C : Type} (P : C -> Prop) (f : A -> B -> C) xs ys :
  (forall x y, In x xs -> In y ys -> P (f x y)) -> Forall P (zip_with f xs ys).
Proof.
  revert ys; induction xs as [|x xs IH]; destruct ys; simpl; intros H;
    constructor; auto.
Qed.

(** [increasing_b ltb l]: every element of [l] is [ltb]-below the next one
    (numpy's [np.all(np.diff(x) > 0)]). *)
Fixpoint increasing_b {A : Type} (ltb : A -> A -> bool) (l : list A) : bool :=
  match l with
  | x :: ((y :: _) as tl) => ltb x y && increasing_b ltb tl
  | _ => true
  end.

Lemma increasing_b_nth {A : Type} (ltb : A -> A -> bool) (l : list A) d :
  increasing_b ltb l = true ->
  forall i, (S i < length l)%nat -> ltb (nth i l d) (nth (S i) l d) = true.
Proof.
  induction l as [|x [|y l] IH]; simpl; intros H i Hi; try lia.
  apply andb_prop in H as [Hxy Htl].
  destruct i as [|i]; [exact Hxy|].
  apply (IH Htl i); simpl in *; lia.
Qed.

Lemma increasing_b_map {A B : Type} (ltA : A -> A -> bool) (ltB : B -> B -> bool)
  (f : A -> B) (l : list A) :
  (forall a b, ltA a b = true -> ltB (f a) (f b) = true) ->
  increasing_b ltA l = true -> increasing_b ltB (map f l) = true.
Proof.
  intros Hf. induction l as [|x [|y l] IH]; simpl; try reflexivity.
  intros H. apply andb_prop in H as [Hxy Htl]. rewrite Hf by exact Hxy.
  simpl. apply IH. exact Htl.
Qed.

(** ** Real functions of the code *)

Open Scope R_scope.

(** [log10] is [torch.log10]; on a positive argument it is the real
    logarithm in base 10. *)
Definition log10 (x : R) : R := ln x / ln 10.

Lemma Rpower_pos (x y : R) : 0 < Rpower x y.
Proof. apply exp_pos. Qed.

Lemma ln10_pos : 0 < ln 10.
Proof. rewrite <- ln_1. apply ln_increasing; lra. Qed.

Lemma log10_lt (x y : R) : 0 < x -> x < y -> log10 x < log10 y.
Proof.
  intros Hx Hxy. unfold log10, Rdiv.
  apply Rmult_lt_compat_r; [apply Rinv_0_lt_compat, ln10_pos|].
  apply ln_increasing; assumption.
Qed.

Lemma Rpower_10_lt (y z : R) : y < z -> Rpower 10 y < Rpower 10 z.
Proof. intros; apply Rpower_lt; lra. Qed.

Lemma Rpower_10_ge_1 (y : R) : 0 <= y -> 1 <= Rpower 10 y.
Proof.
  intros Hy. rewrite <- (Rpower_O 10) by lra. apply Rle_Rpower; lra.
Qed.

Lemma Rpower_1_l (y : R) : Rpower 1 y = 1.
Proof. unfold Rpower. rewrite ln_1, Rmult_0_r. apply exp_0. Qed.

Lemma ln_le_mono (x y : R) : 0 < x -> x <= y -> ln x <= ln y.
Proof.
  intros Hx [Hlt|<-]; [left; apply ln_increasing; assumption | right; reflexivity].
Qed.

Lemma exp_le_mono (x y : R) : x <= y -> exp x <= exp y.
Proof. intros [Hlt|<-]; [left; apply exp_increasing; assumption | right; reflexivity]. Qed.

Create HintDb loud.
#[export] Hint Resolve Rpower_pos exp_pos ln10_pos : loud.

(** [rpos] closes goals [0 < e] where [e] is built from positive constants,
    [Rpower] and [exp] by products, quotients and sums. *)
Ltac rpos :=
  repeat first
    [ apply Rpower_pos | apply exp_pos
    | apply Rmult_lt_0_compat | apply Rplus_lt_0_compat
    | apply Rinv_0_lt_compat | apply Rdiv_lt_0_compat
    | assumption | lra ].

(** ** Rational bounds on [exp] and [ln] *)

Lemma exp_ge_1_plus (x : R) : 1 + x <= exp x.
Proof.
  destruct (Req_dec_T x 0) as [->|Hx].
  - rewrite exp_0; lra.
  - left; apply exp_ineq1; assumption.
Qed.

Lemma exp_INR_mult (n : nat) (x : R) : exp (INR n * x) = exp x ^ n.
Proof.
  induction n as [|n IH].
  - simpl. rewrite Rmult_0_l; apply exp_0.
  - rewrite S_INR, Rmult_plus_distr_r, Rmult_1_l, exp_plus, IH. simpl; ring.
Qed.

Lemma exp_split (n : nat) (x : R) :
  (0 < n)%nat -> exp x = exp (x / INR n) ^ n.
Proof.
  intros Hn. rewrite <- exp_INR_mult. f_equal.
  assert (0 < INR n) by (apply lt_0_INR; lia). field; lra.
Qed.

(** Lower bound: [(1 + x/n)^n <= exp x] when [1 + x/n >= 0]. *)
Lemma exp_lower_pow (n : nat) (x : R) :
  (0 < n)%nat -> 0 <= 1 + x / INR n -> (1 + x / INR n) ^ n <= exp x.
Proof.
  intros Hn H0. rewrite (exp_split n x Hn).
  apply pow_incr. split; [assumption | apply exp_ge_1_plus].
Qed.

(** Upper bound: [exp x <= (1 / (1 - x/n))^n] when [x/n < 1]. *)
Lemma exp_upper_pow (n : nat) (x : R) :
  (0 < n)%nat -> x / INR n < 1 -> exp x <= (1 / (1 - x / INR n)) ^ n.
Proof.
  intros Hn H1. rewrite (exp_split n x Hn).
  apply pow_incr. split; [left; apply exp_pos|].
  set (u := x / INR n) in *.
  assert (Hneg : 1 - u <= exp (- u)) by (pose proof (exp_ge_1_plus (- u)); lra).
  rewrite exp_Ropp in Hneg.
  assert (0 < exp u) by apply exp_pos.
  unfold Rdiv; rewrite Rmult_1_l.
  replace (exp u) with (/ / exp u) by (field; lra).
  apply Rinv_le_contravar; lra.
Qed.

Lemma ln10_le : ln 10 <= 2.4.
Proof.
  rewrite <- (ln_exp 2.4). apply ln_le_mono; [lra|].
  eapply Rle_trans; [|apply (exp_lower_pow 64); [lia|]];
    replace (INR 64) with 64 by (simpl; lra); lra.
Qed.

Lemma ln_04_ge : -1 <= ln 0.4.
Proof.
  rewrite <- (ln_exp (-1)). apply ln_le_mono; [apply exp_pos|].
  replace (exp (-1)) with (/ exp 1) by (rewrite <- exp_Ropp; f_equal; lra).
  assert (H : 2.5 <= exp 1).
  { eapply Rle_trans; [|apply (exp_lower_pow 16); [lia|]];
      replace (INR 16) with 16 by (simpl; lra); lra. }
  assert (0 < exp 1) by apply exp_pos.
  replace 0.4 with (/ 2.5) by lra.
  apply Rinv_le_contravar; lra.
Qed.

Lemma ln10_ge : 2.25 <= ln 10.
Proof.
  rewrite <- (ln_exp 2.25). apply ln_le_mono; [apply exp_pos|].
  eapply Rle_trans; [apply (exp_upper_pow 64); [lia|]|];
    replace (INR 64) with 64 by (simpl; lra); lra.
Qed.

(** ** Logarithms near [1] and roots by powers *)

Lemma ln_le_sub1 (y : R) : 0 < y -> ln y <= y - 1.
Proof.
  intros Hy. rewrite <- (ln_exp (y - 1)). apply ln_le_mono; [exact Hy|].
  pose proof (exp_ge_1_plus (y - 1)). lra.
Qed.

Lemma ln_ge_1_sub_inv (y : R) : 0 < y -> 1 - / y <= ln y.
Proof.
  intros Hy. pose proof (ln_le_sub1 (/ y) ltac:(apply Rinv_0_lt_compat, Hy)) as H.
  rewrite ln_Rinv in H by exact Hy. lra.
Qed.

Lemma log10_Rpower_10 (x : R) : log10 (Rpower 10 x) = x.
Proof.
  unfold log10. rewrite ln_Rpower. pose proof ln10_pos. field. lra.
Qed.

Lemma log10_mult (x y : R) : 0 < x -> 0 < y -> log10 (x * y) = log10 x + log10 y.
Proof. intros Hx Hy. unfold log10. rewrite ln_mult by assumption. field. pose proof ln10_pos; lra. Qed.

Lemma log10_div (x y : R) : 0 < x -> 0 < y -> log10 (x / y) = log10 x - log10 y.
Proof.
  intros Hx Hy. unfold Rdiv at 1. rewrite log10_mult by (try apply Rinv_0_lt_compat; assumption).
  unfold log10. rewrite ln_Rinv by assumption. field. pose proof ln10_pos; lra.
Qed.

Lemma pow_lt_strict (x y : R) (n : nat) : 0 <= x < y -> n <> 0%nat -> x ^ n < y ^ n.
Proof.
  intros Hxy Hn. destruct n as [|n]; [congruence|]. clear Hn. simpl.
  pose proof (pow_incr x y n ltac:(lra)).
  assert (0 < y ^ n) by (apply pow_lt; lra).
  assert (0 <= x ^ n) by (apply pow_le; lra). nra.
Qed.

(** [Rpower b r] raised to the [n]-th power is [Rpower b (n r)]. *)
Lemma Rpower_pow_r (b r : R) (n : nat) : 0 < b -> Rpower b r ^ n = Rpower b (INR n * r).
Proof.
  intros Hb. rewrite <- Rpower_pow by apply Rpower_pos. rewrite Rpower_mult. f_equal; ring.
Qed.

(** Rational enclosures of a root: [lo^n <= x^n <= hi^n] encloses [x]. *)
Lemma pow_root_bounds (x lo hi : R) (n : nat) :
  n <> 0%nat -> 0 <= lo <= hi -> 0 <= x -> lo ^ n <= x ^ n <= hi ^ n -> lo <= x <= hi.
Proof.
  intros Hn Hlo Hx [H1 H2]. split.
  - destruct (Rle_lt_dec lo x) as [|Hlt]; [assumption|].
    pose proof (pow_lt_strict x lo n ltac:(lra) Hn). lra.
  - destruct (Rle_lt_dec x hi) as [|Hlt]; [assumption|].
    pose proof (pow_lt_strict hi x n ltac:(lra) Hn). lra.
Qed.

(** Halving a positive range lowers its base-2 logarithm. *)
Lemma log2_halve (n r : nat) : (1 <= n)%nat -> (2 * n <= r)%nat -> (Nat.log2 n < Nat.log2 r)%nat.
Proof.
  intros Hn Hr. pose proof (Nat.log2_double n ltac:(lia)) as E.
  pose proof (Nat.log2_le_mono _ _ Hr). lia.
Qed.
