(* ===== verification/ContourTable.v ===== *)
(** * The ISO 226 parameter table ([EQUAL_LOUDNESS_CONTOUR_PARAMS])

    [loudness.py] lines 10-43: the 29 rows [(f, af, Lu, Tf)] of Jeff
    Tackett's 2005 transcription of ISO 226:2003 and the default hearing
    threshold level [PHON_HEARING_THRESHOLD].  The decimal literals of the
    source are kept as exact rationals ([Q]); the real-valued model reads
    them through [Q2R].  The well-formedness the spec asks of the table
    (29 rows, strictly increasing positive frequencies, positive exponents)
    is an executable check, decided by evaluation. *)

From Stdlib Require Import List QArith Qreals Reals Lra Lia.
From S2P Require Import Prelude.
Import ListNotations.

Record contour_param : Type := mk_param {
  p_f : Q;    (* anchor frequency in Hz *)
  p_af : Q;   (* exponent for loudness perception *)
  p_Lu : Q;   (* magnitude of the linear transfer function, dB *)
  p_Tf : Q    (* threshold of hearing, dB *)
}.

Definition EQUAL_LOUDNESS_CONTOUR_PARAMS : list contour_param := [
  mk_param 20 0.532 (-31.6) 78.5;
  mk_param 25 0.506 (-27.2) 68.7;
  mk_param 31.5 0.480 (-23.0) 59.5;
  mk_param 40 0.455 (-19.1) 51.1;
  mk_param 50 0.432 (-15.9) 44.0;
  mk_param 63 0.409 (-13.0) 37.5;
  mk_param 80 0.387 (-10.3) 31.5;
  mk_param 100 0.367 (-8.1) 26.5;
  mk_param 125 0.349 (-6.2) 22.1;
  mk_param 160 0.330 (-4.5) 17.9;
  mk_param 200 0.315 (-3.1) 14.4;
  mk_param 250 0.301 (-2.0) 11.4;
  mk_param 315 0.288 (-1.1) 8.6;
  mk_param 400 0.276 (-0.4) 6.2;
  mk_param 500 0.267 0.0 4.4;
  mk_param 630 0.259 0.3 3.0;
  mk_param 800 0.253 0.5 2.2;
  mk_param 1000 0.250 0.0 2.4;
  mk_param 1250 0.246 (-2.7) 3.5;
  mk_param 1600 0.244 (-4.1) 1.7;
  mk_param 2000 0.243 (-1.0) (-1.3);
  mk_param 2500 0.243 1.7 (-4.2);
  mk_param 3150 0.243 2.5 (-6.0);
  mk_param 4000 0.242 1.2 (-5.4);
  mk_param 5000 0.242 (-2.1) (-1.5);
  mk_param 6300 0.245 (-7.1) 6.0;
  mk_param 8000 0.254 (-11.2) 12.6;
  mk_param 10000 0.271 (-10.7) 13.9;
  mk_param 12500 0.301 (-3.1) 12.3
].

Definition PHON_HEARING_THRESHOLD : Q := 3.539.

(** The columns as the code builds them ([torch.Tensor([p[k] for p in ...])],
    lines 53-55 and 67-69). *)
Definition contour_freqs : list Q := map p_f EQUAL_LOUDNESS_CONTOUR_PARAMS.

(** ** Well-formedness of the table, as an executable check *)

Definition Qltb (a b : Q) : bool := negb (Qle_bool b a).

Lemma Qltb_spec (a b : Q) : Qltb a b = true <-> (a < b)%Q.
Proof.
  unfold Qltb. rewrite Bool.negb_true_iff. split; intros H.
  - apply Qnot_le_lt. intros Hle. apply Qle_bool_iff in Hle. congruence.
  - destruct (Qle_bool b a) eqn:E; [|reflexivity].
    apply Qle_bool_iff in E. exfalso; apply (Qlt_not_le _ _ H E).
Qed.

Definition param_wf_b (p : contour_param) : bool :=
  Qltb 0 (p_f p) && Qltb 0 (p_af p).

Definition table_wf_b (t : list contour_param) : bool :=
  Nat.eqb (length t) 29 && increasing_b Qltb (map p_f t)
  && forallb param_wf_b t.

Lemma param_wf_b_spec (p : contour_param) :
  param_wf_b p = true -> (0 < p_f p)%Q /\ (0 < p_af p)%Q.
Proof.
  unfold param_wf_b; intros H; apply andb_prop in H as [H1 H2].
  split; apply Qltb_spec; assumption.
Qed.

(** C25. The table is well formed, as the spec requires of it (the
    condition whose violation the spec calls a ConfigurationError): 29 rows,
    strictly increasing positive frequencies, positive exponents [af]. *)
Theorem contour_table_wf : table_wf_b EQUAL_LOUDNESS_CONTOUR_PARAMS = true.
Proof. vm_compute. reflexivity. Qed.

Lemma contour_freqs_increasing : increasing_b Qltb contour_freqs = true.
Proof. vm_compute. reflexivity. Qed.

Lemma length_contour_freqs : length contour_freqs = 29%nat.
Proof. reflexivity. Qed.
