(* ===== verification/Contour.v ===== *)
(** * ISO 226 equal-loudness contour ([LoudnessCompressor.equal_loudness_contour])

    [loudness.py] lines 60-76.  For a loudness level [Ln] (phon) the code
    checks [0 <= Ln <= 90], raising [ValueError] otherwise, and computes for
    each row [(f, af, Lu, Tf)] of the table
    [Af = 0.00447 (10^(0.025 Ln) - 1.15) + (0.4 10^((Tf+Lu)/10 - 9))^af] and
    [spl = (10/af) log10 Af - Lu + 94].  The model computes on real numbers
    (no rounding) with [Rpower] for [**] and [log10] for [torch.log10].

    Theorems: the domain check is exactly the error case; a valid level
    yields 29 values; for every level [Ln >= 0] and every row, [Af > 0], so
    [torch.log10] never sees a non-positive argument (the spec's "cannot
    occur for valid inputs"); and the contours are strictly ordered: a higher
    loudness level gives a strictly higher SPL at every anchor frequency. *)

From Stdlib Require Import List QArith Qreals Reals Lra Lia.
From S2P Require Import Prelude ContourTable.
Import ListNotations.
Open Scope R_scope.
Local Open Scope loud_scope.

Definition af_R (p : contour_param) : R := Q2R (p_af p).
Definition Lu_R (p : contour_param) : R := Q2R (p_Lu p).
Definition Tf_R (p : contour_param) : R := Q2R (p_Tf p).

(** [Af] of line 71-74, for one row. *)
Definition iso226_Af (Ln : R) (p : contour_param) : R :=
  0.00447 * (Rpower 10 (0.025 * Ln) - 1.15)
  + Rpower (0.4 * Rpower 10 ((Tf_R p + Lu_R p) / 10 - 9)) (af_R p).

(** [spl] of line 75, for one row. *)
Definition iso226_spl (Ln : R) (p : contour_param) : R :=
  10 / af_R p * log10 (iso226_Af Ln p) - Lu_R p + 94.

(** The method, lines 60-76: the guard of line 63, then the element-wise
    computation over the 29 rows. *)
Definition equal_loudness_contour (loudness_level : R) : result (list R) :=
  if Rlt_dec loudness_level 0 then Err ValueError
  else if Rlt_dec 90 loudness_level then Err ValueError
  else Ok (map (iso226_spl loudness_level) EQUAL_LOUDNESS_CONTOUR_PARAMS).

(** ** Numeric facts on the rows *)

(** What each row satisfies, in the exponent of the second term of [Af]:
    [x = (Tf+Lu)/10 - 9] is negative and [af (1 - 2.4 x) <= 6.9]. *)
Definition row_bounds (p : contour_param) : Prop :=
  0 < af_R p /\ (Tf_R p + Lu_R p) / 10 - 9 < 0 /\
  af_R p * (1 - 2.4 * ((Tf_R p + Lu_R p) / 10 - 9)) <= 6.9.

Lemma table_row_bounds : Forall row_bounds EQUAL_LOUDNESS_CONTOUR_PARAMS.
Proof.
  repeat apply Forall_cons; try apply Forall_nil;
    unfold row_bounds, af_R, Lu_R, Tf_R; simpl; lra.
Qed.

Lemma exp_m69 : 0.0006705 < exp (-6.9).
Proof.
  replace (exp (-6.9)) with (/ exp 6.9) by (rewrite <- exp_Ropp; f_equal; lra).
  assert (H : exp 6.9 <= (1 / (1 - 6.9 / INR 128)) ^ 128)
    by (apply exp_upper_pow; [lia | replace (INR 128) with 128 by (simpl; lra); lra]).
  replace (INR 128) with 128 in H by (simpl; lra).
  assert (0 < exp 6.9) by apply exp_pos.
  replace 0.0006705 with (/ (1 / 0.0006705)) by lra.
  apply Rinv_lt_contravar; [nra | lra].
Qed.

(** The second term of [Af] is above [0.00447 * 0.15], the largest value the
    first term can subtract when [Ln >= 0]. *)
Lemma Af_second_term_lower (p : contour_param) :
  row_bounds p ->
  0.0006705 < Rpower (0.4 * Rpower 10 ((Tf_R p + Lu_R p) / 10 - 9)) (af_R p).
Proof.
  intros (Haf & Hx & Hm).
  set (x := (Tf_R p + Lu_R p) / 10 - 9) in *.
  unfold Rpower at 1.
  rewrite ln_mult by (lra || apply Rpower_pos).
  rewrite ln_Rpower.
  pose proof ln10_le; pose proof ln_04_ge.
  assert (Hx10 : 2.4 * x <= x * ln 10) by nra.
  assert (af_R p * (-1 + 2.4 * x) <= af_R p * (ln 0.4 + x * ln 10))
    by (apply Rmult_le_compat_l; lra).
  eapply Rlt_le_trans; [apply exp_m69 | apply exp_le_mono; lra].
Qed.

Lemma Rpower_10_Ln_ge_1 (Ln : R) : 0 <= Ln -> 1 <= Rpower 10 (0.025 * Ln).
Proof. intros; apply Rpower_10_ge_1; lra. Qed.

Lemma iso226_Af_pos_row (Ln : R) (p : contour_param) :
  row_bounds p -> 0 <= Ln -> 0 < iso226_Af Ln p.
Proof.
  intros Hp HLn. unfold iso226_Af.
  pose proof (Af_second_term_lower p Hp).
  pose proof (Rpower_10_Ln_ge_1 Ln HLn). lra.
Qed.

Lemma iso226_Af_lt (L1 L2 : R) (p : contour_param) :
  L1 < L2 -> iso226_Af L1 p < iso226_Af L2 p.
Proof.
  intros H. unfold iso226_Af.
  assert (Rpower 10 (0.025 * L1) < Rpower 10 (0.025 * L2))
    by (apply Rpower_10_lt; lra).
  lra.
Qed.

Lemma iso226_spl_lt (L1 L2 : R) (p : contour_param) :
  row_bounds p -> 0 <= L1 -> L1 < L2 -> iso226_spl L1 p < iso226_spl L2 p.
Proof.
  intros Hp H1 H12. unfold iso226_spl.
  apply Rplus_lt_compat_r, Rplus_lt_compat_r.
  apply Rmult_lt_compat_l.
  - destruct Hp as [Haf _]. apply Rdiv_lt_0_compat; lra.
  - apply log10_lt; [apply iso226_Af_pos_row; assumption|].
    apply iso226_Af_lt; assumption.
Qed.

(** ** Properties of [equal_loudness_contour] *)

(** C5. The method raises [ValueError] exactly when the loudness level is
    outside [[0, 90]]; inside, it returns a contour. *)
Theorem equal_loudness_contour_error (Ln : R) :
  equal_loudness_contour Ln = Err ValueError <-> (Ln < 0 \/ 90 < Ln).
Proof.
  unfold equal_loudness_contour.
  destruct (Rlt_dec Ln 0); [split; auto|].
  destruct (Rlt_dec 90 Ln); [split; auto|].
  split; [discriminate | lra].
Qed.

Lemma equal_loudness_contour_length (Ln : R) (c : list R) :
  equal_loudness_contour Ln = Ok c -> length c = 29%nat.
Proof.
  unfold equal_loudness_contour.
  destruct (Rlt_dec Ln 0), (Rlt_dec 90 Ln); try discriminate.
  intros E. assert (c = map (iso226_spl Ln) EQUAL_LOUDNESS_CONTOUR_PARAMS) as ->
    by congruence.
  rewrite length_map. reflexivity.
Qed.

(** C4. For every loudness level [Ln >= 0] (in particular every level the
    guard accepts), the argument [Af] of [torch.log10] is positive at every
    one of the 29 rows: the contour is never NaN or infinite. *)
Theorem iso226_Af_pos (Ln : R) :
  0 <= Ln -> Forall (fun p => 0 < iso226_Af Ln p) EQUAL_LOUDNESS_CONTOUR_PARAMS.
Proof.
  intros HLn. eapply Forall_impl; [|exact table_row_bounds].
  intros p Hp. apply iso226_Af_pos_row; assumption.
Qed.

Lemma Forall2_map_same {A B : Type} (R' : B -> B -> Prop) (f g : A -> B) l :
  Forall (fun a => R' (f a) (g a)) l -> Forall2 R' (map f l) (map g l).
Proof. induction 1; simpl; constructor; auto. Qed.

(** C16. Equal-loudness contours are strictly ordered: for valid levels
    [L1 < L2], the SPL of the [L2] contour is strictly above that of the [L1]
    contour at every anchor frequency. *)
Theorem equal_loudness_contour_increasing (L1 L2 : R) (c1 c2 : list R) :
  0 <= L1 -> L1 < L2 ->
  equal_loudness_contour L1 = Ok c1 -> equal_loudness_contour L2 = Ok c2 ->
  Forall2 Rlt c1 c2.
Proof.
  intros H1 H12 E1 E2. unfold equal_loudness_contour in E1, E2.
  destruct (Rlt_dec L1 0), (Rlt_dec 90 L1); try discriminate.
  destruct (Rlt_dec L2 0), (Rlt_dec 90 L2); try discriminate.
  assert (c1 = map (iso226_spl L1) EQUAL_LOUDNESS_CONTOUR_PARAMS) as -> by congruence.
  assert (c2 = map (iso226_spl L2) EQUAL_LOUDNESS_CONTOUR_PARAMS) as -> by congruence.
  apply Forall2_map_same. eapply Forall_impl; [|exact table_row_bounds].
  intros p Hp. apply iso226_spl_lt; assumption.
Qed.

(** ** Witnesses *)

Lemma iso226_Af_pos_witness :
  Forall (fun p => 0 < iso226_Af (Q2R PHON_HEARING_THRESHOLD) p)
         EQUAL_LOUDNESS_CONTOUR_PARAMS.
Proof. apply iso226_Af_pos. unfold PHON_HEARING_THRESHOLD. lra. Defined.

Lemma equal_loudness_contour_increasing_witness :
  exists c1 c2, equal_loudness_contour 0 = Ok c1 /\
    equal_loudness_contour 90 = Ok c2 /\ Forall2 Rlt c1 c2.
Proof.
  assert (E : forall L, 0 <= L <= 90 ->
    equal_loudness_contour L = Ok (map (iso226_spl L) EQUAL_LOUDNESS_CONTOUR_PARAMS)).
  { intros L HL. unfold equal_loudness_contour.
    destruct (Rlt_dec L 0), (Rlt_dec 90 L); (lra || reflexivity). }
  exists (map (iso226_spl 0) EQUAL_LOUDNESS_CONTOUR_PARAMS),
         (map (iso226_spl 90) EQUAL_LOUDNESS_CONTOUR_PARAMS).
  split; [apply E; lra|]. split; [apply E; lra|].
  apply (equal_loudness_contour_increasing 0 90); [lra | lra | apply E; lra | apply E; lra].
Defined.
