(* ===== verification/Calibration.v ===== *)
(** * Calibration of the contour at 1 kHz

    The phon scale is defined by the 1 kHz tone: a tone of [Ln] phon at
    1 kHz has a sound pressure level of [Ln] dB.  The row
    [(1000, 0.250, 0.0, 2.4)] of the table ([loudness.py] line 29) and the
    formula of lines 71-75 reproduce this: for every level the guard of
    [equal_loudness_contour] accepts, the 1 kHz value of the contour is
    within [0.015] dB of the level.  In particular the 0-phon contour is
    about [0] dB at 1 kHz, where the spec expects [2.4]-[4.2] dB.

    The proof rewrites [spl - Ln] as [40 log10 y] for
    [y = Af * 10^2.35 / 10^(0.025 Ln)], encloses the constants
    [(0.4 * 10^-8.76)^0.25] and [10^2.35] between rationals by their integer
    powers ([pow_root_bounds]), and bounds [ln y] by [1 - 1/y <= ln y <= y - 1]. *)

From Stdlib Require Import List QArith Qreals Reals Lra Lia.
From S2P Require Import Prelude ContourTable Contour.
Import ListNotations.
Open Scope R_scope.
Local Open Scope loud_scope.

(** The second term of [Af] at 1 kHz. *)
Lemma K_1000_bounds : 0.0051346 <= Rpower (0.4 * Rpower 10 (-8.76)) 0.25 <= 0.0051348.
Proof.
  assert (U : 1.7378 <= Rpower 10 0.24 <= 1.7379).
  { apply (pow_root_bounds _ _ _ 25); [lia | lra | left; apply Rpower_pos|].
    rewrite Rpower_pow_r by lra.
    replace (INR 25 * 0.24) with (INR 6) by (simpl; lra).
    rewrite Rpower_pow by lra. lra. }
  assert (E : Rpower 10 (-8.76) = Rpower 10 0.24 / 10 ^ 9).
  { replace (-8.76) with (0.24 + - INR 9) by (simpl; lra).
    rewrite Rpower_plus, Rpower_Ropp, Rpower_pow by lra. reflexivity. }
  assert (Hb : 0 < 0.4 * Rpower 10 (-8.76)) by rpos.
  apply (pow_root_bounds _ _ _ 4); [lia | lra | left; apply Rpower_pos|].
  rewrite Rpower_pow_r by exact Hb.
  replace (INR 4 * 0.25) with 1 by (simpl; lra). rewrite Rpower_1 by exact Hb.
  rewrite E. lra.
Qed.

Lemma P_bounds : 223.87 <= Rpower 10 2.35 <= 223.873.
Proof.
  assert (V : 2.2387 <= Rpower 10 0.35 <= 2.23873).
  { apply (pow_root_bounds _ _ _ 20); [lia | lra | left; apply Rpower_pos|].
    rewrite Rpower_pow_r by lra.
    replace (INR 20 * 0.35) with (INR 7) by (simpl; lra).
    rewrite Rpower_pow by lra. lra. }
  replace 2.35 with (0.35 + INR 2) by (simpl; lra).
  rewrite Rpower_plus, (Rpower_pow 2) by lra. lra.
Qed.

(** The constants of the 1 kHz row (row 17 of the table). *)
Lemma row_1000 :
  af_R (nth 17 EQUAL_LOUDNESS_CONTOUR_PARAMS (mk_param 0 0 0 0)) = 0.25 /\
  Lu_R (nth 17 EQUAL_LOUDNESS_CONTOUR_PARAMS (mk_param 0 0 0 0)) = 0 /\
  Tf_R (nth 17 EQUAL_LOUDNESS_CONTOUR_PARAMS (mk_param 0 0 0 0)) = 2.4.
Proof.
  unfold EQUAL_LOUDNESS_CONTOUR_PARAMS, af_R, Lu_R, Tf_R. cbn [nth p_af p_Lu p_Tf].
  unfold Q2R; simpl. repeat split; lra.
Qed.

(** [40 log10 y] for [y] within [7.2e-4] of [1] is below [0.013]. *)
Lemma log10_near_1 (y : R) : 0.99937 <= y <= 1.00072 -> Rabs (40 * log10 y) <= 0.013.
Proof.
  intros Hy. assert (Hp : 0 < y) by lra.
  pose proof (ln_le_sub1 y Hp). pose proof (ln_ge_1_sub_inv y Hp).
  assert (/ y <= / 0.99937) by (apply Rinv_le_contravar; lra).
  assert (/ 0.99937 <= 1.00064) by (apply (Rmult_le_reg_r 0.99937); [lra|]; field_simplify; lra).
  pose proof ln10_ge.
  pose proof ln10_le. unfold log10. set (q := ln y / ln 10).
  assert (Hq : ln y = q * ln 10) by (unfold q; field; lra).
  apply Rabs_le. split; nra.
Qed.

(** For [Ln >= 0], [spl - Ln] at 1 kHz is [40 log10 y] with [y] within
    [7.2e-4] of [1]. *)
Lemma spl_1000_near (Ln : R) : 0 <= Ln ->
  Rabs (40 * log10 (0.00447 * (Rpower 10 (0.025 * Ln) - 1.15)
                    + Rpower (0.4 * Rpower 10 (-8.76)) 0.25) + 94 - Ln) <= 0.013.
Proof.
  intros HL.
  set (K := Rpower (0.4 * Rpower 10 (-8.76)) 0.25). set (t := Rpower 10 (0.025 * Ln)).
  set (A := 0.00447 * (t - 1.15) + K).
  pose proof K_1000_bounds as HK. fold K in HK. pose proof P_bounds as HP.
  assert (Ht : 1 <= t) by (apply Rpower_10_ge_1; lra).
  assert (HA : A / t = 0.00447 + (K - 0.0051405) * / t).
  { replace A with (0.00447 * t + (K - 0.0051405)) by (unfold A; lra).
    unfold Rdiv. rewrite Rmult_plus_distr_r, Rmult_assoc, Rinv_r by lra. ring. }
  assert (Hi : 0 < / t <= 1).
  { split; [apply Rinv_0_lt_compat; lra|]. rewrite <- Rinv_1. apply Rinv_le_contravar; lra. }
  assert (Hq : 0.0044641 <= A / t <= 0.00447) by (rewrite HA; nra).
  assert (HApos : 0 < A) by (unfold Rdiv in Hq; nra).
  assert (Hy : 0.99937 <= Rpower 10 2.35 * (A / t) <= 1.00072) by nra.
  replace (40 * log10 A + 94 - Ln) with (40 * log10 (Rpower 10 2.35 * (A / t))).
  - apply log10_near_1. exact Hy.
  - rewrite log10_mult, log10_div, log10_Rpower_10 by (try apply Rpower_pos; lra).
    unfold t. rewrite log10_Rpower_10. lra.
Qed.

(** The 1 kHz value of the contour formula is within [0.013] dB of every
    level [Ln >= 0]. *)
Lemma spl_1000_calibrated (Ln : R) : 0 <= Ln ->
  Rabs (iso226_spl Ln (nth 17 EQUAL_LOUDNESS_CONTOUR_PARAMS (mk_param 0 0 0 0)) - Ln) <= 0.013.
Proof.
  intros HL. destruct row_1000 as (A & L & T). unfold iso226_spl, iso226_Af. rewrite A, L, T.
  replace ((2.4 + 0) / 10 - 9) with (-8.76) by lra.
  replace (10 / 0.25) with 40 by lra.
  pose proof (spl_1000_near Ln HL). replace (40 * log10 _ - 0 + 94 - Ln)
    with (40 * log10 (0.00447 * (Rpower 10 (0.025 * Ln) - 1.15)
                      + Rpower (0.4 * Rpower 10 (-8.76)) 0.25) + 94 - Ln) by lra. exact H.
Qed.

(** C26. Calibration at 1 kHz: for every level the guard accepts, the
    contour's value at the 1000 Hz anchor (row 17 of the table) is within
    [0.015] dB of the level in phon.  At level [0] it is therefore near
    [0] dB, not in the [2.4]-[4.2] dB range the spec's test plan names. *)
Theorem contour_1kHz_calibrated (Ln : R) (c : list R) :
  equal_loudness_contour Ln = Ok c ->
  (nth 17 contour_freqs 0 == 1000)%Q /\ Rabs (nth 17 c 0 - Ln) < 0.015.
Proof.
  intros E. split; [reflexivity|].
  unfold equal_loudness_contour in E.
  destruct (Rlt_dec Ln 0); [discriminate|]. destruct (Rlt_dec 90 Ln); [discriminate|].
  assert (c = map (iso226_spl Ln) EQUAL_LOUDNESS_CONTOUR_PARAMS) as -> by congruence.
  rewrite (nth_map_lt _ _ _ (mk_param 0 0 0 0)) by (cbn; lia).
  pose proof (spl_1000_calibrated Ln ltac:(lra)). lra.
Qed.

Lemma contour_1kHz_calibrated_witness :
  exists c, equal_loudness_contour 0 = Ok c /\
    (nth 17 contour_freqs 0 == 1000)%Q /\ Rabs (nth 17 c 0 - 0) < 0.015.
Proof.
  exists (map (iso226_spl 0) EQUAL_LOUDNESS_CONTOUR_PARAMS).
  assert (E : equal_loudness_contour 0 = Ok (map (iso226_spl 0) EQUAL_LOUDNESS_CONTOUR_PARAMS))
    by (unfold equal_loudness_contour; destruct (Rlt_dec 0 0), (Rlt_dec 90 0);
        (lra || reflexivity)).
  split; [exact E|]. exact (contour_1kHz_calibrated 0 _ E).
Defined.
