(* ===== verification/FloatExt.v ===== *)
(** * Float values with IEEE special values ([xr])

    torch evaluates the compression formula of [loudness.py] line 109 in
    IEEE arithmetic, where a division by zero gives an infinity, [0 * inf]
    and [inf - inf] give NaN, a negative number raised to a non-integer power
    gives NaN, and [torch.clip(x, min=0)] keeps NaN.  [xr] is a real number
    extended with [+inf], [-inf] and NaN, and the operations below are the
    IEEE rules on it, without rounding: the finite part computes exactly on
    [R].  Signed zeros are not distinguished: a zero divisor is [+0].

    The lemmas give each operation on finite arguments, so that the
    theorems on the compression formula rewrite it to a real expression
    whenever no special value arises, and to NaN when one does. *)

From Stdlib Require Import Reals Lra Lia ZArith Ranalysis1 MVT.
From S2P Require Import Prelude.
Open Scope R_scope.

Inductive xr : Type :=
| Fin (r : R)
| PInf
| NInf
| NaN.

Definition is_fin (a : xr) : bool := match a with Fin _ => true | _ => false end.

Definition xneg (a : xr) : xr :=
  match a with
  | Fin x => Fin (- x)
  | PInf => NInf
  | NInf => PInf
  | NaN => NaN
  end.

Definition xadd (a b : xr) : xr :=
  match a, b with
  | NaN, _ | _, NaN => NaN
  | Fin x, Fin y => Fin (x + y)
  | PInf, NInf | NInf, PInf => NaN
  | PInf, _ | _, PInf => PInf
  | NInf, _ | _, NInf => NInf
  end.

Definition xsub (a b : xr) : xr := xadd a (xneg b).

(** An infinity [i] scaled by a finite nonzero factor [x]. *)
Definition scale_inf (x : R) (i : xr) : xr :=
  if Req_dec_T x 0 then NaN else if Rlt_dec 0 x then i else xneg i.

Definition xmul (a b : xr) : xr :=
  match a, b with
  | NaN, _ | _, NaN => NaN
  | Fin x, Fin y => Fin (x * y)
  | Fin x, i | i, Fin x => scale_inf x i
  | PInf, PInf | NInf, NInf => PInf
  | _, _ => NInf
  end.

Definition xdiv (a b : xr) : xr :=
  match a, b with
  | NaN, _ | _, NaN => NaN
  | Fin x, Fin y =>
      if Req_dec_T y 0 then
        (if Req_dec_T x 0 then NaN else if Rlt_dec 0 x then PInf else NInf)
      else Fin (x / y)
  | Fin _, _ => Fin 0
  | i, Fin y => if Req_dec_T y 0 then i else scale_inf y i
  | _, _ => NaN
  end.

(** Integer exponents: [frac_part y = 0]; odd ones by the parity of the
    integer part. *)
Definition is_int (y : R) : bool := if Req_dec_T (frac_part y) 0 then true else false.
Definition is_odd_int (y : R) : bool := is_int y && Z.odd (Int_part y).

(** [torch.pow(a, y)] for a finite exponent [y] (C99 [pow]). *)
Definition xpow (a : xr) (y : R) : xr :=
  if Req_dec_T y 0 then Fin 1 else
  match a with
  | NaN => NaN
  | Fin x =>
      if Rlt_dec 0 x then Fin (Rpower x y)
      else if Req_dec_T x 0 then (if Rlt_dec 0 y then Fin 0 else PInf)
      else if is_int y then Fin ((if Z.odd (Int_part y) then -1 else 1) * Rpower (- x) y)
      else NaN
  | PInf => if Rlt_dec 0 y then PInf else Fin 0
  | NInf => if Rlt_dec 0 y then (if is_odd_int y then NInf else PInf) else Fin 0
  end.

(** [torch.clip(a, min=0)]. *)
Definition xclip0 (a : xr) : xr :=
  match a with
  | Fin x => Fin (Rmax x 0)
  | PInf => PInf
  | NInf => Fin 0
  | NaN => NaN
  end.

(** ** Operations on finite arguments *)

Lemma xdiv_fin (x y : R) : y <> 0 -> xdiv (Fin x) (Fin y) = Fin (x / y).
Proof. intros H. simpl. destruct (Req_dec_T y 0); [contradiction | reflexivity]. Qed.

Lemma xpow_pos (x y : R) : 0 < x -> xpow (Fin x) y = Fin (Rpower x y).
Proof.
  intros H. unfold xpow. destruct (Req_dec_T y 0) as [->|_].
  - rewrite Rpower_O by assumption. reflexivity.
  - destruct (Rlt_dec 0 x); [reflexivity | contradiction].
Qed.

Lemma xpow_zero (y : R) : 0 < y -> xpow (Fin 0) y = Fin 0.
Proof.
  intros H. unfold xpow. destruct (Req_dec_T y 0); [lra|].
  destruct (Rlt_dec 0 0); [lra|]. destruct (Req_dec_T 0 0); [|congruence].
  destruct (Rlt_dec 0 y); [reflexivity | lra].
Qed.

Lemma xpow_neg_nonint (x y : R) :
  x < 0 -> is_int y = false -> xpow (Fin x) y = NaN.
Proof.
  intros Hx Hy. unfold xpow.
  destruct (Req_dec_T y 0) as [->|_].
  - unfold is_int in Hy. rewrite fp_R0 in Hy.
    destruct (Req_dec_T 0 0); [discriminate | congruence].
  - destruct (Rlt_dec 0 x); [lra|]. destruct (Req_dec_T x 0); [lra|].
    rewrite Hy. reflexivity.
Qed.

Lemma xclip0_fin (x : R) : xclip0 (Fin x) = Fin (Rmax x 0).
Proof. reflexivity. Qed.

Lemma Rmax_0_nonpos (x : R) : x <= 0 -> Rmax x 0 = 0.
Proof. apply Rmax_right. Qed.

Lemma Rmax_0_nonneg (x : R) : 0 <= x -> Rmax x 0 = x.
Proof. apply Rmax_left. Qed.

(** [simpl_xr] rewrites the operations of a goal on finite arguments. *)
Ltac simpl_xr :=
  repeat first
    [ rewrite xdiv_fin by lra
    | rewrite xpow_pos by (try rpos; lra)
    | progress cbn [xadd xsub xneg xmul xclip0] ].

(** [pw b g]: the value of [b ** g] for [b >= 0] and [g > 0]. *)
Definition pw (b g : R) : R := if Rlt_dec 0 b then Rpower b g else 0.

Lemma xpow_nonneg (b g : R) : 0 <= b -> 0 < g -> xpow (Fin b) g = Fin (pw b g).
Proof.
  intros Hb Hg. unfold pw. destruct (Rlt_dec 0 b).
  - apply xpow_pos; assumption.
  - replace b with 0 by lra. apply xpow_zero; assumption.
Qed.

Lemma pw_nonneg (b g : R) : 0 <= pw b g.
Proof. unfold pw. destruct (Rlt_dec 0 b); [left; apply Rpower_pos | lra]. Qed.

Lemma pw_le_mono (a b g : R) : 0 <= a <= b -> 0 < g -> pw a g <= pw b g.
Proof.
  intros Hab Hg. unfold pw.
  destruct (Rlt_dec 0 a), (Rlt_dec 0 b); try lra.
  - apply Rle_Rpower_l; lra.
  - left; apply Rpower_pos.
Qed.

Lemma pw_1 (g : R) : pw 1 g = 1.
Proof. unfold pw. destruct (Rlt_dec 0 1); [apply Rpower_1_l | lra]. Qed.

Lemma pw_gt_1 (b g : R) : 1 < b -> 0 < g -> 1 < pw b g.
Proof.
  intros Hb Hg. unfold pw. destruct (Rlt_dec 0 b); [|lra].
  rewrite <- (Rpower_1_l g). apply Rlt_Rpower_l; lra.
Qed.

Lemma pw_pos (b g : R) : 0 < b -> pw b g = Rpower b g.
Proof. intros H. unfold pw. destruct (Rlt_dec 0 b); [reflexivity | lra]. Qed.

Lemma is_int_frac (y : R) : 0 < y < 1 -> is_int y = false.
Proof.
  intros Hy. unfold is_int. destruct (Req_dec_T (frac_part y) 0) as [E|]; [|reflexivity].
  apply fp_nat in E as [c ->]. destruct Hy as [H0 H1].
  apply lt_IZR in H0. apply lt_IZR in H1. exfalso; lia.
Qed.

(** [pw] is multiplicative on non-negative arguments. *)
Lemma pw_mult (a b g : R) : 0 <= a -> 0 <= b -> pw (a * b) g = pw a g * pw b g.
Proof.
  intros Ha Hb. unfold pw.
  destruct (Rlt_dec 0 a) as [Ha'|Ha'], (Rlt_dec 0 b) as [Hb'|Hb'].
  - destruct (Rlt_dec 0 (a * b)) as [|Hn]; [|exfalso; apply Hn, Rmult_lt_0_compat; assumption].
    symmetry. apply Rpower_mult_distr; assumption.
  - replace b with 0 by lra. rewrite Rmult_0_r. destruct (Rlt_dec 0 0); [lra | ring].
  - replace a with 0 by lra. rewrite Rmult_0_l. destruct (Rlt_dec 0 0); [lra | ring].
  - replace a with 0 by lra. rewrite Rmult_0_l. destruct (Rlt_dec 0 0); [lra | ring].
Qed.

(** A power with exponent in [(0, 1]] of a base in [[0, 1]] is at least the
    base. *)
Lemma pw_ge_base (u g : R) : 0 <= u <= 1 -> 0 < g <= 1 -> u <= pw u g.
Proof.
  intros Hu Hg. unfold pw. destruct (Rlt_dec 0 u) as [Hp|]; [|lra].
  rewrite <- (exp_ln u) at 1 by exact Hp. unfold Rpower. apply exp_le_mono.
  assert (ln u <= 0) by (rewrite <- ln_1; apply ln_le_mono; lra). nra.
Qed.

(** Subadditivity of [x^g] for [0 < g <= 1]. *)
Lemma pw_subadd (a b g : R) : 0 <= a -> 0 <= b -> 0 < g <= 1 ->
  pw (a + b) g <= pw a g + pw b g.
Proof.
  intros Ha Hb Hg. destruct (Req_dec_T (a + b) 0) as [H0|H0].
  - rewrite H0. unfold pw at 1. destruct (Rlt_dec 0 0); [lra|].
    pose proof (pw_nonneg a g). pose proof (pw_nonneg b g). lra.
  - set (n := a + b) in *. assert (Hn : 0 < n) by (unfold n in *; lra).
    set (u := a / n).
    assert (Ea : a = u * n) by (unfold u; field; lra).
    assert (En : n = a + b) by reflexivity.
    assert (Eb : b = (1 - u) * n) by lra.
    assert (Hu : 0 <= u <= 1).
    { split; nra. }
    rewrite Ea, Eb. rewrite !pw_mult by lra.
    pose proof (pw_ge_base u g Hu Hg). pose proof (pw_ge_base (1 - u) g ltac:(lra) Hg).
    pose proof (pw_nonneg n g). nra.
Qed.

(** A power with a non-positive exponent decreases with its base. *)
Lemma Rpower_le_antitone (a b e : R) : 0 < a <= b -> e <= 0 -> Rpower b e <= Rpower a e.
Proof.
  intros Hab He. unfold Rpower. apply exp_le_mono.
  assert (ln a <= ln b) by (apply ln_le_mono; lra). nra.
Qed.

Lemma derivable_pt_lim_shift_power (d g t : R) : 0 < t + d ->
  derivable_pt_lim (fun t => Rpower (t + d) g) t (g * Rpower (t + d) (g - 1) * 1).
Proof.
  intros Ht. apply (derivable_pt_lim_comp (fun t => t + d) (fun u => Rpower u g)).
  - replace 1 with (1 + 0) by ring.
    change (fun t => t + d) with (plus_fct id (fct_cte d)).
    apply derivable_pt_lim_plus; [apply derivable_pt_lim_id | apply derivable_pt_lim_const].
  - apply derivable_pt_lim_power. exact Ht.
Qed.

(** Concavity of [x^g] for [0 < g <= 1]: the increment over a step [d]
    shrinks as the base grows.  By the mean value theorem on
    [t |-> (t + d)^g - t^g], whose derivative [g ((t+d)^(g-1) - t^(g-1))]
    is not positive. *)
Lemma pw_incr_antitone (x y d g : R) : 0 < y <= x -> 0 <= d -> 0 < g <= 1 ->
  pw (x + d) g - pw x g <= pw (y + d) g - pw y g.
Proof.
  intros Hxy Hd Hg. rewrite !pw_pos by lra.
  destruct (Req_dec_T y x) as [->|Hne]; [lra|].
  assert (D : forall t, y <= t <= x -> derivable_pt_lim (fun t => Rpower (t + d) g - Rpower t g) t
                (g * Rpower (t + d) (g - 1) * 1 - g * Rpower t (g - 1))).
  { intros t Ht. apply (derivable_pt_lim_minus (fun t => Rpower (t + d) g) (fun t => Rpower t g)).
    - apply derivable_pt_lim_shift_power. lra.
    - apply derivable_pt_lim_power. lra. }
  destruct (MVT_cor2 _ _ y x ltac:(lra) D) as (c & Ec & Hc).
  assert (Rpower (c + d) (g - 1) <= Rpower c (g - 1)) by (apply Rpower_le_antitone; lra).
  assert (g * Rpower (c + d) (g - 1) * 1 - g * Rpower c (g - 1) <= 0) by nra.
  assert (0 < x - y) by lra. nra.
Qed.

(** ** Comparisons *)

(** Python's and torch's [<] on floats: false as soon as one side is NaN. *)
Definition xltb (a b : xr) : bool :=
  match a, b with
  | NaN, _ | _, NaN => false
  | Fin x, Fin y => if Rlt_dec x y then true else false
  | NInf, NInf | PInf, _ => false
  | NInf, _ | _, PInf => true
  | Fin _, NInf => false
  end.

Lemma xltb_fin (x y : R) : xltb (Fin x) (Fin y) = true <-> x < y.
Proof. cbn. destruct (Rlt_dec x y); split; (congruence || lra). Qed.
