(* ===== verification/ContourFloat.v ===== *)
(** * The contour on a float loudness level

    [equal_loudness_contour] receives the loudness level as a Python float
    (lines 60-76), which may be infinite or NaN.  [Contour.v] takes the
    level as a real number; this file evaluates the method on [xr], the
    floats with their special values ([FloatExt.v]), operation by operation:
    the guard of line 63 with IEEE comparisons ([xltb]), Python's
    [10 ** (0.025 * Ln)] ([xpow_exp]) and [torch.log10] ([xlog10]).  The
    terms of [Af] and [spl] that depend only on the table are finite and
    kept as real numbers.

    Theorems: on a finite level the float evaluation is the real one
    ([equal_loudness_contour_f_refines]); an infinite level raises
    [ValueError], and a NaN level passes the guard, since both comparisons
    are false, and yields a contour of 29 NaN values. *)

From Stdlib Require Import List Reals Lra Lia QArith Qreals.
From S2P Require Import Prelude ContourTable Contour FloatExt.
Import ListNotations.
Open Scope R_scope.
Local Open Scope loud_scope.

(** Python's [b ** y] for a finite base [b > 1] and a float exponent. *)
Definition xpow_exp (b : R) (y : xr) : xr :=
  match y with
  | Fin v => Fin (Rpower b v)
  | PInf => PInf
  | NInf => Fin 0
  | NaN => NaN
  end.

(** [torch.log10]: [-inf] at [0], NaN below [0] and at [-inf]. *)
Definition xlog10 (a : xr) : xr :=
  match a with
  | Fin x => if Rlt_dec 0 x then Fin (log10 x)
             else if Req_dec_T x 0 then NInf else NaN
  | PInf => PInf
  | NInf | NaN => NaN
  end.

(** [Af] of lines 71-74 for one row, on a float level. *)
Definition iso226_Af_f (Ln : xr) (p : contour_param) : xr :=
  xadd (xmul (Fin 0.00447) (xsub (xpow_exp 10 (xmul (Fin 0.025) Ln)) (Fin 1.15)))
       (Fin (Rpower (0.4 * Rpower 10 ((Tf_R p + Lu_R p) / 10 - 9)) (af_R p))).

(** [spl] of line 75 for one row, on a float level. *)
Definition iso226_spl_f (Ln : xr) (p : contour_param) : xr :=
  xadd (xsub (xmul (Fin (10 / af_R p)) (xlog10 (iso226_Af_f Ln p))) (Fin (Lu_R p))) (Fin 94).

(** The method, lines 60-76, on a float level. *)
Definition equal_loudness_contour_f (loudness_level : xr) : result (list xr) :=
  if (xltb loudness_level (Fin 0) || xltb (Fin 90) loudness_level)%bool then Err ValueError
  else Ok (map (iso226_spl_f loudness_level) EQUAL_LOUDNESS_CONTOUR_PARAMS).

(** ** Finite levels *)

Lemma iso226_Af_f_fin (l : R) (p : contour_param) :
  iso226_Af_f (Fin l) p = Fin (iso226_Af l p).
Proof. unfold iso226_Af_f, iso226_Af. cbn [xmul xpow_exp xsub xneg xadd]. f_equal; lra. Qed.

Lemma iso226_spl_f_fin (l : R) (p : contour_param) :
  0 < iso226_Af l p -> iso226_spl_f (Fin l) p = Fin (iso226_spl l p).
Proof.
  intros HA. unfold iso226_spl_f. rewrite iso226_Af_f_fin.
  cbn [xlog10]. destruct (Rlt_dec 0 (iso226_Af l p)); [|lra].
  cbn [xmul xsub xneg xadd]. f_equal; unfold iso226_spl; lra.
Qed.

(** The float evaluation at a finite level is the real one. *)
Lemma equal_loudness_contour_f_fin (l : R) :
  equal_loudness_contour_f (Fin l) = rmap (map Fin) (equal_loudness_contour l).
Proof.
  unfold equal_loudness_contour_f, equal_loudness_contour.
  destruct (Rlt_dec l 0) as [H0|H0].
  - cbn [xltb]. destruct (Rlt_dec l 0); [reflexivity | contradiction].
  - destruct (Rlt_dec 90 l) as [H9|H9]; cbn [xltb];
      destruct (Rlt_dec l 0); try contradiction; destruct (Rlt_dec 90 l); try contradiction;
      cbn [orb rmap]; [reflexivity|].
    f_equal. rewrite map_map. apply map_ext_Forall.
    eapply Forall_impl; [|exact table_row_bounds]. intros p Hp.
    apply iso226_spl_f_fin, iso226_Af_pos_row; [exact Hp | lra].
Qed.

(** C33. On a finite float level the float evaluation of the method is
    its real evaluation: the same [ValueError] outside [[0, 90]], and inside
    the 29 SPL values of [Contour.v], each a finite float (so no NaN or
    infinity arises from [10 ** (0.025 Ln)] or [torch.log10]). *)
Theorem equal_loudness_contour_f_refines (l : R) :
  equal_loudness_contour_f (Fin l) = rmap (map Fin) (equal_loudness_contour l).
Proof. exact (equal_loudness_contour_f_fin l). Qed.

(** C34. Special float levels: [+inf] and [-inf] are rejected with
    [ValueError], but a NaN level passes the guard of line 63 (both
    [NaN < 0] and [NaN > 90] are false) and the method returns 29 NaN
    values instead of raising. *)
Theorem equal_loudness_contour_f_special :
  equal_loudness_contour_f PInf = Err ValueError /\
  equal_loudness_contour_f NInf = Err ValueError /\
  equal_loudness_contour_f NaN = Ok (repeat NaN 29).
Proof.
  split; [reflexivity|]. split; reflexivity.
Qed.
