(* ===== verification/Float32.v ===== *)
(** * Rounding to binary floating point: the float32 table

    [torch.Tensor([p[k] for p in EQUAL_LOUDNESS_CONTOUR_PARAMS])] (lines
    53-55 and 67-69) stores the table's Python floats as float32.  A
    Python literal such as [0.532] is first rounded to the nearest double,
    and the double to the nearest float32.  [round_prec prec emin] is
    rounding to nearest, ties to even, onto the binary numbers with a
    [prec]-bit significand and least normal exponent [emin] (subnormals
    below it); [round_f64] and [round_f32] are its two instances and
    [to_float32] their composition.  Overflow is not modelled: every value
    of the table is far below the largest float32.

    Lemmas justifying the model: the result of [round_prec] is a number of
    the format, within [2^-prec] of the argument relatively in the normal
    range (the standard model of floating-point rounding); the anchor
    frequencies are stored exactly, so the spline's knots are the table's.
    Theorem: the float32 table still has [Af > 0] at every level [>= 0]. *)

From Stdlib Require Import ZArith QArith Qreals Reals Lra Lia List.
From S2P Require Import Prelude ContourTable Contour.
Import ListNotations.

Local Open Scope Z_scope.

(** [2^e <= n/d] for positive [n] and [d]. *)
Definition pow2_le (e n d : Z) : bool :=
  if 0 <=? e then 2 ^ e * d <=? n else d <=? n * 2 ^ (- e).

(** [floor (log2 (n/d))]. *)
Definition flog2 (n d : Z) : Z :=
  let e0 := Z.log2 n - Z.log2 d in
  if pow2_le e0 n d then e0 else e0 - 1.

(** [num/den] rounded to the nearest integer, ties to even. *)
Definition rne (num den : Z) : Z :=
  let (q, r) := Z.div_eucl num den in
  match Z.compare (2 * r) den with
  | Lt => q
  | Gt => q + 1
  | Eq => if Z.even q then q else q + 1
  end.

(** A positive [n/d] rounded to [prec] bits: the exponent [E] of its
    leading bit (at least [emin]) and the significand rounded at
    [2^(E - prec + 1)]. *)
Definition round_pos (prec emin n d : Z) : Q :=
  let E := Z.max (flog2 n d) emin in
  let k := prec - 1 - E in
  if 0 <=? k then rne (n * 2 ^ k) d # Z.to_pos (2 ^ k)
  else inject_Z (rne n (d * 2 ^ (- k)) * 2 ^ (- k)).

Definition round_prec (prec emin : Z) (q : Q) : Q :=
  match Qnum q with
  | Z0 => 0%Q
  | Zpos n => round_pos prec emin (Zpos n) (Zpos (Qden q))
  | Zneg n => (- round_pos prec emin (Zpos n) (Zpos (Qden q)))%Q
  end.

Definition round_f64 : Q -> Q := round_prec 53 (-1022).
Definition round_f32 : Q -> Q := round_prec 24 (-126).

(** A Python float literal stored in a float32 tensor. *)
Definition to_float32 (q : Q) : Q := round_f32 (round_f64 q).

(** ** The rounding in real numbers *)

Local Open Scope R_scope.

Local Abbreviation p2 := (powerRZ 2).

Lemma p2_pos (z : Z) : 0 < p2 z.
Proof. apply powerRZ_lt. lra. Qed.

Lemma p2_add (a b : Z) : p2 (a + b) = p2 a * p2 b.
Proof. apply powerRZ_add. lra. Qed.

Lemma p2_opp (a : Z) : p2 (- a) = / p2 a.
Proof. apply powerRZ_neg'. Qed.

Lemma p2_1 : p2 1 = 2.
Proof. simpl. ring. Qed.

Lemma IZR_pow2 (z : Z) : (0 <= z)%Z -> IZR (2 ^ z) = p2 z.
Proof.
  intros Hz. destruct z as [|p|p]; [reflexivity| |lia].
  cbn [powerRZ]. rewrite pow_IZR, positive_nat_Z. reflexivity.
Qed.

Lemma p2_mono (a b : Z) : (a <= b)%Z -> p2 a <= p2 b.
Proof.
  intros H. replace b with (a + (b - a))%Z by lia. rewrite p2_add.
  rewrite <- (IZR_pow2 (b - a)) by lia. pose proof (p2_pos a).
  assert (1 <= IZR (2 ^ (b - a))) by (apply IZR_le; pose proof (Z.pow_pos_nonneg 2 (b - a)); lia).
  nra.
Qed.

(** [Z.log2] in real numbers. *)
Lemma log2_bounds (n : Z) : (0 < n)%Z ->
  p2 (Z.log2 n) <= IZR n < p2 (Z.log2 n + 1).
Proof.
  intros Hn. pose proof (Z.log2_spec n Hn) as [H1 H2]. pose proof (Z.log2_nonneg n).
  rewrite <- !IZR_pow2 by lia. split; [apply IZR_le; lia | apply IZR_lt; rewrite Z.add_1_r; lia].
Qed.

Lemma pow2_le_spec (e n d : Z) : (0 < n)%Z -> (0 < d)%Z ->
  pow2_le e n d = true <-> p2 e <= IZR n / IZR d.
Proof.
  intros Hn Hd. assert (Hd' : 0 < IZR d) by (apply IZR_lt; lia).
  unfold pow2_le. destruct (Z.leb_spec 0 e) as [He|He].
  - rewrite Z.leb_le, <- IZR_pow2 by lia. split; intros H.
    + apply IZR_le in H. rewrite mult_IZR in H.
      apply (Rmult_le_reg_r (IZR d)); [lra|]. unfold Rdiv. rewrite Rmult_assoc, Rinv_l; lra.
    + apply le_IZR. rewrite mult_IZR.
      apply (Rmult_le_compat_r (IZR d)) in H; [|lra].
      unfold Rdiv in H. rewrite Rmult_assoc, Rinv_l in H; lra.
  - rewrite Z.leb_le.
    assert (E : p2 e = / IZR (2 ^ (- e))).
    { rewrite IZR_pow2 by lia. rewrite <- p2_opp, Z.opp_involutive. reflexivity. }
    rewrite E.
    assert (Hp : 0 < IZR (2 ^ (- e))) by (apply IZR_lt, Z.pow_pos_nonneg; lia).
    split; intros H.
    + apply IZR_le in H. rewrite mult_IZR in H.
      apply (Rmult_le_reg_r (IZR d * IZR (2 ^ (- e)))); [nra|].
      replace (/ IZR (2 ^ (- e)) * (IZR d * IZR (2 ^ (- e)))) with (IZR d) by (field; lra).
      replace (IZR n / IZR d * (IZR d * IZR (2 ^ (- e)))) with (IZR n * IZR (2 ^ (- e)))
        by (field; lra). exact H.
    + apply le_IZR. rewrite mult_IZR.
      apply (Rmult_le_compat_r (IZR d * IZR (2 ^ (- e)))) in H; [|nra].
      replace (/ IZR (2 ^ (- e)) * (IZR d * IZR (2 ^ (- e)))) with (IZR d) in H by (field; lra).
      replace (IZR n / IZR d * (IZR d * IZR (2 ^ (- e)))) with (IZR n * IZR (2 ^ (- e))) in H
        by (field; lra). exact H.
Qed.

Lemma div_lt_iff (x y d : R) : 0 < d -> (x / d < y <-> x < y * d).
Proof.
  intros Hd. split; intros H.
  - apply (Rmult_lt_compat_r d) in H; [|exact Hd].
    unfold Rdiv in H. rewrite Rmult_assoc, Rinv_l in H; lra.
  - apply (Rmult_lt_reg_r d); [exact Hd|]. unfold Rdiv. rewrite Rmult_assoc, Rinv_l; lra.
Qed.

Lemma le_div_iff (x y d : R) : 0 < d -> (y <= x / d <-> y * d <= x).
Proof.
  intros Hd. split; intros H.
  - apply (Rmult_le_compat_r d) in H; [|lra].
    unfold Rdiv in H. rewrite Rmult_assoc, Rinv_l in H; lra.
  - apply (Rmult_le_reg_r d); [exact Hd|]. unfold Rdiv. rewrite Rmult_assoc, Rinv_l; lra.
Qed.

(** [flog2] is the exponent of the leading bit. *)
Lemma flog2_spec (n d : Z) : (0 < n)%Z -> (0 < d)%Z ->
  p2 (flog2 n d) <= IZR n / IZR d < p2 (flog2 n d + 1).
Proof.
  intros Hn Hd. assert (Hd' : 0 < IZR d) by (apply IZR_lt; lia).
  pose proof (log2_bounds n Hn) as [N1 N2]. pose proof (log2_bounds d Hd) as [D1 D2].
  set (e0 := (Z.log2 n - Z.log2 d)%Z).
  assert (Up : IZR n / IZR d < p2 (e0 + 1)).
  { apply div_lt_iff; [exact Hd'|].
    assert (E : p2 (Z.log2 n + 1) = p2 (e0 + 1) * p2 (Z.log2 d))
      by (rewrite <- p2_add; f_equal; unfold e0; lia).
    pose proof (p2_pos (e0 + 1)). nra. }
  assert (Lo : p2 (e0 - 1) < IZR n / IZR d).
  { apply (Rmult_lt_reg_r (IZR d)); [exact Hd'|].
    unfold Rdiv. rewrite Rmult_assoc, Rinv_l, Rmult_1_r by lra.
    assert (E : p2 (Z.log2 n) = p2 (e0 - 1) * p2 (Z.log2 d + 1))
      by (rewrite <- p2_add; f_equal; unfold e0; lia).
    pose proof (p2_pos (e0 - 1)). nra. }
  unfold flog2. fold e0. destruct (pow2_le e0 n d) eqn:T.
  - apply pow2_le_spec in T; [|lia|lia]. split; assumption.
  - assert (T' : ~ p2 e0 <= IZR n / IZR d) by (rewrite <- pow2_le_spec by lia; congruence).
    split; [lra|]. replace (e0 - 1 + 1)%Z with e0 by lia. lra.
Qed.

(** Rounding to nearest is within half a unit. *)
Lemma rne_spec (num den : Z) : (0 < den)%Z ->
  Rabs (IZR (rne num den) - IZR num / IZR den) <= / 2.
Proof.
  intros Hd. unfold rne. pose proof (Z_div_mod num den ltac:(lia)) as Hdm.
  destruct (Z.div_eucl num den) as [q r]. destruct Hdm as [Hnum Hr].
  assert (Hd' : 0 < IZR den) by (apply IZR_lt; lia).
  assert (Ex : IZR num / IZR den = IZR q + IZR r / IZR den)
    by (rewrite Hnum, plus_IZR, mult_IZR; field; lra).
  assert (R0 : 0 <= IZR r / IZR den)
    by (apply Rmult_le_pos; [apply IZR_le; lia | left; apply Rinv_0_lt_compat, Hd']).
  assert (R1 : IZR r / IZR den < 1)
    by (apply div_lt_iff; [exact Hd'|]; rewrite Rmult_1_l; apply IZR_lt; lia).
  rewrite Ex. destruct (Z.compare_spec (2 * r) den) as [C|C|C].
  - assert (Eh : IZR r / IZR den = / 2).
    { apply IZR_eq in C. rewrite mult_IZR in C. rewrite <- C. field. lra. }
    rewrite Eh. destruct (Z.even q); rewrite ?plus_IZR; apply Rabs_le; lra.
  - assert (IZR r / IZR den < / 2).
    { apply div_lt_iff; [exact Hd'|]. apply IZR_lt in C. rewrite mult_IZR in C. lra. }
    apply Rabs_le; lra.
  - assert (/ 2 < IZR r / IZR den).
    { apply (Rmult_lt_reg_r (IZR den)); [exact Hd'|]. unfold Rdiv.
      rewrite Rmult_assoc, Rinv_l by lra. apply IZR_lt in C. rewrite mult_IZR in C. lra. }
    rewrite plus_IZR. apply Rabs_le; lra.
Qed.

(** The value of [round_pos]: a significand [M] at the scale of [E]. *)
Lemma round_pos_value (prec emin n d : Z) : (0 < n)%Z -> (0 < d)%Z ->
  exists M, Q2R (round_pos prec emin n d) = IZR M * p2 (Z.max (flog2 n d) emin - prec + 1) /\
    Rabs (IZR M - IZR n / IZR d * p2 (prec - 1 - Z.max (flog2 n d) emin)) <= / 2.
Proof.
  intros Hn Hd. unfold round_pos.
  set (E := Z.max (flog2 n d) emin). set (k := (prec - 1 - E)%Z).
  assert (Hd' : 0 < IZR d) by (apply IZR_lt; lia).
  replace (E - prec + 1)%Z with (- k)%Z by (unfold k; lia). rewrite p2_opp.
  pose proof (p2_pos k) as Hk.
  destruct (Z.leb_spec 0 k) as [Hk0|Hk0].
  - exists (rne (n * 2 ^ k) d). split.
    + unfold Q2R. cbn [Qnum Qden]. rewrite Z2Pos.id by (apply Z.pow_pos_nonneg; lia).
      rewrite IZR_pow2 by exact Hk0. reflexivity.
    + replace (IZR n / IZR d * p2 k) with (IZR (n * 2 ^ k) / IZR d)
        by (rewrite mult_IZR, IZR_pow2 by exact Hk0; field; lra).
      apply rne_spec. exact Hd.
  - exists (rne n (d * 2 ^ (- k))).
    assert (Hp : 0 < IZR (2 ^ (- k))) by (apply IZR_lt, Z.pow_pos_nonneg; lia).
    assert (Ek : IZR (2 ^ (- k)) = / p2 k) by (rewrite IZR_pow2, p2_opp by lia; reflexivity).
    split.
    + unfold Q2R. cbn [Qnum Qden inject_Z]. rewrite mult_IZR, Ek. field. lra.
    + replace (IZR n / IZR d * p2 k) with (IZR n / IZR (d * 2 ^ (- k)))
        by (rewrite mult_IZR, Ek; field; split; lra).
      apply rne_spec. pose proof (Z.pow_pos_nonneg 2 (- k)). nia.
Qed.

Lemma p2_0 : p2 0 = 1.
Proof. reflexivity. Qed.

(** A positive number of the normal range is rounded to a [prec]-bit
    number within relative error [2^-prec]. *)
Lemma round_pos_spec (prec emin n d : Z) : (0 < n)%Z -> (0 < d)%Z -> (1 <= prec)%Z ->
  p2 emin <= IZR n / IZR d ->
  exists M E, (0 < M <= 2 ^ prec)%Z /\ (emin <= E)%Z /\
    Q2R (round_pos prec emin n d) = IZR M * p2 (E - prec + 1) /\
    Rabs (Q2R (round_pos prec emin n d) - IZR n / IZR d) <= p2 (- prec) * (IZR n / IZR d).
Proof.
  intros Hn Hd Hp Hmin.
  destruct (round_pos_value prec emin n d Hn Hd) as (M & EM & HM).
  set (E := Z.max (flog2 n d) emin) in *. set (a := IZR n / IZR d) in *.
  exists M, E.
  pose proof (flog2_spec n d Hn Hd) as [F1 F2]. fold a in F1, F2.
  assert (HE : p2 E <= a) by (unfold E; destruct (Z.max_spec (flog2 n d) emin) as [[_ ->]|[_ ->]]; lra).
  assert (HE1 : a < p2 (E + 1))
    by (eapply Rlt_le_trans; [exact F2 | apply p2_mono; unfold E; lia]).
  set (x := a * p2 (prec - 1 - E)) in *.
  assert (Hx0 : p2 (prec - 1) <= x).
  { unfold x. replace (prec - 1)%Z with (E + (prec - 1 - E))%Z at 1 by lia. rewrite p2_add.
    apply Rmult_le_compat_r; [left; apply p2_pos | exact HE]. }
  assert (Hx1 : x < p2 prec).
  { unfold x. replace prec with ((E + 1) + (prec - 1 - E))%Z at 2 by lia. rewrite p2_add.
    apply Rmult_lt_compat_r; [apply p2_pos | exact HE1]. }
  assert (Hone : 1 <= p2 (prec - 1)) by (rewrite <- p2_0; apply p2_mono; lia).
  assert (HM1 : IZR M - x <= / 2) by (eapply Rle_trans; [apply Rle_abs | exact HM]).
  assert (HM2 : - (IZR M - x) <= / 2)
    by (eapply Rle_trans; [apply Rle_abs | rewrite Rabs_Ropp; exact HM]).
  split; [split|].
  - apply lt_IZR. lra.
  - assert (Hlt : IZR M < IZR (2 ^ prec + 1)) by (rewrite plus_IZR, IZR_pow2 by lia; lra).
    apply lt_IZR in Hlt. lia.
  - split; [unfold E; lia|]. split; [exact EM|].
    assert (Ea : a = x * p2 (E - prec + 1)).
    { unfold x. rewrite Rmult_assoc, <- p2_add. replace (prec - 1 - E + (E - prec + 1))%Z with 0%Z by lia.
      rewrite p2_0. ring. }
    rewrite EM, Ea at 1. replace (IZR M * p2 (E - prec + 1) - x * p2 (E - prec + 1))
      with ((IZR M - x) * p2 (E - prec + 1)) by ring.
    rewrite Rabs_mult, (Rabs_pos_eq (p2 _)) by (left; apply p2_pos).
    assert (Hs : p2 (E - prec + 1) = 2 * (p2 E * p2 (- prec)))
      by (replace (E - prec + 1)%Z with (1 + (E + - prec))%Z by lia; rewrite !p2_add, p2_1; ring).
    pose proof (p2_pos (- prec)). pose proof (p2_pos E). rewrite Hs.
    assert (Hu : p2 E * p2 (- prec) <= p2 (- prec) * a) by nra.
    assert (0 < p2 E * p2 (- prec)) by (apply Rmult_lt_0_compat; assumption).
    pose proof (Rabs_pos (IZR M - x)). nra.
Qed.

(** The standard model of rounding: for a precision [prec >= 1] and
    any rational [q] of the normal range ([|q| >= 2^emin]), [round_prec]
    returns a number of the format, [M 2^(E - prec + 1)] with
    [|M| <= 2^prec] and [E >= emin], within [2^-prec |q|] of [q].  For
    float32 ([prec = 24]) the relative error is at most [2^-24], for
    float64 ([prec = 53]) at most [2^-53]. *)
Lemma round_prec_error (prec emin : Z) (q : Q) :
  (1 <= prec)%Z -> p2 emin <= Rabs (Q2R q) ->
  exists M E, (Z.abs M <= 2 ^ prec)%Z /\ (emin <= E)%Z /\
    Q2R (round_prec prec emin q) = IZR M * p2 (E - prec + 1) /\
    Rabs (Q2R (round_prec prec emin q) - Q2R q) <= p2 (- prec) * Rabs (Q2R q).
Proof.
  intros Hp Hq. destruct q as [[|n|n] d]; unfold round_prec; cbn [Qnum Qden] in *.
  - exfalso. unfold Q2R in Hq. cbn [Qnum] in Hq. rewrite Rmult_0_l, Rabs_R0 in Hq.
    pose proof (p2_pos emin). lra.
  - assert (Ea : Q2R (Zpos n # d) = IZR (Zpos n) / IZR (Zpos d)) by reflexivity.
    assert (Hpos : 0 < IZR (Zpos n) / IZR (Zpos d))
      by (apply Rdiv_lt_0_compat; apply IZR_lt; lia).
    rewrite Ea, Rabs_pos_eq in * by lra.
    destruct (round_pos_spec prec emin (Zpos n) (Zpos d) ltac:(lia) ltac:(lia) Hp Hq)
      as (M & E & HM & HE & EV & Err).
    exists M, E. split; [lia|]. split; [exact HE|]. split; [exact EV|].
    try rewrite Ea; try rewrite (Rabs_pos_eq (IZR (Zpos n) / IZR (Zpos d))) by lra. exact Err.
  - assert (Ea : Q2R (Zneg n # d) = - (IZR (Zpos n) / IZR (Zpos d)))
      by (unfold Q2R; cbn [Qnum Qden]; rewrite <- Pos2Z.opp_pos, opp_IZR; field;
          apply not_0_IZR; lia).
    assert (Hpos : 0 < IZR (Zpos n) / IZR (Zpos d))
      by (apply Rdiv_lt_0_compat; apply IZR_lt; lia).
    rewrite Ea, Rabs_Ropp, Rabs_pos_eq in * by lra.
    destruct (round_pos_spec prec emin (Zpos n) (Zpos d) ltac:(lia) ltac:(lia) Hp Hq)
      as (M & E & HM & HE & EV & Err).
    exists (- M)%Z, E. rewrite Q2R_opp, EV, opp_IZR. split; [lia|]. split; [exact HE|].
    split; [ring|]. rewrite EV in Err.
    replace (- (IZR M * p2 (E - prec + 1)) - - (IZR (Zpos n) / IZR (Zpos d)))
      with (- (IZR M * p2 (E - prec + 1) - IZR (Zpos n) / IZR (Zpos d))) by ring.
    rewrite Rabs_Ropp. rewrite (Rabs_pos_eq (IZR (Zpos n) / IZR (Zpos d))) by lra. exact Err.
Qed.

(** ** The float32 table *)

(** A row as [torch.Tensor] stores it (lines 53-55 and 67-69). *)
Definition param_f32 (p : contour_param) : contour_param :=
  mk_param (to_float32 (p_f p)) (to_float32 (p_af p)) (to_float32 (p_Lu p)) (to_float32 (p_Tf p)).

Definition EQUAL_LOUDNESS_CONTOUR_PARAMS_f32 : list contour_param :=
  map param_f32 EQUAL_LOUDNESS_CONTOUR_PARAMS.

(** [row_bounds] decided in rational arithmetic. *)
Definition row_bounds_b (p : contour_param) : bool :=
  let x := ((p_Tf p + p_Lu p) / 10 - 9)%Q in
  (Qltb 0 (p_af p) && Qltb x 0 && Qle_bool (p_af p * (1 - (24 # 10) * x)) (69 # 10))%Q.

Lemma row_bounds_b_spec (p : contour_param) : row_bounds_b p = true -> row_bounds p.
Proof.
  unfold row_bounds_b, row_bounds, af_R, Lu_R, Tf_R.
  intros H. apply andb_prop in H as [H H3]. apply andb_prop in H as [H1 H2].
  apply Qltb_spec, Qlt_Rlt in H1. apply Qltb_spec, Qlt_Rlt in H2.
  apply Qle_bool_iff, Qle_Rle in H3.
  rewrite Q2R_minus, Q2R_div, Q2R_plus in H2 by (intro E; discriminate E).
  rewrite Q2R_mult, Q2R_minus, Q2R_mult, Q2R_minus, Q2R_div, Q2R_plus in H3
    by (intro E; discriminate E).
  replace (Q2R 0) with 0 in * by (unfold Q2R; simpl; lra).
  replace (Q2R 10) with 10 in * by (unfold Q2R; simpl; lra).
  replace (Q2R 9) with 9 in * by (unfold Q2R; simpl; lra).
  replace (Q2R 1) with 1 in * by (unfold Q2R; simpl; lra).
  replace (Q2R (24 # 10)) with 2.4 in * by (unfold Q2R; simpl; lra).
  replace (Q2R (69 # 10)) with 6.9 in * by (unfold Q2R; simpl; lra).
  repeat split; assumption.
Qed.

(** What the float32 conversion of the table keeps: the 29 anchor
    frequencies are stored exactly (so the spline's knots are the
    table's), the float32 table is still well formed (29 rows, strictly
    increasing frequencies, positive exponents), and the other constants
    are rounded, e.g. [0.532] becomes [8925479 / 2^24]. *)
Lemma f32_table_knots_exact :
  forallb (fun p => Qeq_bool (p_f (param_f32 p)) (p_f p)) EQUAL_LOUDNESS_CONTOUR_PARAMS = true /\
  table_wf_b EQUAL_LOUDNESS_CONTOUR_PARAMS_f32 = true /\
  (to_float32 0.532 == 8925479 # 16777216)%Q.
Proof. split; [vm_compute; reflexivity|]. split; [vm_compute; reflexivity|]. vm_compute. reflexivity. Qed.

(** C35. The argument of [torch.log10] stays positive with the float32
    constants the code actually uses: for every level [Ln >= 0], [Af > 0]
    at every row of the float32 table. *)
Theorem iso226_Af_pos_f32 (Ln : R) :
  0 <= Ln -> Forall (fun p => 0 < iso226_Af Ln p) EQUAL_LOUDNESS_CONTOUR_PARAMS_f32.
Proof.
  intros HLn. apply Forall_forall. intros p Hp.
  apply iso226_Af_pos_row; [|exact HLn]. apply row_bounds_b_spec.
  assert (Hb : forallb row_bounds_b EQUAL_LOUDNESS_CONTOUR_PARAMS_f32 = true)
    by (vm_compute; reflexivity).
  rewrite forallb_forall in Hb. apply Hb, Hp.
Qed.

Lemma iso226_Af_pos_f32_witness :
  Forall (fun p => 0 < iso226_Af 0 p) EQUAL_LOUDNESS_CONTOUR_PARAMS_f32.
Proof. apply iso226_Af_pos_f32. lra. Defined.
