(* ===== verification/Compress.v ===== *)
(** * The compressive loudness transform, element by element

    [loudness.py] lines 105-110, for one element: with the threshold
    excitation [e0], the excitation [e], [s = schwell_factor] and
    [g = compression_level], the code computes
    [torch.clip((e0/s)**g * ((1 - s + s*(e/e0))**g - 1), min=0)]
    (Beaton and Beerends 1995).  [compress_elem] is that expression on
    [xr], operation by operation in the order of the source;
    [Compressor.v] lifts it to tensors with torch broadcasting.

    The abstract specification is [loudness_spec]: the clipped real formula
    [max(0, (e0/s)^g ((1 - s + s e/e0)^g - 1))].  [compress_elem_refines]
    shows that the IEEE computation is finite and equal to it whenever
    [e0 > 0], [0 < s] and the base [1 - s + s e/e0] is non-negative.  The
    theorems then give the spec's properties (zero at threshold, zero below,
    positive above, non-negative, monotone in [e]), the form of the result
    as a difference of powers [(e + e0 (1-s)/s)^g - (e0/s)^g] and, by
    subadditivity of [x^g], the bound [x^g] for [g <= 1]; by concavity of
    [x^g], that a higher threshold never gives more loudness for [g <= 1];
    homogeneity of degree [g] in [(e0, e)]; and the three inputs on
    which the code returns NaN: [e0 = 0], [s = 0], and [s > 1] with a quiet
    band. *)

From Stdlib Require Import Reals Lra.
From S2P Require Import Prelude FloatExt.
Open Scope R_scope.

(** Line 109 and the clip of line 110, for one element. *)
Definition compress_elem (s g : R) (e0 e : xr) : xr :=
  xclip0
    (xmul (xpow (xdiv e0 (Fin s)) g)
          (xsub (xpow (xadd (Fin (1 - s)) (xmul (Fin s) (xdiv e e0))) g) (Fin 1))).

(** The abstract specification: specific loudness above threshold. *)
Definition loudness_spec (s g e0 e : R) : R :=
  Rmax (Rpower (e0 / s) g * (pw (1 - s + s * (e / e0)) g - 1)) 0.

(** The refinement: when no special value can arise, the IEEE computation
    is the real formula. *)
Lemma compress_elem_refines (s g e0 e : R) :
  0 < e0 -> 0 < s -> 0 < g -> 0 <= 1 - s + s * (e / e0) ->
  compress_elem s g (Fin e0) (Fin e) = Fin (loudness_spec s g e0 e).
Proof.
  intros He0 Hs Hg Hb. unfold compress_elem, loudness_spec.
  rewrite !xdiv_fin by lra. rewrite xpow_pos by rpos.
  cbn [xmul xadd]. rewrite xpow_nonneg by assumption.
  cbn [xsub xneg xadd xmul xclip0].
  reflexivity.
Qed.

(** ** The base [1 - s + s e/e0] *)

Lemma base_nonneg (s e0 e : R) :
  0 < e0 -> 0 < s <= 1 -> 0 <= e -> 0 <= 1 - s + s * (e / e0).
Proof.
  intros He0 Hs He.
  assert (0 <= e / e0) by (apply Rmult_le_pos; [lra | left; apply Rinv_0_lt_compat; lra]).
  nra.
Qed.

Lemma base_le_mono (s e0 e1 e2 : R) :
  0 < e0 -> 0 < s -> e1 <= e2 -> 1 - s + s * (e1 / e0) <= 1 - s + s * (e2 / e0).
Proof.
  intros He0 Hs H12. assert (e1 / e0 <= e2 / e0)
    by (apply Rmult_le_compat_r; [left; apply Rinv_0_lt_compat|]; lra).
  nra.
Qed.

Lemma base_gt_1 (s e0 e : R) :
  0 < e0 -> 0 < s -> e0 < e -> 1 < 1 - s + s * (e / e0).
Proof.
  intros He0 Hs He. assert (1 < e / e0).
  { apply (Rmult_lt_reg_r e0); [lra|]. unfold Rdiv. rewrite Rmult_assoc, Rinv_l; lra. }
  nra.
Qed.

(** ** Properties of the transform *)

(** An excitation exactly at threshold carries no loudness: for any
    positive threshold [e0], positive [s] and any exponent [g], the result
    is exactly [0]. *)
Lemma compress_elem_at_threshold (s g e0 : R) :
  0 < e0 -> 0 < s -> compress_elem s g (Fin e0) (Fin e0) = Fin 0.
Proof.
  intros He0 Hs. unfold compress_elem.
  rewrite !xdiv_fin by lra. cbn [xmul xadd].
  replace (1 - s + s * (e0 / e0)) with 1 by (field; lra).
  rewrite !xpow_pos by rpos. rewrite Rpower_1_l.
  cbn [xsub xneg xadd xmul xclip0]. f_equal.
  apply Rmax_0_nonpos. lra.
Qed.

(** Non-negativity: for [e0 > 0], [0 < s <= 1], [g > 0] and any
    excitation [e >= 0], the result is a finite, non-negative number (never
    NaN, never infinite, never negative). *)
Lemma compress_elem_nonneg (s g e0 e : R) :
  0 < e0 -> 0 < s <= 1 -> 0 < g -> 0 <= e ->
  exists v, compress_elem s g (Fin e0) (Fin e) = Fin v /\ 0 <= v.
Proof.
  intros He0 Hs Hg He. eexists; split.
  - apply compress_elem_refines; try lra. apply base_nonneg; lra.
  - apply Rmax_r.
Qed.

(** C18. Below threshold: for [0 <= e <= e0] (and [0 < s <= 1], [g > 0]) the
    bracket [(1 - s + s e/e0)^g - 1] is not positive and the clip gives
    exactly [0]. *)
Theorem compress_elem_below_threshold (s g e0 e : R) :
  0 < e0 -> 0 < s <= 1 -> 0 < g -> 0 <= e <= e0 ->
  compress_elem s g (Fin e0) (Fin e) = Fin 0.
Proof.
  intros He0 Hs Hg He.
  rewrite compress_elem_refines by (try apply base_nonneg; lra).
  f_equal. unfold loudness_spec. apply Rmax_0_nonpos.
  assert (pw (1 - s + s * (e / e0)) g <= 1).
  { apply Rle_trans with (pw 1 g); [|rewrite pw_1; lra].
    apply pw_le_mono; [|lra]. split; [apply base_nonneg; lra|].
    replace 1 with (1 - s + s * (e0 / e0)) at 2 by (field; lra).
    apply base_le_mono; lra. }
  assert (0 < Rpower (e0 / s) g) by apply Rpower_pos. nra.
Qed.

(** C17. Above threshold: for [e > e0 > 0], [s > 0] and [g > 0] the result
    is finite and strictly positive (audible loudness). *)
Theorem compress_elem_above_threshold (s g e0 e : R) :
  0 < e0 -> 0 < s -> 0 < g -> e0 < e ->
  exists v, compress_elem s g (Fin e0) (Fin e) = Fin v /\ 0 < v.
Proof.
  intros He0 Hs Hg He. pose proof (base_gt_1 s e0 e He0 Hs He) as Hb.
  eexists; split; [apply compress_elem_refines; lra|].
  unfold loudness_spec. eapply Rlt_le_trans; [|apply Rmax_l].
  pose proof (pw_gt_1 _ g Hb Hg).
  assert (0 < Rpower (e0 / s) g) by apply Rpower_pos. nra.
Qed.

(** C19. Monotonicity: a larger excitation never gives less loudness
    ([0 <= e1 <= e2], [e0 > 0], [0 < s <= 1], [g > 0]). *)
Theorem compress_elem_monotone (s g e0 e1 e2 : R) :
  0 < e0 -> 0 < s <= 1 -> 0 < g -> 0 <= e1 <= e2 ->
  exists v1 v2, compress_elem s g (Fin e0) (Fin e1) = Fin v1 /\
                compress_elem s g (Fin e0) (Fin e2) = Fin v2 /\ v1 <= v2.
Proof.
  intros He0 Hs Hg He. exists (loudness_spec s g e0 e1), (loudness_spec s g e0 e2).
  split; [|split]; try (apply compress_elem_refines; try apply base_nonneg; lra).
  unfold loudness_spec. apply Rle_max_compat_r.
  apply Rmult_le_compat_l; [left; apply Rpower_pos|].
  apply Rplus_le_compat_r, pw_le_mono; [|lra].
  split; [apply base_nonneg; lra | apply base_le_mono; lra].
Qed.

(** ** The power-difference form and the upper bound *)

(** The Beaton-Beerends formula is a difference of two powers:
    [(e0/s)^g ((1 - s + s e/e0)^g - 1) = (e + e0 (1-s)/s)^g - (e0/s)^g]. *)
Lemma loudness_spec_diff (s g e0 e : R) :
  0 < e0 -> 0 < s <= 1 -> 0 < g -> 0 <= e ->
  loudness_spec s g e0 e = Rmax (pw (e + e0 * (1 - s) / s) g - Rpower (e0 / s) g) 0.
Proof.
  intros He0 Hs Hg He. unfold loudness_spec.
  assert (Hq : 0 < e0 / s) by rpos.
  rewrite <- (pw_pos (e0 / s) g Hq) at 1.
  rewrite Rmult_minus_distr_l, Rmult_1_r, <- pw_mult by (try lra; apply base_nonneg; lra).
  rewrite (pw_pos (e0 / s) g Hq).
  replace (e0 / s * (1 - s + s * (e / e0))) with (e + e0 * (1 - s) / s) by (field; lra).
  reflexivity.
Qed.

(** For [0 < g <= 1] the loudness of an element never exceeds [e^g]: the
    threshold term [(e0/s)^g] is at least [(e0 (1-s)/s)^g], and [x^g] is
    subadditive. *)
Lemma loudness_spec_le_pw (s g e0 e : R) :
  0 < e0 -> 0 < s <= 1 -> 0 < g <= 1 -> 0 <= e -> loudness_spec s g e0 e <= pw e g.
Proof.
  intros He0 Hs Hg He. rewrite loudness_spec_diff by lra.
  assert (Hc : 0 <= e0 * (1 - s) / s)
    by (apply Rmult_le_pos; [nra | left; apply Rinv_0_lt_compat; lra]).
  assert (Hcq : e0 * (1 - s) / s <= e0 / s)
    by (apply Rmult_le_compat_r; [left; apply Rinv_0_lt_compat|]; nra).
  pose proof (pw_subadd e (e0 * (1 - s) / s) g He Hc Hg).
  pose proof (pw_le_mono (e0 * (1 - s) / s) (e0 / s) g ltac:(lra) ltac:(lra)).
  rewrite (pw_pos (e0 / s)) in * by rpos.
  pose proof (pw_nonneg e g). apply Rmax_lub; lra.
Qed.

(** A higher threshold never gives more loudness when [0 < g <= 1]: at or
    below the higher threshold the loudness is [0]; above it, the shifted
    excitation grows by [(1-s) d] while the threshold term grows by [d]
    from a smaller base, and [x^g] is concave. *)
Lemma loudness_spec_threshold_antitone (s g e01 e02 e : R) :
  0 < e01 <= e02 -> 0 < s <= 1 -> 0 < g <= 1 -> 0 <= e ->
  loudness_spec s g e02 e <= loudness_spec s g e01 e.
Proof.
  intros H0 Hs Hg He. rewrite !loudness_spec_diff by lra.
  rewrite <- !(pw_pos (_ / s)) by rpos.
  destruct (Rle_dec e e02) as [Hle|Hlt].
  - assert (pw (e + e02 * (1 - s) / s) g <= pw (e02 / s) g).
    { apply pw_le_mono; [|lra]. split.
      - apply Rplus_le_le_0_compat; [lra|].
        apply Rmult_le_pos; [nra | left; apply Rinv_0_lt_compat; lra].
      - apply (Rmult_le_reg_r s); [lra|]. field_simplify; nra. }
    rewrite (Rmax_0_nonpos (_ - _)) by lra. apply Rmax_r.
  - apply Rle_max_compat_r.
    set (Y := e01 / s). set (d := (e02 - e01) / s). set (X := e + e01 * (1 - s) / s).
    assert (Hd : 0 <= d) by (unfold d; apply Rmult_le_pos; [lra | left; apply Rinv_0_lt_compat; lra]).
    assert (HY : 0 < Y <= X).
    { unfold Y, X. split; [rpos|].
      apply (Rmult_le_reg_r s); [lra|]. field_simplify; nra. }
    replace (e + e02 * (1 - s) / s) with (X + (1 - s) * d) by (unfold X, d; field; lra).
    replace (e02 / s) with (Y + d) by (unfold Y, d; field; lra).
    fold X Y.
    assert (pw (X + (1 - s) * d) g <= pw (X + d) g) by (apply pw_le_mono; nra).
    pose proof (pw_incr_antitone X Y d g HY Hd Hg). lra.
Qed.

(** C15. Raising the hearing threshold never raises the loudness: for
    thresholds [0 < e01 <= e02], [0 < s <= 1], [0 < g <= 1] (the default
    [g = 0.04] among them) and an excitation [e >= 0], the code computes a
    finite value at both thresholds, and the one at [e02] is at most the
    one at [e01]. *)
Theorem compress_elem_threshold_antitone (s g e01 e02 e : R) :
  0 < e01 <= e02 -> 0 < s <= 1 -> 0 < g <= 1 -> 0 <= e ->
  exists v1 v2, compress_elem s g (Fin e01) (Fin e) = Fin v1 /\
                compress_elem s g (Fin e02) (Fin e) = Fin v2 /\ v2 <= v1.
Proof.
  intros H0 Hs Hg He. exists (loudness_spec s g e01 e), (loudness_spec s g e02 e).
  split; [|split]; try (apply compress_elem_refines; try apply base_nonneg; lra).
  apply loudness_spec_threshold_antitone; assumption.
Qed.

(** Scaling threshold and excitation by [k > 0] scales the specified
    loudness by [k^g]: the base depends on [e/e0] only. *)
Lemma loudness_spec_scale (s g e0 e k : R) :
  0 < e0 -> 0 < s -> 0 < k ->
  loudness_spec s g (k * e0) (k * e) = Rpower k g * loudness_spec s g e0 e.
Proof.
  intros He0 Hs Hk. unfold loudness_spec.
  replace (k * e / (k * e0)) with (e / e0) by (field; lra).
  replace (k * e0 / s) with (k * (e0 / s)) by (field; lra).
  rewrite <- Rpower_mult_distr by rpos.
  rewrite <- RmaxRmult by (left; apply Rpower_pos).
  rewrite Rmult_0_r, Rmult_assoc. reflexivity.
Qed.

(** C23. Scale invariance of the compression: multiplying the threshold
    excitation and the excitation by the same [k > 0] (a change of the
    power unit) multiplies the computed loudness by [k^g], for [e0 > 0],
    [0 < s <= 1], [g > 0] and [e >= 0]: line 109 is homogeneous of degree
    [g]. *)
Theorem compress_elem_scale (s g e0 e k : R) :
  0 < e0 -> 0 < s <= 1 -> 0 < g -> 0 <= e -> 0 < k ->
  exists v, compress_elem s g (Fin e0) (Fin e) = Fin v /\
            compress_elem s g (Fin (k * e0)) (Fin (k * e)) = Fin (Rpower k g * v).
Proof.
  intros He0 Hs Hg He Hk. exists (loudness_spec s g e0 e). split.
  - apply compress_elem_refines; try lra. apply base_nonneg; lra.
  - rewrite <- loudness_spec_scale by lra.
    apply compress_elem_refines; try nra. apply base_nonneg; nra.
Qed.

(** C27. Difference-of-powers form: for [e0 > 0], [0 < s <= 1], [g > 0]
    and [e >= 0], the element computed by the code is finite and equals
    [max(0, (e + e0 (1-s)/s)^g - (e0/s)^g)]: the loudness is the growth of
    [x^g] from the threshold [e0/s] to the excitation shifted by
    [e0 (1-s)/s]. *)
Theorem compress_elem_power_difference (s g e0 e : R) :
  0 < e0 -> 0 < s <= 1 -> 0 < g -> 0 <= e ->
  compress_elem s g (Fin e0) (Fin e) =
    Fin (Rmax (pw (e + e0 * (1 - s) / s) g - Rpower (e0 / s) g) 0).
Proof.
  intros He0 Hs Hg He. rewrite <- loudness_spec_diff by lra.
  apply compress_elem_refines; try lra. apply base_nonneg; lra.
Qed.

(** ** Inputs on which the code returns NaN *)

Lemma xpow_NaN (g : R) : g <> 0 -> xpow NaN g = NaN.
Proof. intros H. unfold xpow. destruct (Req_dec_T g 0); [contradiction | reflexivity]. Qed.

Lemma xpow_PInf (g : R) : 0 < g -> xpow PInf g = PInf.
Proof.
  intros H. unfold xpow. destruct (Req_dec_T g 0); [lra|].
  destruct (Rlt_dec 0 g); [reflexivity | lra].
Qed.

Lemma xpow_NInf_inf (g : R) : 0 < g -> xpow NInf g = NInf \/ xpow NInf g = PInf.
Proof.
  intros H. unfold xpow. destruct (Req_dec_T g 0); [lra|].
  destruct (Rlt_dec 0 g); [|lra]. destruct (is_odd_int g); auto.
Qed.

Lemma scale_inf_pos (x : R) (i : xr) : 0 < x -> scale_inf x i = i.
Proof.
  intros H. unfold scale_inf. destruct (Req_dec_T x 0); [lra|].
  destruct (Rlt_dec 0 x); [reflexivity | lra].
Qed.

Lemma scale_inf_zero (i : xr) : scale_inf 0 i = NaN.
Proof. unfold scale_inf. destruct (Req_dec_T 0 0); [reflexivity | congruence]. Qed.

(** C20. No guard on a zero threshold: when the threshold excitation [e0]
    is [0], the code returns NaN for every excitation [e] ([0 * inf] or
    [0/0] inside the formula), where the spec asks for a reported error. *)
Theorem compress_elem_zero_threshold (s g e : R) :
  0 < s -> 0 < g -> compress_elem s g (Fin 0) (Fin e) = NaN.
Proof.
  intros Hs Hg. unfold compress_elem.
  rewrite xdiv_fin by lra. replace (0 / s) with 0 by (field; lra).
  rewrite xpow_zero by assumption.
  cbn [xdiv]. destruct (Req_dec_T 0 0) as [_|]; [|congruence].
  destruct (Req_dec_T e 0) as [He|He].
  - cbn [xmul xadd]. rewrite xpow_NaN by lra. reflexivity.
  - destruct (Rlt_dec 0 e).
    + cbn [xmul xadd]. rewrite scale_inf_pos by assumption.
      rewrite xpow_PInf by assumption. cbn [xsub xneg xadd xmul].
      rewrite scale_inf_zero. reflexivity.
    + cbn [xmul xadd]. rewrite scale_inf_pos by assumption.
      destruct (xpow_NInf_inf g Hg) as [-> | ->]; cbn [xsub xneg xadd xmul];
        rewrite scale_inf_zero; reflexivity.
Qed.

(** C21. No validation of [schwell_factor = 0]: with [s = 0], [e0 / s] is
    [+inf] and the bracket is [0], so every element is NaN. *)
Theorem compress_elem_zero_schwell (g e0 e : R) :
  0 < e0 -> 0 < g -> compress_elem 0 g (Fin e0) (Fin e) = NaN.
Proof.
  intros He0 Hg. unfold compress_elem.
  cbn [xdiv]. destruct (Req_dec_T 0 0) as [_|]; [|congruence].
  destruct (Req_dec_T e0 0); [lra|]. destruct (Rlt_dec 0 e0); [|lra].
  rewrite xpow_PInf by assumption.
  destruct (Req_dec_T e0 0); [lra|]. cbn [xmul xadd].
  replace (1 - 0 + 0 * (e / e0)) with 1 by ring.
  rewrite xpow_pos by lra. rewrite Rpower_1_l. cbn [xsub xneg xadd xmul].
  match goal with |- context [scale_inf ?x PInf] => replace x with 0 by ring end.
  rewrite scale_inf_zero. reflexivity.
Qed.

(** C22. No validation of [schwell_factor > 1]: with [s > 1] and a quiet
    band ([0 <= e < e0 (s-1)/s]) the base [1 - s + s e/e0] is negative, and
    a non-integer exponent (the default [0.04]) makes the element NaN. *)
Theorem compress_elem_large_schwell (s g e0 e : R) :
  1 < s -> 0 < e0 -> 0 <= e -> e < e0 * (s - 1) / s -> is_int g = false ->
  compress_elem s g (Fin e0) (Fin e) = NaN.
Proof.
  intros Hs He0 He Hlt Hg. unfold compress_elem.
  rewrite !xdiv_fin by lra. cbn [xmul xadd].
  assert (Hneg : 1 - s + s * (e / e0) < 0).
  { assert (e / e0 < (s - 1) / s).
    { apply (Rmult_lt_reg_r e0); [lra|].
      replace (e / e0 * e0) with e by (field; lra).
      replace ((s - 1) / s * e0) with (e0 * (s - 1) / s) by (field; lra). lra. }
    assert (s * (e / e0) < s * ((s - 1) / s)) by (apply Rmult_lt_compat_l; lra).
    replace (s * ((s - 1) / s)) with (s - 1) in * by (field; lra). lra. }
  rewrite (xpow_neg_nonint _ g Hneg Hg).
  destruct (xpow (Fin (e0 / s)) g); reflexivity.
Qed.

(** ** Witnesses, at the code's defaults [s = 0.5], [g = 0.04] *)

Lemma compress_elem_below_threshold_witness :
  compress_elem 0.5 0.04 (Fin 2) (Fin 1) = Fin 0.
Proof. apply compress_elem_below_threshold; lra. Defined.

Lemma compress_elem_above_threshold_witness :
  exists v, compress_elem 0.5 0.04 (Fin 2) (Fin 8) = Fin v /\ 0 < v.
Proof. apply compress_elem_above_threshold; lra. Defined.

Lemma compress_elem_monotone_witness :
  exists v1 v2, compress_elem 0.5 0.04 (Fin 2) (Fin 1) = Fin v1 /\
                compress_elem 0.5 0.04 (Fin 2) (Fin 8) = Fin v2 /\ v1 <= v2.
Proof. apply compress_elem_monotone; lra. Defined.

Lemma compress_elem_zero_threshold_witness :
  compress_elem 0.5 0.04 (Fin 0) (Fin 3) = NaN.
Proof. apply compress_elem_zero_threshold; lra. Defined.

Lemma compress_elem_zero_schwell_witness :
  compress_elem 0 0.04 (Fin 2) (Fin 3) = NaN.
Proof. apply compress_elem_zero_schwell; lra. Defined.

Lemma compress_elem_large_schwell_witness :
  compress_elem 2 0.04 (Fin 2) (Fin 0) = NaN.
Proof. apply compress_elem_large_schwell; try lra. apply is_int_frac; lra. Defined.

Lemma compress_elem_power_difference_witness :
  compress_elem 0.5 0.04 (Fin 1) (Fin 4) =
    Fin (Rmax (pw (4 + 1 * (1 - 0.5) / 0.5) 0.04 - Rpower (1 / 0.5) 0.04) 0).
Proof. apply compress_elem_power_difference; lra. Defined.

Lemma compress_elem_threshold_antitone_witness :
  exists v1 v2, compress_elem 0.5 0.04 (Fin 1) (Fin 4) = Fin v1 /\
                compress_elem 0.5 0.04 (Fin 2) (Fin 4) = Fin v2 /\ v2 <= v1.
Proof. apply compress_elem_threshold_antitone; lra. Defined.

Lemma compress_elem_scale_witness :
  exists v, compress_elem 0.5 0.04 (Fin 1) (Fin 4) = Fin v /\
            compress_elem 0.5 0.04 (Fin (10 * 1)) (Fin (10 * 4)) = Fin (Rpower 10 0.04 * v).
Proof. apply compress_elem_scale; lra. Defined.
