(* ===== verification/Tensor.v ===== *)
(** * Two-dimensional torch tensors with broadcasting

    The tensors of [loudness.py] lines 93-110 are matrices: the threshold
    vector is made a column by [unsqueeze(1)] (line 94), the transfer
    collaborator returns a band-by-frame matrix, and the power spectrum is a
    matrix.  [tensor] records the shape and the rows; element-wise
    operations with a Python scalar are [tmap], and element-wise operations
    between two tensors are [tzip], which follows torch's broadcasting rule:
    two sizes are compatible when they are equal or one of them is [1], the
    result has the larger size, and a size-1 dimension is read at index 0;
    incompatible sizes raise [RuntimeError].

    The lemmas give the shape and the elements of [tmap] and [tzip]
    results, so that a property of an element-wise formula lifts to whole
    tensors. *)

From Stdlib Require Import List Lia Arith.
From S2P Require Import Prelude FloatExt.
Import ListNotations.

Record tensor : Type := mk_tensor {
  t_rows : nat;
  t_cols : nat;
  t_data : list (list xr)
}.

(** The rows agree with the recorded shape. *)
Definition wf (t : tensor) : Prop :=
  length (t_data t) = t_rows t /\ Forall (fun r => length r = t_cols t) (t_data t).

Definition get (t : tensor) (i j : nat) : xr := nth j (nth i (t_data t) []) NaN.

(** Broadcast size of two dimensions, [None] when torch raises. *)
Definition bdim (m n : nat) : option nat :=
  if Nat.eqb m n then Some m
  else if Nat.eqb m 1 then Some n
  else if Nat.eqb n 1 then Some m
  else None.

(** Index read in a dimension of size [m] for the result index [i]. *)
Definition bidx (m i : nat) : nat := if Nat.eqb m 1 then 0 else i.

Definition tabulate (r c : nat) (f : nat -> nat -> xr) : list (list xr) :=
  map (fun i => map (f i) (seq 0 c)) (seq 0 r).

(** [f t] for a function [f] applied element-wise (a Python scalar on one
    side of an operator). *)
Definition tmap (f : xr -> xr) (t : tensor) : tensor :=
  mk_tensor (t_rows t) (t_cols t) (map (map f) (t_data t)).

(** [f a b] element-wise with broadcasting. *)
Definition tzip (f : xr -> xr -> xr) (a b : tensor) : result tensor :=
  match bdim (t_rows a) (t_rows b), bdim (t_cols a) (t_cols b) with
  | Some r, Some c =>
      Ok (mk_tensor r c (tabulate r c (fun i j =>
            f (get a (bidx (t_rows a) i) (bidx (t_cols a) j))
              (get b (bidx (t_rows b) i) (bidx (t_cols b) j)))))
  | _, _ => Err RuntimeError
  end.

(** [x.unsqueeze(1)] on a vector: an [n x 1] column. *)
Definition unsqueeze1 (v : list xr) : tensor :=
  mk_tensor (length v) 1 (map (fun x => [x]) v).

(** ** Shapes and elements *)

Lemma wf_tabulate (r c : nat) f : wf (mk_tensor r c (tabulate r c f)).
Proof.
  unfold wf, tabulate; simpl. rewrite length_map, length_seq. split; [reflexivity|].
  apply Forall_forall. intros row Hin. apply in_map_iff in Hin as (i & <- & _).
  rewrite length_map, length_seq. reflexivity.
Qed.

Lemma get_tabulate (r c : nat) f i j :
  (i < r)%nat -> (j < c)%nat -> get (mk_tensor r c (tabulate r c f)) i j = f i j.
Proof.
  intros Hi Hj. unfold get, tabulate; simpl.
  rewrite (nth_map_lt _ _ _ 0%nat) by (rewrite length_seq; exact Hi).
  rewrite (nth_map_lt _ _ _ 0%nat) by (rewrite length_seq; exact Hj).
  rewrite !seq_nth by assumption. reflexivity.
Qed.

Lemma wf_tmap (f : xr -> xr) (t : tensor) : wf t -> wf (tmap f t).
Proof.
  intros [Hr Hc]. unfold wf, tmap; simpl. rewrite length_map. split; [assumption|].
  apply Forall_map. eapply Forall_impl; [|exact Hc]. intros row H. rewrite length_map; exact H.
Qed.

Lemma get_tmap (f : xr -> xr) (t : tensor) i j :
  wf t -> (i < t_rows t)%nat -> (j < t_cols t)%nat -> get (tmap f t) i j = f (get t i j).
Proof.
  intros [Hr Hc] Hi Hj. unfold get, tmap; simpl.
  rewrite (nth_map_lt _ _ _ []) by lia.
  assert (Hrow : length (nth i (t_data t) []) = t_cols t)
    by (rewrite Forall_forall in Hc; apply Hc, nth_In; lia).
  apply nth_map_lt. lia.
Qed.

Lemma bdim_spec (m n k : nat) :
  bdim m n = Some k -> (m = n /\ k = m) \/ (m = 1 /\ k = n)%nat \/ (n = 1 /\ k = m)%nat.
Proof.
  unfold bdim. destruct (Nat.eqb_spec m n); [intros [= <-]; auto|].
  destruct (Nat.eqb_spec m 1); [intros [= <-]; auto|].
  destruct (Nat.eqb_spec n 1); [intros [= <-]; auto | discriminate].
Qed.

(** A broadcast index stays inside the operand. *)
Lemma bidx_lt (m n k i : nat) :
  bdim m n = Some k -> (i < k)%nat -> (bidx m i < m)%nat.
Proof.
  intros H Hi. unfold bidx. destruct (Nat.eqb_spec m 1); [lia|].
  apply bdim_spec in H as [[-> ->]|[[-> ->]|[-> ->]]]; lia.
Qed.

Lemma bdim_comm (m n : nat) : bdim m n = bdim n m.
Proof.
  unfold bdim. destruct (Nat.eqb_spec m n), (Nat.eqb_spec n m); subst; try congruence.
  destruct (Nat.eqb_spec m 1), (Nat.eqb_spec n 1); subst; congruence.
Qed.

(** [tzip] raises [RuntimeError] exactly when a dimension does not
    broadcast, and otherwise returns a well-formed tensor of the broadcast
    shape whose elements are [f] of the broadcast operands. *)
Lemma tzip_ok (f : xr -> xr -> xr) (a b : tensor) (r c : nat) :
  bdim (t_rows a) (t_rows b) = Some r -> bdim (t_cols a) (t_cols b) = Some c ->
  exists t, tzip f a b = Ok t /\ wf t /\ t_rows t = r /\ t_cols t = c /\
    forall i j, (i < r)%nat -> (j < c)%nat ->
      get t i j = f (get a (bidx (t_rows a) i) (bidx (t_cols a) j))
                    (get b (bidx (t_rows b) i) (bidx (t_cols b) j)).
Proof.
  intros Hr Hc. unfold tzip. rewrite Hr, Hc.
  eexists; split; [reflexivity|]. split; [apply wf_tabulate|].
  do 2 (split; [reflexivity|]). intros i j Hi Hj. apply get_tabulate; assumption.
Qed.

Lemma tzip_err (f : xr -> xr -> xr) (a b : tensor) :
  bdim (t_rows a) (t_rows b) = None \/ bdim (t_cols a) (t_cols b) = None ->
  tzip f a b = Err RuntimeError.
Proof.
  unfold tzip. intros [-> | ->]; [reflexivity|].
  destruct (bdim (t_rows a) (t_rows b)); reflexivity.
Qed.

(** Broadcasting an operand against a broadcast result gives that result. *)
Lemma bdim_absorb (m n k : nat) : bdim m n = Some k -> bdim n k = Some k.
Proof.
  unfold bdim. destruct (Nat.eqb_spec m n), (Nat.eqb_spec m 1), (Nat.eqb_spec n 1),
    (Nat.eqb_spec n k), (Nat.eqb_spec k 1); intros E; try discriminate;
    injection E as E; subst; congruence.
Qed.

Lemma bidx_id (k i : nat) : (i < k)%nat -> bidx k i = i.
Proof. intros H. unfold bidx. destruct (Nat.eqb_spec k 1); lia. Qed.

(** The broadcast size of a dimension with itself. *)
Lemma bdim_same (m : nat) : bdim m m = Some m.
Proof. unfold bdim. rewrite Nat.eqb_refl. reflexivity. Qed.

Lemma wf_unsqueeze1 (v : list xr) : wf (unsqueeze1 v).
Proof.
  unfold wf, unsqueeze1; simpl. rewrite length_map. split; [reflexivity|].
  apply Forall_map, Forall_forall. reflexivity.
Qed.

Lemma get_unsqueeze1 (v : list xr) (i : nat) :
  (i < length v)%nat -> get (unsqueeze1 v) i 0 = nth i v NaN.
Proof.
  intros Hi. unfold get, unsqueeze1; simpl.
  rewrite (nth_map_lt _ _ _ NaN) by exact Hi. reflexivity.
Qed.
