(* ===== verification/Spline.v ===== *)
(** * scipy's [CubicSpline] with the default not-a-knot boundary

    [loudness.py] lines 80-83 fit [scipy.interpolate.CubicSpline] through
    the 29 points (anchor frequency, contour SPL) with scipy's defaults
    ([bc_type='not-a-knot'], [extrapolate=True]) and evaluate it at the
    target frequencies.  scipy is a library the code calls; this file models
    the algorithm of scipy's [CubicSpline.__init__], [CubicHermiteSpline]
    and [PPoly.__call__] (its [find_interval] and [evaluate_poly1]), as the
    spec (section 4.2) describes it:
    - [spline_slopes]: the first derivatives [s] at the knots, from the
      tridiagonal system of scipy ([A] and [b] row by row, [system_rows])
      solved by elimination without row exchanges ([thomas]); the special
      cases [n = 2] (a line) and [n = 3] (a parabola) as scipy has them;
    - [hermite_pieces]: the coefficients [c0..c3] of each interval;
    - [find_interval]: scipy's binary search with the previous interval as
      a hint, and [ppoly_eval_loop], the evaluation loop that carries it.
    The model is generic in a field [F] with a decidable equality and order
    ([SplineField]): it is executable on [Qc] and is instantiated on [R] for
    the loudness model.  scipy solves the system with LAPACK's banded LU with
    partial pivoting; elimination without pivoting gives the same (unique)
    solution whenever no pivot vanishes, and [SplineReal.v] proves that no
    pivot vanishes for strictly increasing knots.

    Theorems (generic in [F]): [thomas] solves its system; the binary
    search returns the reference interval for every hint and within
    [log2 (high - low) + 1] iterations; every Hermite
    piece interpolates its end points and the pieces join with continuous
    first derivative; the rows of the system are exactly the continuity of
    the second derivative at the interior knots and the not-a-knot
    condition at the second and last-but-one knots. *)

From Stdlib Require Import List Arith Lia Field.
From S2P Require Import Prelude.
Import ListNotations.

(** ** Field interface *)

Class SplineField (F : Type) := {
  f0 : F; f1 : F;
  fadd : F -> F -> F; fmul : F -> F -> F; fsub : F -> F -> F;
  fopp : F -> F; fdiv : F -> F -> F; finv : F -> F;
  feqb : F -> F -> bool;
  fltb : F -> F -> bool
}.

Class SplineFieldLaws (F : Type) `{SplineField F} := {
  f_theory : field_theory f0 f1 fadd fmul fsub fopp fdiv finv (@eq F);
  feqb_spec : forall a b, feqb a b = true <-> a = b;
  fltb_irrefl : forall a, fltb a a = false;
  fltb_trans : forall a b c, fltb a b = true -> fltb b c = true -> fltb a c = true;
  fltb_total : forall a b, fltb a b = false -> fltb b a = false -> a = b
}.

Declare Scope fld_scope.
Delimit Scope fld_scope with fld.
Infix "+" := fadd : fld_scope.
Infix "*" := fmul : fld_scope.
Infix "-" := fsub : fld_scope.
Infix "/" := fdiv : fld_scope.
Notation "0" := f0 : fld_scope.
Notation "1" := f1 : fld_scope.
Infix "<?" := fltb : fld_scope.
Infix "=?" := feqb : fld_scope.

Section CubicSpline.
Context {F : Type} `{SplineField F}.
Local Open Scope fld_scope.

Definition two : F := 1 + 1.
Definition three : F := 1 + 1 + 1.

(** [np.diff]. *)
Definition diffs (l : list F) : list F := zip_with (fun a b => b - a) l (tl l).

(** [slope = np.diff(y) / dx]. *)
Definition slopes (xs ys : list F) : list F := zip_with fdiv (diffs ys) (diffs xs).

(** One row of the tridiagonal system: [a s(i-1) + b s(i) + c s(i+1) = d]. *)
Record row : Type := mk_row { r_sub : F; r_diag : F; r_sup : F; r_rhs : F }.

(** Rows [1 .. n-2] (scipy: [A[1, 1:-1] = 2 (dx[:-1] + dx[1:])],
    [A[0, 2:] = dx[:-1]], [A[-1, :-2] = dx[1:]],
    [b[1:-1] = 3 (dx[1:] slope[:-1] + dx[:-1] slope[1:])]). *)
Definition interior_rows (dx m : list F) : list row :=
  zip_with (fun hh mm =>
      mk_row (snd hh) (two * (fst hh + snd hh)) (fst hh)
             (three * (snd hh * fst mm + fst hh * snd mm)))
    (combine dx (tl dx)) (combine m (tl m)).

(** Row 0, not-a-knot at the start. *)
Definition first_row (xs dx m : list F) : row :=
  let d := nth 2 xs 0 - nth 0 xs 0 in
  mk_row 0 (nth 1 dx 0) d
    (((nth 0 dx 0 + two * d) * nth 1 dx 0 * nth 0 m 0
      + nth 0 dx 0 * nth 0 dx 0 * nth 1 m 0) / d).

(** Row [n-1], not-a-knot at the end ([dx[-1]] is [nth (n-2) dx]). *)
Definition last_row (xs dx m : list F) : row :=
  let n := length xs in
  let d := nth (n - 1) xs 0 - nth (n - 3) xs 0 in
  let hl := nth (n - 2) dx 0 in
  let hp := nth (n - 3) dx 0 in
  mk_row d hp 0
    ((hl * hl * nth (n - 3) m 0 + (two * d + hl) * hp * nth (n - 2) m 0) / d).

Definition system_rows (xs : list F) (m : list F) : list row :=
  let dx := diffs xs in
  first_row xs dx m :: interior_rows dx m ++ [last_row xs dx m].

(** Elimination without row exchanges.  [sweep cp dp rows] is given the
    modified super-diagonal [cp] and right-hand side [dp] of the previous
    row; it eliminates the current row, solves the rest and substitutes
    back.  A zero pivot is reported as [None] (LAPACK's singular matrix). *)
Fixpoint sweep (cp dp : F) (rows : list row) : option (list F) :=
  match rows with
  | [] => Some []
  | r :: rest =>
      let piv := r_diag r - r_sub r * cp in
      if piv =? 0 then None else
      let cp' := r_sup r / piv in
      let dp' := (r_rhs r - r_sub r * dp) / piv in
      match sweep cp' dp' rest with
      | None => None
      | Some xs => Some ((dp' - cp' * hd 0 xs) :: xs)
      end
  end.

Definition thomas (rows : list row) : option (list F) := sweep 0 0 rows.

(** The slopes [s] at the knots for [n >= 2]: the line for [n = 2]
    ([bc = (1, slope[0])] at both ends), the parabola for [n = 3] (the
    solution of scipy's 3x3 system, see [parabola_slopes_system]), and the
    tridiagonal system otherwise. *)
Definition spline_slopes (xs ys : list F) : option (list F) :=
  let m := slopes xs ys in
  let dx := diffs xs in
  match xs with
  | [_; _] => Some [nth 0 m 0; nth 0 m 0]
  | [_; _; _] =>
      let h0 := nth 0 dx 0 in let h1 := nth 1 dx 0 in
      let m0 := nth 0 m 0 in let m1 := nth 1 m 0 in
      let s1 := (h0 * m1 + h1 * m0) / (h0 + h1) in
      Some [two * m0 - s1; s1; two * m1 - s1]
  | _ => thomas (system_rows xs m)
  end.

(** ** [CubicHermiteSpline]: the pieces *)

Record piece : Type := mk_piece { c0 : F; c1 : F; c2 : F; c3 : F }.

(** [t = (s[:-1] + s[1:] - 2 slope) / dx], [c[0] = t / dx],
    [c[1] = (slope - s[:-1]) / dx - t], [c[2] = s[:-1]], [c[3] = y[:-1]]. *)
Definition hermite_piece (h m s0 s1 y0 : F) : piece :=
  let t := (s0 + s1 - two * m) / h in
  mk_piece (t / h) ((m - s0) / h - t) s0 y0.

Fixpoint hermite_pieces (dx m s ys : list F) : list piece :=
  match dx, m, s, ys with
  | h :: dx', mi :: m', s0 :: ((s1 :: _) as s'), y0 :: ys' =>
      hermite_piece h mi s0 s1 y0 :: hermite_pieces dx' m' s' ys'
  | _, _, _, _ => []
  end.

Record spline : Type := mk_spline { sp_x : list F; sp_pieces : list piece }.

(** The constructor: scipy's input checks raise [ValueError] (fewer than two
    points, lengths that differ, [x] not strictly increasing); a singular
    system raises [LinAlgError]. *)
Definition cubic_spline (xs ys : list F) : result spline :=
  if Nat.ltb (length xs) 2 then Err ValueError
  else if negb (Nat.eqb (length ys) (length xs)) then Err ValueError
  else if negb (increasing_b fltb xs) then Err ValueError
  else match spline_slopes xs ys with
       | None => Err LinAlgError
       | Some s => Ok (mk_spline xs (hermite_pieces (diffs xs) (slopes xs ys) s ys))
       end.

(** ** [PPoly.__call__] *)

(** [evaluate_poly1] with [dx = 0]: [res += c[k-1-kp] * z; z *= s], the
    coefficients given from the constant one up. *)
Fixpoint eval_poly_acc (cs : list F) (u res z : F) : F :=
  match cs with
  | [] => res
  | c :: cs' => eval_poly_acc cs' u (res + c * z) (z * u)
  end.

Definition eval_piece (p : piece) (u : F) : F :=
  eval_poly_acc [c3 p; c2 p; c1 p; c0 p] u 0 1.

(** The binary search of [find_interval_ascending]:
    [while low < high: mid = (high + low) // 2; if xval < x[mid]: high = mid;
     elif xval >= x[mid + 1]: low = mid + 1; else: low = mid; break]. *)
Fixpoint bsearch (fuel : nat) (xs : list F) (xval : F) (low high : nat) : nat :=
  match fuel with
  | O => low
  | S k =>
      if Nat.ltb low high then
        let mid := Nat.div (high + low) 2 in
        if xval <? nth mid xs 0 then bsearch k xs xval low mid
        else if negb (xval <? nth (S mid) xs 0) then bsearch k xs xval (S mid) high
        else mid
      else low
  end.

(** [find_interval_ascending(x, nx, xval, prev_interval, extrapolate=True)];
    [None] is scipy's [-1] (a NaN point), which cannot arise on [F]. *)
Definition find_interval (xs : list F) (xval : F) (prev : nat) : option nat :=
  let nx := length xs in
  let a := nth 0 xs 0 in
  let b := nth (nx - 1) xs 0 in
  let interval := if Nat.ltb prev nx then prev else 0%nat in
  if negb (negb (xval <? a) && negb (b <? xval)) then
    if xval <? a then Some 0%nat
    else if b <? xval then Some (nx - 2)%nat
    else None
  else if xval =? b then Some (nx - 2)%nat
  else
    let lh := if negb (xval <? nth interval xs 0) then (interval, (nx - 2)%nat)
              else (0%nat, interval) in
    let high := if xval <? nth (S (fst lh)) xs 0 then fst lh else snd lh in
    Some (bsearch nx xs xval (fst lh) high).

(** The loop of [evaluate]: the interval found for a point is the hint for
    the next one; the value is the local polynomial at [xval - x[i]]. *)
Fixpoint ppoly_eval_loop (sp : spline) (xps : list F) (interval : nat)
  : list (option F) :=
  match xps with
  | [] => []
  | xval :: rest =>
      match find_interval (sp_x sp) xval interval with
      | None => None :: ppoly_eval_loop sp rest interval
      | Some i =>
          Some (eval_piece (nth i (sp_pieces sp) (mk_piece 0 0 0 0))
                           (xval - nth i (sp_x sp) 0))
          :: ppoly_eval_loop sp rest i
      end
  end.

Definition ppoly_eval (sp : spline) (xps : list F) : list (option F) :=
  ppoly_eval_loop sp xps 0.

End CubicSpline.

(** ** Algebraic properties of the model *)

Section SplineTheory.
Context {F : Type} `{SplineFieldLaws F}.
Local Open Scope fld_scope.
Add Field spline_field : (f_theory (F:=F)).

(** [sat xprev rows xs]: the solution [xs] satisfies every row, the row
    before the first one being [xprev] and the one after the last [0]. *)
Fixpoint sat (xprev : F) (rows : list row) (xs : list F) : Prop :=
  match rows, xs with
  | [], [] => True
  | r :: rs, x :: xs' =>
      r_sub r * xprev + r_diag r * x + r_sup r * hd 0 xs' = r_rhs r /\ sat x rs xs'
  | _, _ => False
  end.

Lemma feqb_false (a b : F) : feqb a b = false -> a <> b.
Proof. intros E ->. assert (feqb b b = true) by (apply feqb_spec; reflexivity). congruence. Qed.

Lemma sweep_sat (rows : list row) : forall cp dp xs,
  sweep cp dp rows = Some xs -> sat (dp - cp * hd 0 xs) rows xs.
Proof.
  induction rows as [|r rs IH]; simpl; intros cp dp xs E.
  - injection E as <-. exact I.
  - destruct (feqb (r_diag r - r_sub r * cp) 0) eqn:Ep; [discriminate|].
    apply feqb_false in Ep.
    destruct (sweep _ _ rs) as [xs'|] eqn:Es; [|discriminate].
    injection E as <-. simpl. split; [|apply IH; exact Es].
    field. exact Ep.
Qed.

Lemma sat_length (xprev : F) rows xs : sat xprev rows xs -> length xs = length rows.
Proof.
  revert xprev xs; induction rows; destruct xs; simpl; intros; try tauto.
  f_equal. eapply IHrows. apply H1.
Qed.

(** Row [k] of a satisfied system, by index. *)
Lemma sat_nth (xprev : F) rows xs : sat xprev rows xs ->
  forall k, (k < length rows)%nat ->
    r_sub (nth k rows (mk_row 0 0 0 0)) * nth k (xprev :: xs) 0
    + r_diag (nth k rows (mk_row 0 0 0 0)) * nth k xs 0
    + r_sup (nth k rows (mk_row 0 0 0 0)) * nth (S k) xs 0
    = r_rhs (nth k rows (mk_row 0 0 0 0)).
Proof.
  revert xprev xs; induction rows as [|r rs IH]; destruct xs as [|x xs]; simpl;
    intros Hs k Hk; try tauto; try lia.
  destruct Hs as [Hr Hs]. destruct k as [|k].
  - simpl. destruct xs; exact Hr.
  - apply (IH x xs Hs k). lia.
Qed.

(** C14. Elimination solves its system: when [thomas] returns a
    solution, every row [a s(i-1) + b s(i) + c s(i+1) = d] holds. *)
Theorem thomas_solves (rows : list row) (xs : list F) :
  thomas rows = Some xs -> sat 0 rows xs.
Proof.
  unfold thomas. intros E. apply sweep_sat in E.
  replace (0 - 0 * hd 0 xs) with (0 : F) in E by ring. exact E.
Qed.

(** ** Hermite pieces *)

(** The derivatives of a piece [c3 + c2 u + c1 u^2 + c0 u^3]. *)
Definition deriv1 (p : piece) (u : F) : F := c2 p + two * c1 p * u + three * c0 p * u * u.
Definition deriv2 (p : piece) (u : F) : F := two * c1 p + (two * three) * c0 p * u.
Definition deriv3 (p : piece) : F := (two * three) * c0 p.

Lemma eval_piece_eq (p : piece) (u : F) :
  eval_piece p u = c3 p + c2 p * u + c1 p * u * u + c0 p * u * u * u.
Proof. unfold eval_piece; simpl. ring. Qed.

Lemma hermite_at_start (h m s0 s1 y0 : F) : eval_piece (hermite_piece h m s0 s1 y0) 0 = y0.
Proof. rewrite eval_piece_eq; simpl. ring. Qed.

Lemma hermite_at_end (h y0 y1 s0 s1 : F) :
  h <> 0 -> eval_piece (hermite_piece h ((y1 - y0) / h) s0 s1 y0) h = y1.
Proof. intros Hh. rewrite eval_piece_eq; unfold hermite_piece, two; simpl. field. exact Hh. Qed.

Lemma hermite_deriv_start (h m s0 s1 y0 : F) : deriv1 (hermite_piece h m s0 s1 y0) 0 = s0.
Proof. unfold deriv1; simpl. ring. Qed.

Lemma hermite_deriv_end (h m s0 s1 y0 : F) :
  h <> 0 -> deriv1 (hermite_piece h m s0 s1 y0) h = s1.
Proof. intros Hh. unfold deriv1, hermite_piece, two, three; simpl. field. exact Hh. Qed.

(** The jump of the second derivative at a knot is a multiple of the
    residual of the interior row of that knot. *)
Lemma hermite_deriv2_jump (h0 h1 m0 m1 s0 s1 s2 y0 y1 : F) :
  h0 <> 0 -> h1 <> 0 ->
  deriv2 (hermite_piece h0 m0 s0 s1 y0) h0 - deriv2 (hermite_piece h1 m1 s1 s2 y1) 0
  = two * (h1 * s0 + two * (h0 + h1) * s1 + h0 * s2
           - three * (h1 * m0 + h0 * m1)) / (h0 * h1).
Proof. intros. unfold deriv2, hermite_piece, two, three; simpl. field. auto. Qed.

(** The jump of the third derivative at the second knot is a combination
    of the residuals of rows 0 and 1. *)
Lemma hermite_deriv3_jump_start (h0 h1 m0 m1 s0 s1 s2 y0 y1 : F) :
  h0 <> 0 -> h1 <> 0 -> h0 + h1 <> 0 ->
  deriv3 (hermite_piece h0 m0 s0 s1 y0) - deriv3 (hermite_piece h1 m1 s1 s2 y1)
  = (two * three) *
    ((h0 + h1) * (h1 * s0 + (h0 + h1) * s1
                  - ((h0 + two * (h0 + h1)) * h1 * m0 + h0 * h0 * m1) / (h0 + h1))
     - h0 * (h1 * s0 + two * (h0 + h1) * s1 + h0 * s2 - three * (h1 * m0 + h0 * m1)))
    / (h0 * h0 * h1 * h1).
Proof. intros. unfold deriv3, hermite_piece, two, three; simpl. field. auto. Qed.

(** The same at the last-but-one knot, with rows [n-2] and [n-1]. *)
Lemma hermite_deriv3_jump_end (h0 h1 m0 m1 s0 s1 s2 y0 y1 : F) :
  h0 <> 0 -> h1 <> 0 -> h0 + h1 <> 0 ->
  deriv3 (hermite_piece h0 m0 s0 s1 y0) - deriv3 (hermite_piece h1 m1 s1 s2 y1)
  = (two * three) *
    (h1 * (h1 * s0 + two * (h0 + h1) * s1 + h0 * s2 - three * (h1 * m0 + h0 * m1))
     - (h0 + h1) * ((h0 + h1) * s1 + h0 * s2
                    - (h1 * h1 * m0 + (two * (h0 + h1) + h1) * h0 * m1) / (h0 + h1)))
    / (h0 * h0 * h1 * h1).
Proof. intros. unfold deriv3, hermite_piece, two, three; simpl. field. auto. Qed.

(** The parabola of [n = 3] solves scipy's 3x3 system
    [[1 1 0; dx1 2(dx0+dx1) dx0; 0 1 1] s = [2 m0; 3(dx0 m1 + dx1 m0); 2 m1]]. *)
Lemma parabola_slopes_system (h0 h1 m0 m1 : F) :
  h0 + h1 <> 0 ->
  let s1 := (h0 * m1 + h1 * m0) / (h0 + h1) in
  let s0 := two * m0 - s1 in let s2 := two * m1 - s1 in
  s0 + s1 = two * m0 /\
  h1 * s0 + two * (h0 + h1) * s1 + h0 * s2 = three * (h0 * m1 + h1 * m0) /\
  s1 + s2 = two * m1.
Proof. intros Hd s1 s0 s2. unfold s0, s2, s1, two, three. split; [|split]; field; exact Hd. Qed.

End SplineTheory.

(** ** The pieces of a fitted spline, by index *)

Section SplineIndex.
Context {F : Type} `{SplineFieldLaws F}.
Local Open Scope fld_scope.
Add Field spline_field' : (f_theory (F:=F)).

Lemma nth_tl {A : Type} (l : list A) k d : nth k (tl l) d = nth (S k) l d.
Proof. destruct l; [destruct k|]; reflexivity. Qed.

Lemma nth_combine_lt {A B : Type} (l : list A) (l' : list B) k d d' :
  (k < length l)%nat -> (k < length l')%nat ->
  nth k (combine l l') (d, d') = (nth k l d, nth k l' d').
Proof.
  revert l' k; induction l as [|a l IH]; destruct l' as [|b l'], k; simpl; intros;
    try lia; auto.
  apply IH; lia.
Qed.

Lemma length_diffs (l : list F) : length (diffs l) = (length l - 1)%nat.
Proof. unfold diffs. rewrite length_zip_with. destruct l; [reflexivity|]. cbn [tl length]. lia. Qed.

Lemma nth_diffs (l : list F) k :
  (S k < length l)%nat -> nth k (diffs l) 0 = nth (S k) l 0 - nth k l 0.
Proof.
  intros Hk. unfold diffs.
  rewrite (nth_zip_with _ _ _ _ 0 0) by (try rewrite length_tl; lia).
  rewrite nth_tl. reflexivity.
Qed.

Lemma length_slopes (xs ys : list F) :
  length ys = length xs -> length (slopes xs ys) = (length xs - 1)%nat.
Proof. intros E. unfold slopes. rewrite length_zip_with, !length_diffs. lia. Qed.

Lemma nth_slopes (xs ys : list F) k :
  length ys = length xs -> (S k < length xs)%nat ->
  nth k (slopes xs ys) 0 = nth k (diffs ys) 0 / nth k (diffs xs) 0.
Proof.
  intros E Hk. unfold slopes. apply nth_zip_with; rewrite length_diffs; lia.
Qed.

Lemma length_interior_rows (dx m : list F) :
  length m = length dx -> length (interior_rows dx m) = (length dx - 1)%nat.
Proof.
  intros E. unfold interior_rows. rewrite length_zip_with, !length_combine, !length_tl. lia.
Qed.

Lemma nth_interior_rows (dx m : list F) k :
  length m = length dx -> (S k < length dx)%nat ->
  nth k (interior_rows dx m) (mk_row 0 0 0 0) =
  mk_row (nth (S k) dx 0) (two * (nth k dx 0 + nth (S k) dx 0)) (nth k dx 0)
         (three * (nth (S k) dx 0 * nth k m 0 + nth k dx 0 * nth (S k) m 0)).
Proof.
  intros E Hk. unfold interior_rows.
  rewrite (nth_zip_with _ _ _ _ (0, 0) (0, 0))
    by (rewrite length_combine, length_tl; lia).
  rewrite !nth_combine_lt by (try rewrite length_tl; lia).
  simpl. rewrite !nth_tl. reflexivity.
Qed.

Lemma length_system_rows (xs m : list F) :
  (3 <= length xs)%nat -> length m = (length xs - 1)%nat ->
  length (system_rows xs m) = length xs.
Proof.
  intros Hn Hm. unfold system_rows. simpl. rewrite length_app, length_interior_rows;
    rewrite ?length_diffs; simpl; lia.
Qed.

Lemma nth_system_rows_interior (xs m : list F) k :
  length m = (length xs - 1)%nat -> (S (S k) < length xs)%nat ->
  nth (S k) (system_rows xs m) (mk_row 0 0 0 0) =
  nth k (interior_rows (diffs xs) m) (mk_row 0 0 0 0).
Proof.
  intros Hm Hk. unfold system_rows. simpl.
  apply app_nth1. rewrite length_interior_rows; rewrite length_diffs; lia.
Qed.

Lemma nth_system_rows_last (xs m : list F) :
  (3 <= length xs)%nat -> length m = (length xs - 1)%nat ->
  nth (length xs - 1) (system_rows xs m) (mk_row 0 0 0 0) =
  last_row xs (diffs xs) m.
Proof.
  intros Hn Hm. unfold system_rows.
  replace (length xs - 1)%nat with (S (length (interior_rows (diffs xs) m)))
    by (rewrite length_interior_rows; rewrite ?length_diffs; lia).
  simpl. rewrite app_nth2 by lia. rewrite Nat.sub_diag. reflexivity.
Qed.

Lemma nth_hermite_pieces (dx m s ys : list F) k :
  (k < length dx)%nat -> (k < length m)%nat -> (S k < length s)%nat ->
  (k < length ys)%nat ->
  nth k (hermite_pieces dx m s ys) (mk_piece 0 0 0 0) =
  hermite_piece (nth k dx 0) (nth k m 0) (nth k s 0) (nth (S k) s 0) (nth k ys 0).
Proof.
  revert m s ys k; induction dx as [|h dx IH];
    intros [|mi m] [|s0 [|s1 s]] [|y0 ys] k; simpl; intros; try lia.
  destruct k as [|k]; [reflexivity|].
  apply (IH m (s1 :: s) ys k); simpl; lia.
Qed.

Lemma length_hermite_pieces (dx m s ys : list F) :
  length m = length dx -> length s = S (length dx) -> length ys = S (length dx) ->
  length (hermite_pieces dx m s ys) = length dx.
Proof.
  revert m s ys; induction dx as [|h dx IH];
    intros [|mi m] [|s0 [|s1 s]] [|y0 ys]; simpl; intros; try lia.
  f_equal. apply (IH m (s1 :: s) ys); simpl; lia.
Qed.

(** Strictly increasing knots have nonzero gaps. *)
Lemma fltb_sub_neq (a b : F) : fltb a b = true -> b - a <> 0.
Proof.
  intros Hab E. assert (b = a) as -> by (transitivity ((b - a) + a); [ring | rewrite E; ring]).
  rewrite fltb_irrefl in Hab. discriminate.
Qed.

Lemma increasing_gap (xs : list F) k :
  increasing_b fltb xs = true -> (S k < length xs)%nat -> nth k (diffs xs) 0 <> 0.
Proof.
  intros Hinc Hk. rewrite nth_diffs by assumption.
  apply fltb_sub_neq, increasing_b_nth; assumption.
Qed.

Lemma increasing_gap2 (xs : list F) k :
  increasing_b fltb xs = true -> (S (S k) < length xs)%nat ->
  nth k (diffs xs) 0 + nth (S k) (diffs xs) 0 <> 0.
Proof.
  intros Hinc Hk. rewrite !nth_diffs by lia.
  replace (nth (S k) xs 0 - nth k xs 0 + (nth (S (S k)) xs 0 - nth (S k) xs 0))
    with (nth (S (S k)) xs 0 - nth k xs 0) by ring.
  apply fltb_sub_neq. eapply fltb_trans; apply increasing_b_nth; (assumption || lia).
Qed.

Lemma spline_slopes_long (xs ys : list F) :
  (4 <= length xs)%nat -> spline_slopes xs ys = thomas (system_rows xs (slopes xs ys)).
Proof. destruct xs as [|a [|b [|c [|d xs]]]]; simpl; intros; try lia; reflexivity. Qed.

(** A fit on [n >= 4] strictly increasing knots succeeds when elimination
    does. *)
Lemma cubic_spline_of_thomas (xs ys : list F) :
  (4 <= length xs)%nat -> increasing_b fltb xs = true -> length ys = length xs ->
  thomas (system_rows xs (slopes xs ys)) <> None ->
  exists sp, cubic_spline xs ys = Ok sp.
Proof.
  intros Hn Hi Hy Ht. unfold cubic_spline.
  destruct (Nat.ltb_spec (length xs) 2); [lia|].
  rewrite Hy, Nat.eqb_refl, Hi. cbn [negb].
  rewrite spline_slopes_long by assumption.
  destruct (thomas _); [eexists; reflexivity | contradiction].
Qed.

(** What a successful fit on [n >= 4] points gives: the knots, the slopes
    solving the system, and the pieces built from them. *)
Lemma cubic_spline_long_inv (xs ys : list F) (sp : spline) :
  (4 <= length xs)%nat -> cubic_spline xs ys = Ok sp ->
  length ys = length xs /\ increasing_b fltb xs = true /\
  exists s, thomas (system_rows xs (slopes xs ys)) = Some s /\
    sp = mk_spline xs (hermite_pieces (diffs xs) (slopes xs ys) s ys).
Proof.
  intros Hn E. unfold cubic_spline in E.
  destruct (Nat.ltb_spec (length xs) 2); [lia|].
  destruct (Nat.eqb_spec (length ys) (length xs)); [|discriminate].
  destruct (increasing_b fltb xs) eqn:Hinc; [|discriminate].
  rewrite spline_slopes_long in E by assumption.
  destruct (thomas _) as [s|] eqn:Es; [|discriminate].
  injection E as <-. repeat split; auto. eexists; split; reflexivity.
Qed.

End SplineIndex.

(** ** Smoothness of the fitted spline *)

Section SplineSmooth.
Context {F : Type} `{SplineFieldLaws F}.
Local Open Scope fld_scope.
Add Field spline_field'' : (f_theory (F:=F)).

Lemma sub_eq0 (a b : F) : a - b = 0 -> a = b.
Proof. intros E. transitivity ((a - b) + b); [ring | rewrite E; ring]. Qed.

Lemma div_zero_num (a b : F) : b <> 0 -> a = 0 -> a / b = 0.
Proof. intros Hb ->. field. exact Hb. Qed.

Lemma mul_neq0 (a b : F) : a <> 0 -> b <> 0 -> a * b <> 0.
Proof.
  intros Ha Hb E. apply Hb. transitivity ((a * b) / a); [field; exact Ha|].
  rewrite E. field. exact Ha.
Qed.

Local Abbreviation pc := (mk_piece 0 0 0 0).
Local Abbreviation rw0 := (mk_row 0 0 0 0).

(** The facts of a fit used below: the slopes satisfy the rows. *)
Lemma fit_rows (xs ys : list F) (sp : spline) :
  (4 <= length xs)%nat -> cubic_spline xs ys = Ok sp ->
  exists s, length s = length xs /\
    sp_pieces sp = hermite_pieces (diffs xs) (slopes xs ys) s ys /\
    forall k, (k < length xs)%nat ->
      r_sub (nth k (system_rows xs (slopes xs ys)) rw0) * nth k (0 :: s) 0
      + r_diag (nth k (system_rows xs (slopes xs ys)) rw0) * nth k s 0
      + r_sup (nth k (system_rows xs (slopes xs ys)) rw0) * nth (S k) s 0
      = r_rhs (nth k (system_rows xs (slopes xs ys)) rw0).
Proof.
  intros Hn E. destruct (cubic_spline_long_inv xs ys sp Hn E) as (Hy & Hinc & s & Es & ->).
  unfold thomas in Es. apply sweep_sat in Es.
  replace (0 - 0 * hd 0 s) with (0 : F) in Es by ring.
  assert (Hl : length (system_rows xs (slopes xs ys)) = length xs)
    by (apply length_system_rows; [lia | apply length_slopes; exact Hy]).
  exists s. split; [rewrite (sat_length _ _ _ Es); exact Hl|]. split; [reflexivity|].
  intros k Hk. apply (sat_nth _ _ _ Es). lia.
Qed.

(** C10. The fitted curve has continuous first and second derivatives at
    every interior knot: at the knot [x(k+1)], the piece on [[x(k), x(k+1)]]
    and the piece on [[x(k+1), x(k+2)]] have the same first and second
    derivatives. *)
Theorem cubic_spline_C2 (xs ys : list F) (sp : spline) (k : nat) :
  (4 <= length xs)%nat -> cubic_spline xs ys = Ok sp -> (S (S k) < length xs)%nat ->
  deriv1 (nth k (sp_pieces sp) pc) (nth k (diffs xs) 0)
    = deriv1 (nth (S k) (sp_pieces sp) pc) 0 /\
  deriv2 (nth k (sp_pieces sp) pc) (nth k (diffs xs) 0)
    = deriv2 (nth (S k) (sp_pieces sp) pc) 0.
Proof.
  intros Hn E Hk.
  destruct (cubic_spline_long_inv xs ys sp Hn E) as (Hy & Hinc & _).
  destruct (fit_rows xs ys sp Hn E) as (s & Hs & -> & Hrows).
  assert (Hm : length (slopes xs ys) = (length xs - 1)%nat) by (apply length_slopes; exact Hy).
  rewrite !nth_hermite_pieces by (rewrite ?length_diffs; lia).
  pose proof (increasing_gap xs k Hinc ltac:(lia)) as Hh0.
  pose proof (increasing_gap xs (S k) Hinc ltac:(lia)) as Hh1.
  split; [rewrite hermite_deriv_end, hermite_deriv_start by exact Hh0; reflexivity|].
  apply sub_eq0. rewrite hermite_deriv2_jump by assumption.
  apply div_zero_num; [apply mul_neq0; assumption|].
  specialize (Hrows (S k) ltac:(lia)).
  rewrite nth_system_rows_interior, nth_interior_rows in Hrows
    by (rewrite ?length_diffs; lia).
  cbn [r_sub r_diag r_sup r_rhs nth] in Hrows. rewrite <- Hrows. ring.
Qed.

(** C11. The not-a-knot condition holds at both ends: the first two
    pieces have the same third derivative (they are one cubic), and so do
    the last two. *)
Theorem cubic_spline_not_a_knot (xs ys : list F) (sp : spline) :
  (4 <= length xs)%nat -> cubic_spline xs ys = Ok sp ->
  deriv3 (nth 0 (sp_pieces sp) pc) = deriv3 (nth 1 (sp_pieces sp) pc) /\
  deriv3 (nth (length xs - 3) (sp_pieces sp) pc)
    = deriv3 (nth (length xs - 2) (sp_pieces sp) pc).
Proof.
  intros Hn E.
  destruct (cubic_spline_long_inv xs ys sp Hn E) as (Hy & Hinc & _).
  destruct (fit_rows xs ys sp Hn E) as (s & Hs & -> & Hrows).
  assert (Hm : length (slopes xs ys) = (length xs - 1)%nat) by (apply length_slopes; exact Hy).
  split.
  - rewrite !nth_hermite_pieces by (rewrite ?length_diffs; lia).
    pose proof (increasing_gap xs 0 Hinc ltac:(lia)) as Hh0.
    pose proof (increasing_gap xs 1 Hinc ltac:(lia)) as Hh1.
    pose proof (increasing_gap2 xs 0 Hinc ltac:(lia)) as Hd.
    apply sub_eq0. rewrite hermite_deriv3_jump_start by assumption.
    apply div_zero_num; [repeat apply mul_neq0; assumption|].
    pose proof (Hrows 0%nat ltac:(lia)) as R0. pose proof (Hrows 1%nat ltac:(lia)) as R1.
    rewrite nth_system_rows_interior, nth_interior_rows in R1 by (rewrite ?length_diffs; lia).
    unfold system_rows, first_row in R0. cbn [nth r_sub r_diag r_sup r_rhs] in R0, R1.
    assert (Ex : nth 2 xs 0 - nth 0 xs 0 = nth 0 (diffs xs) 0 + nth 1 (diffs xs) 0)
      by (rewrite !nth_diffs by lia; ring).
    rewrite Ex in R0. rewrite <- R0, <- R1. field; exact Hd.
  - set (k := (length xs - 3)%nat).
    replace (length xs - 2)%nat with (S k) by lia.
    rewrite !nth_hermite_pieces by (rewrite ?length_diffs; lia).
    pose proof (increasing_gap xs k Hinc ltac:(lia)) as Hh0.
    pose proof (increasing_gap xs (S k) Hinc ltac:(lia)) as Hh1.
    pose proof (increasing_gap2 xs k Hinc ltac:(lia)) as Hd.
    apply sub_eq0. rewrite hermite_deriv3_jump_end by assumption.
    apply div_zero_num; [repeat apply mul_neq0; assumption|].
    pose proof (Hrows (S k) ltac:(lia)) as R1.
    pose proof (Hrows (length xs - 1)%nat ltac:(lia)) as R2.
    rewrite nth_system_rows_interior, nth_interior_rows in R1 by (rewrite ?length_diffs; lia).
    rewrite nth_system_rows_last in R2 by lia.
    unfold last_row in R2. cbn [nth r_sub r_diag r_sup r_rhs] in R1, R2.
    replace (length xs - 1)%nat with (S (S k)) in R2 by lia.
    replace (length xs - 2)%nat with (S k) in R2 by lia.
    replace (length xs - 3)%nat with k in R2 by lia.
    cbn [nth] in R2.
    assert (Ex : nth (S (S k)) xs 0 - nth k xs 0 = nth k (diffs xs) 0 + nth (S k) (diffs xs) 0)
      by (rewrite !nth_diffs by lia; ring).
    rewrite Ex in R2. rewrite <- R1, <- R2. field; exact Hd.
Qed.

End SplineSmooth.

(** ** The interval search *)

Section SplineSearch.
Context {F : Type} `{SplineFieldLaws F}.
Local Open Scope fld_scope.

(** The reference: from interval [0], advance while the next interior knot
    is at most [xval]. *)
Fixpoint scan_from (xs : list F) (xval : F) (i fuel : nat) : nat :=
  match fuel with
  | O => i
  | S f =>
      if (Nat.ltb i (length xs - 2) && negb (xval <? nth (S i) xs 0))%bool
      then scan_from xs xval (S i) f else i
  end.

Definition interval_ref (xs : list F) (xval : F) : nat := scan_from xs xval 0 (length xs).

(** [i] is the interval of [xval]: [x(i) <= xval < x(i+1)], except that the
    first interval extends to the left and the last one to the right. *)
Definition is_interval (xs : list F) (xval : F) (i : nat) : Prop :=
  (i <= length xs - 2)%nat /\
  (i = 0%nat \/ fltb xval (nth i xs 0) = false) /\
  (i = (length xs - 2)%nat \/ fltb xval (nth (S i) xs 0) = true).

(** Order facts from the laws of [fltb]. *)
Lemma fltb_asym (a b : F) : fltb a b = true -> fltb b a = false.
Proof.
  intros Hab. destruct (fltb b a) eqn:Hba; [|reflexivity].
  pose proof (fltb_trans _ _ _ Hab Hba). rewrite fltb_irrefl in *. discriminate.
Qed.

Lemma le_lt_trans (a b c : F) : fltb b a = false -> fltb b c = true -> fltb a c = true.
Proof.
  intros Hab Hbc. destruct (fltb a c) eqn:Hac; [reflexivity|].
  destruct (fltb c a) eqn:Hca.
  - rewrite (fltb_trans _ _ _ Hbc Hca) in Hab. discriminate.
  - pose proof (fltb_total _ _ Hac Hca) as ->. congruence.
Qed.

Lemma lt_le_trans (a b c : F) : fltb a b = true -> fltb c b = false -> fltb a c = true.
Proof.
  intros Hab Hbc. destruct (fltb a c) eqn:Hac; [reflexivity|].
  destruct (fltb c a) eqn:Hca.
  - rewrite (fltb_trans _ _ _ Hca Hab) in Hbc. discriminate.
  - pose proof (fltb_total _ _ Hac Hca) as ->. congruence.
Qed.

Lemma increasing_lt (xs : list F) (i j : nat) :
  increasing_b fltb xs = true -> (i < j)%nat -> (j < length xs)%nat ->
  fltb (nth i xs 0) (nth j xs 0) = true.
Proof.
  intros Hinc Hij Hj. induction j as [|j IH]; [lia|].
  destruct (Nat.eq_dec i j) as [->|Hne].
  - apply increasing_b_nth; assumption.
  - eapply fltb_trans; [apply IH; lia | apply increasing_b_nth; (assumption || lia)].
Qed.

Lemma increasing_le (xs : list F) (i j : nat) :
  increasing_b fltb xs = true -> (i <= j)%nat -> (j < length xs)%nat ->
  fltb (nth j xs 0) (nth i xs 0) = false.
Proof.
  intros Hinc Hij Hj. destruct (Nat.eq_dec i j) as [->|]; [apply fltb_irrefl|].
  apply fltb_asym, increasing_lt; (assumption || lia).
Qed.

Section Knots.
Variable xs : list F.
Hypothesis Hlen : (2 <= length xs)%nat.
Hypothesis Hinc : increasing_b fltb xs = true.

Lemma is_interval_unique (xval : F) (i j : nat) :
  is_interval xs xval i -> is_interval xs xval j -> i = j.
Proof.
  assert (Hne : forall a b, is_interval xs xval a -> is_interval xs xval b -> (a < b)%nat -> False).
  { intros a b (Ha & _ & Ha2) (Hb & Hb1 & _) Hab.
    destruct Hb1 as [->|Hb1]; [lia|]. destruct Ha2 as [Ha2|Ha2]; [lia|].
    pose proof (increasing_le xs (S a) b Hinc ltac:(lia) ltac:(lia)) as Hle.
    rewrite (lt_le_trans _ _ _ Ha2 Hle) in Hb1. discriminate. }
  intros Hi Hj. destruct (Nat.lt_total i j) as [|[|]]; [exfalso; eauto | assumption | exfalso; eauto].
Qed.

Lemma scan_from_interval (xval : F) : forall fuel i,
  (i <= length xs - 2)%nat -> (length xs - 2 - i < fuel)%nat ->
  (i = 0%nat \/ fltb xval (nth i xs 0) = false) ->
  is_interval xs xval (scan_from xs xval i fuel).
Proof.
  induction fuel as [|f IH]; intros i Hi Hf Hlo; [lia|]. simpl.
  destruct (Nat.ltb_spec i (length xs - 2)); simpl.
  - destruct (fltb xval (nth (S i) xs 0)) eqn:Hx; simpl.
    + split; [lia|]. split; [assumption | right; assumption].
    + apply IH; [lia | lia | right; assumption].
  - split; [lia|]. split; [assumption | left; lia].
Qed.

Lemma interval_ref_spec (xval : F) : is_interval xs xval (interval_ref xs xval).
Proof. apply scan_from_interval; [lia | lia | left; reflexivity]. Qed.

(** The loop invariant of the binary search. *)
Definition search_inv (xval : F) (low high : nat) : Prop :=
  (low <= high <= length xs - 1)%nat /\ fltb xval (nth low xs 0) = false /\
  fltb xval (nth (Nat.min (S high) (length xs - 1)) xs 0) = true.



(** A search range reduced to one knot is the interval. *)
Lemma search_inv_done (xval : F) (low : nat) :
  search_inv xval low low -> is_interval xs xval low.
Proof.
  intros (Hlh & Hlo & Hhi).
  destruct (Nat.eq_dec low (length xs - 1)) as [Heq|Hne].
  - exfalso. rewrite Heq, Nat.min_r in Hhi by lia. rewrite Heq in Hlo. congruence.
  - split; [lia|]. split; [right; assumption|].
    right. replace (Nat.min (S low) (length xs - 1)) with (S low) in Hhi by lia. exact Hhi.
Qed.

(** Each iteration at least halves the range [high - low], so
    [log2 (high - low) + 1] iterations reach the interval. *)
Lemma bsearch_interval_log (xval : F) :
  fltb xval (nth (length xs - 1) xs 0) = true ->
  forall fuel low high, (high = low \/ Nat.log2 (high - low) < fuel)%nat ->
  search_inv xval low high -> is_interval xs xval (bsearch fuel xs xval low high).
Proof.
  intros Hb. induction fuel as [|f IH]; intros low high Hf Hinv.
  - destruct Hf as [->|Hf]; [apply search_inv_done, Hinv | lia].
  - destruct Hinv as (Hlh & Hlo & Hhi). cbn [bsearch]. destruct (Nat.ltb_spec low high).
    + set (mid := Nat.div (high + low) 2).
      assert (Hm2 : (2 * mid <= high + low <= 2 * mid + 1)%nat)
        by (unfold mid; pose proof (Nat.div_mod_eq (high + low) 2);
            pose proof (Nat.mod_upper_bound (high + low) 2 ltac:(lia)); lia).
      destruct Hf as [|Hf]; [lia|].
      destruct (fltb xval (nth mid xs 0)) eqn:Hxm.
      * apply IH.
        -- destruct (Nat.eq_dec mid low) as [|Hne]; [left; assumption|right].
           pose proof (log2_halve (mid - low) (high - low) ltac:(lia) ltac:(lia)). lia.
        -- split; [lia|]. split; [assumption|].
           replace (Nat.min (S mid) (length xs - 1)) with (S mid) by lia.
           eapply fltb_trans; [exact Hxm | apply increasing_b_nth; (assumption || lia)].
      * destruct (fltb xval (nth (S mid) xs 0)) eqn:Hxm1; simpl.
        -- split; [lia|]. split; [right; assumption | right; assumption].
        -- apply IH.
           ++ destruct (Nat.eq_dec high (S mid)) as [|Hne]; [left; assumption|right].
              pose proof (log2_halve (high - S mid) (high - low) ltac:(lia) ltac:(lia)). lia.
           ++ split; [lia|]. split; assumption.
    + assert (low = high) as <- by lia. apply search_inv_done. split; [lia|]. auto.
Qed.

Lemma bsearch_interval (xval : F) :
  fltb xval (nth (length xs - 1) xs 0) = true ->
  forall fuel low high, (high - low < fuel)%nat -> search_inv xval low high ->
  is_interval xs xval (bsearch fuel xs xval low high).
Proof.
  intros Hb fuel low high Hf Hinv. apply (bsearch_interval_log xval Hb); [|exact Hinv].
  destruct (Nat.eq_dec high low) as [|Hne]; [left; assumption|right].
  pose proof (Nat.log2_lt_lin (high - low)). destruct Hinv as [Hlh _]. lia.
Qed.

(** C29. Termination of scipy's binary search: the loop
    [while low < high] halves the range at each iteration, so any fuel above
    [log2 (high - low)] reaches the reference interval, whatever the fuel.
    The fuel [length xs] of [find_interval] is therefore never exhausted. *)
Theorem bsearch_log_fuel (xval : F) (fuel low high : nat) :
  fltb xval (nth (length xs - 1) xs 0) = true -> search_inv xval low high ->
  (Nat.log2 (high - low) < fuel)%nat ->
  bsearch fuel xs xval low high = interval_ref xs xval.
Proof.
  intros Hb Hinv Hf. apply (is_interval_unique xval); [|apply interval_ref_spec].
  apply bsearch_interval_log; [exact Hb | right; exact Hf | exact Hinv].
Qed.

(** scipy's binary search with a hint finds the reference interval. *)
Lemma find_interval_some_ref (xval : F) (prev : nat) :
  find_interval xs xval prev = Some (interval_ref xs xval).
Proof.
  assert (Hn1 : fltb (nth 0 xs 0) (nth (length xs - 1) xs 0) = true)
    by (apply increasing_lt; (assumption || lia)).
  unfold find_interval.
  destruct (fltb xval (nth 0 xs 0)) eqn:Ha; simpl.
  - f_equal. apply (is_interval_unique xval); [|apply interval_ref_spec].
    split; [lia|]. split; [left; reflexivity|].
    destruct (Nat.eq_dec 0 (length xs - 2)); [left; assumption|].
    right. eapply fltb_trans; [exact Ha | apply increasing_b_nth; (assumption || lia)].
  - destruct (fltb (nth (length xs - 1) xs 0) xval) eqn:Hb; simpl.
    + f_equal. apply (is_interval_unique xval); [|apply interval_ref_spec].
      split; [lia|]. split; [|left; reflexivity].
      destruct (Nat.eq_dec (length xs - 2) 0); [left; assumption|]. right.
      apply fltb_asym. eapply fltb_trans; [|exact Hb].
      replace (length xs - 1)%nat with (S (length xs - 2)) by lia.
      apply increasing_b_nth; (assumption || lia).
    + destruct (feqb xval (nth (length xs - 1) xs 0)) eqn:He.
      * apply feqb_spec in He. f_equal.
        apply (is_interval_unique xval); [|apply interval_ref_spec].
        split; [lia|]. split; [|left; reflexivity].
        destruct (Nat.eq_dec (length xs - 2) 0); [left; assumption|]. right.
        rewrite He. apply fltb_asym.
        replace (length xs - 1)%nat with (S (length xs - 2)) by lia.
        apply increasing_b_nth; (assumption || lia).
      * assert (Hlt : fltb xval (nth (length xs - 1) xs 0) = true).
        { destruct (fltb xval (nth (length xs - 1) xs 0)) eqn:Hl; [reflexivity|].
          pose proof (fltb_total _ _ Hl Hb) as Hq. apply feqb_spec in Hq. congruence. }
        f_equal. apply (is_interval_unique xval); [|apply interval_ref_spec].
        set (interval := if Nat.ltb prev (length xs) then prev else 0%nat).
        assert (Hint : (interval < length xs)%nat)
          by (unfold interval; destruct (Nat.ltb_spec prev (length xs)); lia).
        destruct (fltb xval (nth interval xs 0)) eqn:Hxi; cbn [negb fst snd].
        -- destruct (fltb xval (nth 1 xs 0)) eqn:Hx1;
             apply (bsearch_interval xval Hlt); try lia.
           ++ split; [lia|]. split; [exact Ha|]. rewrite Nat.min_l by lia. exact Hx1.
           ++ split; [lia|]. split; [exact Ha|].
              eapply lt_le_trans; [exact Hxi|]. apply increasing_le; (assumption || lia).
        -- assert (Hi2 : (interval <= length xs - 2)%nat).
           { destruct (Nat.eq_dec interval (length xs - 1)) as [E|]; [|lia].
             rewrite E in Hxi. congruence. }
           destruct (fltb xval (nth (S interval) xs 0)) eqn:Hx1;
             apply (bsearch_interval xval Hlt); try lia.
           ++ split; [lia|]. split; [exact Hxi|]. rewrite Nat.min_l by lia. exact Hx1.
           ++ split; [lia|]. split; [exact Hxi|].
              replace (Nat.min (S (length xs - 2)) (length xs - 1)) with (length xs - 1)%nat by lia.
              exact Hlt.
Qed.

(** C13. scipy's binary search agrees with the reference scan: for
    strictly increasing knots, every point and every hint carried from the
    previous point, [find_interval] returns the interval of the linear scan
    [interval_ref], which is the unique interval containing the point
    ([x(i) <= xval < x(i+1)], the end intervals extended outwards). *)
Theorem find_interval_ref (xval : F) (prev : nat) :
  find_interval xs xval prev = Some (interval_ref xs xval) /\
  is_interval xs xval (interval_ref xs xval) /\
  (forall i, is_interval xs xval i -> i = interval_ref xs xval).
Proof.
  split; [apply find_interval_some_ref|]. split; [apply interval_ref_spec|].
  intros i Hi. apply (is_interval_unique xval); [exact Hi | apply interval_ref_spec].
Qed.

End Knots.
End SplineSearch.

(** ** Evaluation *)

Lemma cubic_spline_knots {F : Type} `{SplineField F} (xs ys : list F) (sp : spline) :
  cubic_spline xs ys = Ok sp ->
  sp_x sp = xs /\ (2 <= length xs)%nat /\ increasing_b fltb xs = true.
Proof.
  unfold cubic_spline. destruct (Nat.ltb_spec (length xs) 2); [discriminate|].
  destruct (Nat.eqb (length ys) (length xs)); [|discriminate].
  destruct (increasing_b fltb xs); [|discriminate]. cbn [negb].
  destruct (spline_slopes xs ys); [|discriminate].
  intros E. injection E as <-. repeat split; (reflexivity || lia).
Qed.

Section SplineEval.
Context {F : Type} `{SplineFieldLaws F}.
Local Open Scope fld_scope.
Add Field spline_field''' : (f_theory (F:=F)).

Local Abbreviation pc := (mk_piece 0 0 0 0).

(** The value of the spline at a point, with the reference interval. *)
Definition spline_value (sp : spline) (xval : F) : F :=
  let i := interval_ref (sp_x sp) xval in
  eval_piece (nth i (sp_pieces sp) pc) (xval - nth i (sp_x sp) 0).

(** The hint carried by scipy's loop does not change any value. *)
Lemma ppoly_eval_loop_ref (sp : spline) :
  (2 <= length (sp_x sp))%nat -> increasing_b fltb (sp_x sp) = true ->
  forall xps prev, ppoly_eval_loop sp xps prev = map (fun x => Some (spline_value sp x)) xps.
Proof.
  intros Hl Hi. induction xps as [|x xps IH]; intros prev; [reflexivity|].
  simpl. rewrite (find_interval_some_ref (sp_x sp) Hl Hi x prev). rewrite IH. reflexivity.
Qed.

Lemma interval_ref_knot (xs : list F) (k : nat) :
  (2 <= length xs)%nat -> increasing_b fltb xs = true -> (k < length xs)%nat ->
  interval_ref xs (nth k xs 0) = Nat.min k (length xs - 2).
Proof.
  intros Hl Hi Hk. symmetry. apply (is_interval_unique xs Hl Hi (nth k xs 0));
    [|apply interval_ref_spec; assumption].
  destruct (Nat.le_gt_cases k (length xs - 2)).
  - rewrite Nat.min_l by assumption. split; [lia|]. split; [right; apply fltb_irrefl|].
    destruct (Nat.eq_dec k (length xs - 2)); [left; assumption|].
    right. apply increasing_b_nth; (assumption || lia).
  - rewrite Nat.min_r by lia. split; [lia|]. split; [|left; reflexivity].
    destruct (Nat.eq_dec (length xs - 2) 0); [left; assumption|].
    right. apply increasing_le; (assumption || lia).
Qed.

(** The fitted spline passes through its data: evaluated at the knots, it
    returns the data values. *)
Lemma cubic_spline_interpolates (xs ys : list F) (sp : spline) :
  (4 <= length xs)%nat -> cubic_spline xs ys = Ok sp ->
  ppoly_eval sp xs = map Some ys.
Proof.
  intros Hn E.
  destruct (cubic_spline_long_inv xs ys sp Hn E) as (Hy & Hinc & s & _ & Hsp).
  destruct (fit_rows xs ys sp Hn E) as (s' & Hs & Hpieces & _).
  assert (Hx : sp_x sp = xs) by (rewrite Hsp; reflexivity).
  unfold ppoly_eval. rewrite ppoly_eval_loop_ref by (rewrite Hx; (assumption || lia)).
  rewrite <- map_map with (g := Some). f_equal.
  apply nth_ext with (d := 0) (d' := 0); [rewrite length_map; congruence|].
  intros k Hk. rewrite length_map in Hk.
  rewrite (nth_map_lt _ _ _ 0) by exact Hk. unfold spline_value.
  rewrite Hx, interval_ref_knot by (assumption || lia). rewrite Hpieces.
  assert (Hm : length (slopes xs ys) = (length xs - 1)%nat) by (apply length_slopes; exact Hy).
  rewrite nth_hermite_pieces by (rewrite ?length_diffs; lia).
  destruct (Nat.le_gt_cases k (length xs - 2)).
  - rewrite Nat.min_l by assumption.
    replace (nth k xs 0 - nth k xs 0) with (0 : F) by ring. apply hermite_at_start.
  - rewrite Nat.min_r by lia.
    replace k with (S (length xs - 2)) by lia.
    rewrite nth_slopes by (assumption || lia).
    rewrite <- (nth_diffs xs (length xs - 2)) by lia.
    rewrite (nth_diffs ys (length xs - 2)) by lia.
    apply hermite_at_end. apply increasing_gap; (assumption || lia).
Qed.

(** The spline value at a knot is the data value there. *)
Lemma spline_value_at_knot (xs ys : list F) (sp : spline) (k : nat) :
  (4 <= length xs)%nat -> cubic_spline xs ys = Ok sp -> (k < length xs)%nat ->
  spline_value sp (nth k xs 0) = nth k ys 0.
Proof.
  intros Hn E Hk. pose proof (cubic_spline_interpolates xs ys sp Hn E) as Hi.
  destruct (cubic_spline_knots _ _ _ E) as (Hx & Hl & Hinc).
  unfold ppoly_eval in Hi. rewrite ppoly_eval_loop_ref in Hi by (rewrite Hx; assumption).
  apply (f_equal (fun l => nth k l None)) in Hi.
  rewrite (nth_map_lt _ _ _ 0) in Hi by exact Hk.
  rewrite (nth_map_lt _ _ _ 0) in Hi
    by (destruct (cubic_spline_long_inv xs ys sp Hn E) as [Hy _]; lia).
  congruence.
Qed.

End SplineEval.

Section SweepStep.
Context {F : Type} `{SplineFieldLaws F}.
Local Open Scope fld_scope.

(** One elimination step succeeds when its pivot is nonzero and the rest
    succeeds. *)
Lemma sweep_cons_some (cp dp : F) (r : row) (rest : list row) :
  r_diag r - r_sub r * cp <> 0 ->
  sweep (r_sup r / (r_diag r - r_sub r * cp))
        ((r_rhs r - r_sub r * dp) / (r_diag r - r_sub r * cp)) rest <> None ->
  sweep cp dp (r :: rest) <> None.
Proof.
  intros Hp Hr. cbn [sweep].
  destruct (feqb _ 0) eqn:E; [apply feqb_spec in E; contradiction|].
  destruct (sweep _ _ rest); [discriminate | contradiction].
Qed.

End SweepStep.

(** ** The model on exact rationals, and witnesses *)

From Stdlib Require Import QArith Qcanon.

#[export] Instance Qc_spline_ops : SplineField Qc := {
  f0 := Q2Qc 0; f1 := Q2Qc 1; fadd := Qcplus; fmul := Qcmult; fsub := Qcminus;
  fopp := Qcopp; fdiv := Qcdiv; finv := Qcinv;
  feqb := fun a b => if Qc_eq_dec a b then true else false;
  fltb := fun a b => if Qclt_le_dec a b then true else false
}.

#[export] Instance Qc_spline_laws : SplineFieldLaws Qc.
Proof.
  split; cbn.
  - exact Qcft.
  - intros a b. destruct (Qc_eq_dec a b); split; congruence.
  - intros a. destruct (Qclt_le_dec a a) as [H|]; [|reflexivity].
    exfalso; exact (Qclt_not_eq _ _ H eq_refl).
  - intros a b c. destruct (Qclt_le_dec a b), (Qclt_le_dec b c); try discriminate.
    destruct (Qclt_le_dec a c) as [|H]; [reflexivity|].
    exfalso. apply (Qclt_not_le a c); [eapply Qclt_trans; eassumption | exact H].
  - intros a b. destruct (Qclt_le_dec a b), (Qclt_le_dec b a); try discriminate.
    intros _ _. apply Qcle_antisym; assumption.
Qed.

(** Knots [0, 1, 3, 4, 7] and data [1, -2, 5, 0, 3]. *)
Definition knots_ex : list Qc := map Q2Qc [0; 1; 3; 4; 7]%Q.
Definition data_ex : list Qc := map Q2Qc [1; -2; 5; 0; 3]%Q.

Lemma cubic_spline_C2_witness :
  exists sp, cubic_spline knots_ex data_ex = Ok sp /\
  deriv1 (nth 1 (sp_pieces sp) (mk_piece 0 0 0 0)%fld) (nth 1 (diffs knots_ex) 0%fld)
    = deriv1 (nth 2 (sp_pieces sp) (mk_piece 0 0 0 0)%fld) 0%fld /\
  deriv2 (nth 1 (sp_pieces sp) (mk_piece 0 0 0 0)%fld) (nth 1 (diffs knots_ex) 0%fld)
    = deriv2 (nth 2 (sp_pieces sp) (mk_piece 0 0 0 0)%fld) 0%fld.
Proof.
  destruct (cubic_spline knots_ex data_ex) as [sp|e] eqn:E;
    [|vm_compute in E; discriminate].
  exists sp. split; [reflexivity|].
  apply (cubic_spline_C2 knots_ex data_ex sp 1); [vm_compute; lia | exact E | vm_compute; lia].
Defined.

Lemma cubic_spline_not_a_knot_witness :
  exists sp, cubic_spline knots_ex data_ex = Ok sp /\
  deriv3 (nth 0 (sp_pieces sp) (mk_piece 0 0 0 0)%fld) = deriv3 (nth 1 (sp_pieces sp) (mk_piece 0 0 0 0)%fld) /\
  deriv3 (nth (length knots_ex - 3) (sp_pieces sp) (mk_piece 0 0 0 0)%fld)
    = deriv3 (nth (length knots_ex - 2) (sp_pieces sp) (mk_piece 0 0 0 0)%fld).
Proof.
  destruct (cubic_spline knots_ex data_ex) as [sp|e] eqn:E;
    [|vm_compute in E; discriminate].
  exists sp. split; [reflexivity|].
  apply (cubic_spline_not_a_knot knots_ex data_ex sp); [vm_compute; lia | exact E].
Defined.

Lemma find_interval_ref_witness :
  find_interval knots_ex (Q2Qc (5 # 2)) 3 = Some (interval_ref knots_ex (Q2Qc (5 # 2))) /\
  is_interval knots_ex (Q2Qc (5 # 2)) (interval_ref knots_ex (Q2Qc (5 # 2))) /\
  (forall i, is_interval knots_ex (Q2Qc (5 # 2)) i -> i = interval_ref knots_ex (Q2Qc (5 # 2))).
Proof. apply find_interval_ref; [vm_compute; lia | vm_compute; reflexivity]. Defined.

Lemma thomas_solves_witness :
  exists xs, thomas (system_rows knots_ex (slopes knots_ex data_ex)) = Some xs /\
    sat 0%fld (system_rows knots_ex (slopes knots_ex data_ex)) xs.
Proof.
  destruct (thomas (system_rows knots_ex (slopes knots_ex data_ex))) as [xs|] eqn:E;
    [|vm_compute in E; discriminate].
  exists xs. split; [reflexivity|]. exact (thomas_solves _ _ E).
Defined.

Lemma bsearch_log_fuel_witness :
  bsearch 2 knots_ex (Q2Qc (5 # 2)) 0 3 = interval_ref knots_ex (Q2Qc (5 # 2)).
Proof.
  apply bsearch_log_fuel;
    [cbn; lia | vm_compute; reflexivity | vm_compute; reflexivity | | cbn; lia].
  split; [cbn; lia | split; vm_compute; reflexivity].
Defined.
