(* ===== verification/SplineCubic.v ===== *)
(** * The spline reproduces cubic polynomials

    A cubic spline with the not-a-knot boundary is exact on cubics: when the
    data are the values of a polynomial [p] of degree at most three at the
    knots, scipy's [CubicSpline] returns [p] itself, on every interval and,
    since [extrapolate=True], outside the knots as well.  This is the
    defining property of the not-a-knot condition (the two end pieces are
    one cubic each) and a reference against which the model is checked.

    The proof goes through the linear system: the derivatives [p'(x_i)]
    satisfy every row of [system_rows] (the first and last rows are the
    not-a-knot condition, the others the continuity of the second
    derivative), elimination that succeeds has a unique solution
    ([sweep_unique]), so [thomas] returns [p'(x_i)], and the Hermite piece
    built from exact values and slopes of a cubic is that cubic. *)

From Stdlib Require Import List Arith Lia Field.
From S2P Require Import Prelude Spline.
Import ListNotations.

Section Unique.
Context {F : Type} `{SplineFieldLaws F}.
Local Open Scope fld_scope.
Add Field spline_field_u : (f_theory (F:=F)).

(** Elimination that succeeds determines the solution: any [ys] that
    satisfies the rows, with the previous unknown tied to [ys] by the
    incoming [(cp, dp)], is the result of [sweep]. *)
Lemma sweep_unique (rows : list row) : forall cp dp xs xprev ys,
  sweep cp dp rows = Some xs -> sat xprev rows ys -> xprev = dp - cp * hd 0 ys -> ys = xs.
Proof.
  induction rows as [|r rs IH]; intros cp dp xs xprev ys E Hs Hx.
  - destruct ys; [|contradiction]. cbn [sweep] in E. injection E as <-. reflexivity.
  - destruct ys as [|y ys]; [contradiction|]. destruct Hs as [Hr Hs].
    cbn [sweep] in E.
    destruct (feqb (r_diag r - r_sub r * cp) 0) eqn:Ep; [discriminate|].
    apply feqb_false in Ep.
    destruct (sweep _ _ rs) as [xs'|] eqn:Es; [|discriminate]. injection E as <-.
    cbn [hd] in Hx. subst xprev.
    assert (Hy : y = (r_rhs r - r_sub r * dp) / (r_diag r - r_sub r * cp)
                     - r_sup r / (r_diag r - r_sub r * cp) * hd 0 ys).
    { rewrite <- Hr. field. exact Ep. }
    pose proof (IH _ _ _ y ys Es Hs Hy) as ->. rewrite Hy. reflexivity.
Qed.

Lemma thomas_unique (rows : list row) (xs ys : list F) :
  thomas rows = Some xs -> sat 0 rows ys -> ys = xs.
Proof.
  intros E Hs. apply (sweep_unique rows 0 0 xs 0 ys E Hs). ring.
Qed.

(** [sat] from its rows by index. *)
Lemma sat_of_nth (rows : list row) : forall (xprev : F) ys,
  length ys = length rows ->
  (forall k, (k < length rows)%nat ->
    r_sub (nth k rows (mk_row 0 0 0 0)) * nth k (xprev :: ys) 0
    + r_diag (nth k rows (mk_row 0 0 0 0)) * nth k ys 0
    + r_sup (nth k rows (mk_row 0 0 0 0)) * nth (S k) ys 0
    = r_rhs (nth k rows (mk_row 0 0 0 0))) ->
  sat xprev rows ys.
Proof.
  induction rows as [|r rs IH]; intros xprev [|y ys] Hl Hk; cbn in Hl; try lia.
  - exact I.
  - split.
    + specialize (Hk 0%nat ltac:(cbn; lia)). cbn in Hk. destruct ys; exact Hk.
    + apply IH; [lia|]. intros k Hk'. apply (Hk (S k)). cbn; lia.
Qed.

End Unique.

Section Cubic.
Context {F : Type} `{SplineFieldLaws F}.
Local Open Scope fld_scope.
Add Field spline_field_c : (f_theory (F:=F)).

Variables a b c d : F.

(** The reference: a polynomial of degree at most three and its derivative. *)
Definition cubic (x : F) : F := a + b * x + c * x * x + d * x * x * x.
Definition cubic_deriv (x : F) : F := b + two * c * x + three * d * x * x.

(** The rows of scipy's system hold at the derivatives of a cubic. *)
Lemma cubic_first_row (x0 x1 x2 : F) :
  x1 - x0 <> 0 -> x2 - x1 <> 0 -> x2 - x0 <> 0 ->
  (x2 - x1) * cubic_deriv x0 + (x2 - x0) * cubic_deriv x1
  = (((x1 - x0) + two * (x2 - x0)) * (x2 - x1) * ((cubic x1 - cubic x0) / (x1 - x0))
     + (x1 - x0) * (x1 - x0) * ((cubic x2 - cubic x1) / (x2 - x1))) / (x2 - x0).
Proof. intros. unfold cubic, cubic_deriv, two, three. field. auto. Qed.

Lemma cubic_interior_row (x0 x1 x2 : F) :
  x1 - x0 <> 0 -> x2 - x1 <> 0 ->
  (x2 - x1) * cubic_deriv x0 + two * ((x1 - x0) + (x2 - x1)) * cubic_deriv x1
  + (x1 - x0) * cubic_deriv x2
  = three * ((x2 - x1) * ((cubic x1 - cubic x0) / (x1 - x0))
             + (x1 - x0) * ((cubic x2 - cubic x1) / (x2 - x1))).
Proof. intros. unfold cubic, cubic_deriv, two, three. field. auto. Qed.

Lemma cubic_last_row (x0 x1 x2 : F) :
  x1 - x0 <> 0 -> x2 - x1 <> 0 -> x2 - x0 <> 0 ->
  (x2 - x0) * cubic_deriv x1 + (x1 - x0) * cubic_deriv x2
  = ((x2 - x1) * (x2 - x1) * ((cubic x1 - cubic x0) / (x1 - x0))
     + (two * (x2 - x0) + (x2 - x1)) * (x1 - x0) * ((cubic x2 - cubic x1) / (x2 - x1)))
    / (x2 - x0).
Proof. intros. unfold cubic, cubic_deriv, two, three. field. auto. Qed.

(** The Hermite piece from the values and derivatives of a cubic at both
    ends of an interval is that cubic. *)
Lemma hermite_cubic (x0 x1 u : F) : x1 - x0 <> 0 ->
  eval_piece (hermite_piece (x1 - x0) ((cubic x1 - cubic x0) / (x1 - x0))
                (cubic_deriv x0) (cubic_deriv x1) (cubic x0)) u = cubic (x0 + u).
Proof.
  intros. rewrite eval_piece_eq. unfold hermite_piece, cubic, cubic_deriv, two, three.
  cbn [c0 c1 c2 c3]. field. auto.
Qed.

(** ** The system at a cubic's data *)

Lemma nth_slopes_cubic (xs : list F) (i : nat) : (S i < length xs)%nat ->
  nth i (slopes xs (map cubic xs)) 0
  = (cubic (nth (S i) xs 0) - cubic (nth i xs 0)) / (nth (S i) xs 0 - nth i xs 0).
Proof.
  intros Hi. rewrite nth_slopes by (rewrite ?length_map; (reflexivity || lia)).
  rewrite !nth_diffs by (rewrite ?length_map; lia).
  rewrite !(nth_map_lt _ _ _ 0) by lia. reflexivity.
Qed.

Lemma nth_map_cubic_deriv (xs : list F) (i : nat) : (i < length xs)%nat ->
  nth i (map cubic_deriv xs) 0 = cubic_deriv (nth i xs 0).
Proof. intros Hi. apply nth_map_lt. exact Hi. Qed.

Lemma knot_gap (xs : list F) (i j : nat) :
  increasing_b fltb xs = true -> (i < j)%nat -> (j < length xs)%nat ->
  nth j xs 0 - nth i xs 0 <> 0.
Proof. intros. apply fltb_sub_neq, increasing_lt; assumption. Qed.

(** [cubic_rw] rewrites slopes, gaps and derivatives at the knots. *)
Ltac cubic_rw :=
  repeat first
    [ rewrite nth_slopes_cubic by lia
    | rewrite nth_diffs by lia
    | rewrite nth_map_cubic_deriv by lia ].

(** The derivatives of the cubic at the knots satisfy scipy's system. *)
Lemma cubic_system_sat (xs : list F) :
  (4 <= length xs)%nat -> increasing_b fltb xs = true ->
  sat 0 (system_rows xs (slopes xs (map cubic xs))) (map cubic_deriv xs).
Proof.
  intros Hn Hi.
  assert (Hm : length (slopes xs (map cubic xs)) = (length xs - 1)%nat)
    by (apply length_slopes; apply length_map).
  apply sat_of_nth; [rewrite length_system_rows, length_map by (assumption || lia); reflexivity|].
  rewrite length_system_rows by (assumption || lia). intros k Hk.
  assert (G : forall i j, (i < j)%nat -> (j < length xs)%nat -> nth j xs 0 - nth i xs 0 <> 0)
    by (intros; apply knot_gap; assumption).
  destruct k as [|j].
  - unfold system_rows, first_row. cbn [nth r_sub r_diag r_sup r_rhs]. cubic_rw.
    etransitivity; [|apply cubic_first_row; apply G; lia]. ring.
  - destruct (Nat.lt_ge_cases (S (S j)) (length xs)) as [Hj|Hj].
    + rewrite nth_system_rows_interior by assumption.
      rewrite nth_interior_rows by (rewrite ?length_diffs; lia).
      cbn [nth r_sub r_diag r_sup r_rhs]. cubic_rw.
      etransitivity; [|apply cubic_interior_row; apply G; lia]. ring.
    + assert (Ej : S j = (length xs - 1)%nat) by lia. rewrite Ej.
      rewrite nth_system_rows_last by (assumption || lia). unfold last_row.
      cbn [r_sub r_diag r_sup r_rhs].
      replace (nth (length xs - 1) (0 :: map cubic_deriv xs) 0)
        with (nth (length xs - 2) (map cubic_deriv xs) 0)
        by (replace (length xs - 1)%nat with (S (length xs - 2)) by lia; reflexivity).
      rewrite (nth_overflow (map cubic_deriv xs) (n := S (length xs - 1)))
        by (rewrite length_map; lia).
      replace (length xs - 2)%nat with (S (length xs - 3)) by lia.
      replace (length xs - 1)%nat with (S (S (length xs - 3))) by lia.
      cubic_rw.
      etransitivity; [|apply cubic_last_row; apply G; lia]. ring.
Qed.

(** C30. Exactness on cubics: when the data are the values at four or more
    strictly increasing knots of a polynomial [p] of degree at most three,
    the spline fitted by [CubicSpline] evaluates to [p] at every point,
    inside the knots and outside them (extrapolation by the end pieces):
    the fit is exact on cubics, as the not-a-knot condition intends. *)
Theorem cubic_spline_reproduces_cubic (xs : list F) (sp : spline) :
  (4 <= length xs)%nat -> cubic_spline xs (map cubic xs) = Ok sp ->
  forall pts, ppoly_eval sp pts = map (fun x => Some (cubic x)) pts.
Proof.
  intros Hn E pts.
  destruct (cubic_spline_long_inv _ _ sp Hn E) as (Hy & Hinc & s & Hs & ->).
  pose proof (thomas_unique _ _ _ Hs (cubic_system_sat xs Hn Hinc)) as <-.
  unfold ppoly_eval. rewrite ppoly_eval_loop_ref by (cbn [sp_x]; (assumption || lia)).
  apply map_ext. intros x. f_equal. unfold spline_value. cbn [sp_x sp_pieces].
  destruct (interval_ref_spec xs ltac:(lia) x) as [Hi _].
  assert (Hm : length (slopes xs (map cubic xs)) = (length xs - 1)%nat)
    by (apply length_slopes; apply length_map).
  rewrite nth_hermite_pieces by (rewrite ?length_diffs, ?length_map; lia).
  cubic_rw. rewrite (nth_map_lt _ _ _ 0) by lia.
  rewrite hermite_cubic by (apply knot_gap; (assumption || lia)).
  f_equal. ring.
Qed.

End Cubic.

From Stdlib Require Import QArith Qcanon.

(** The witness: [p(x) = x^3 - 2x + 1] on the knots [0, 1, 3, 4, 7] of
    [Spline.v], evaluated inside and outside the knots. *)
Lemma cubic_spline_reproduces_cubic_witness :
  let p := cubic (Q2Qc 1) (Q2Qc (-2)) (Q2Qc 0) (Q2Qc 1) in
  exists sp, cubic_spline knots_ex (map p knots_ex) = Ok sp /\
    ppoly_eval sp [Q2Qc (5 # 2); Q2Qc 9; Q2Qc (-1)] = map (fun x => Some (p x)) [Q2Qc (5 # 2); Q2Qc 9; Q2Qc (-1)].
Proof.
  intros p.
  destruct (cubic_spline knots_ex (map p knots_ex)) as [sp|e] eqn:E;
    [|vm_compute in E; discriminate].
  exists sp. split; [reflexivity|].
  apply (cubic_spline_reproduces_cubic (Q2Qc 1) (Q2Qc (-2)) (Q2Qc 0) (Q2Qc 1) knots_ex sp);
    [cbn; lia | exact E].
Defined.
