(* ===== verification/SplineReal.v ===== *)
(** * The spline on the reals, and the anchor grid of ISO 226

    The loudness model evaluates scipy's [CubicSpline] on real numbers
    ([R_spline_ops]).  This file shows that the not-a-knot system of
    [Spline.v] is solved by elimination without a zero pivot for every
    strictly increasing list of at least four real knots, whatever the data:
    the pivots are [x2 - x1], [x2 - x0], then for each interior row a pivot
    above [2 h(k-1) + h(k)] with a multiplier in [[0, 1)], and a last pivot
    above [0].  So the fit succeeds ([cubic_spline_R_ok]) and LAPACK's
    pivoting makes no difference.  It then checks, by evaluation on
    rationals, that the 29 anchor frequencies of the ISO 226 table are
    strictly increasing, so that the fit of any contour on them succeeds and,
    evaluated at the anchors, returns the contour. *)

From Stdlib Require Import List Reals Lra Lia QArith Qreals Field.
From S2P Require Import Prelude ContourTable Spline.
Import ListNotations.
Open Scope R_scope.

#[export] Instance R_spline_ops : SplineField R := {
  f0 := 0; f1 := 1; fadd := Rplus; fmul := Rmult; fsub := Rminus;
  fopp := Ropp; fdiv := Rdiv; finv := Rinv;
  feqb := fun a b => if Req_dec_T a b then true else false;
  fltb := fun a b => if Rlt_dec a b then true else false
}.

#[export] Instance R_spline_laws : SplineFieldLaws R.
Proof.
  split; cbn.
  - exact Rfield.
  - intros a b. destruct (Req_dec_T a b); split; congruence.
  - intros a. destruct (Rlt_dec a a); [lra | reflexivity].
  - intros a b c. destruct (Rlt_dec a b), (Rlt_dec b c), (Rlt_dec a c); try lra; congruence.
  - intros a b. destruct (Rlt_dec a b), (Rlt_dec b a); try discriminate. lra.
Qed.

Lemma fltb_R (a b : R) : fltb a b = true <-> a < b.
Proof. cbn. destruct (Rlt_dec a b); split; (congruence || lra). Qed.

Lemma nth_diffs_R (xs : list R) k :
  (S k < length xs)%nat -> nth k (diffs xs) 0 = nth (S k) xs 0 - nth k xs 0.
Proof. exact (nth_diffs xs k). Qed.

Lemma gap_pos (xs : list R) k :
  increasing_b fltb xs = true -> (S k < length xs)%nat -> 0 < nth k (diffs xs) 0.
Proof.
  intros Hi Hk. rewrite nth_diffs_R by assumption.
  pose proof (proj1 (fltb_R _ _) (increasing_b_nth fltb xs 0 Hi k Hk)). lra.
Qed.

(** [rsimpl] unfolds the field interface to the operations of [R]. *)
Ltac rsimpl :=
  cbn [fsub fmul fdiv fadd fopp finv f0 f1 R_spline_ops two three
       r_sub r_diag r_sup r_rhs] in *.

Section Pivots.
Variables (xs m : list R).
Hypothesis Hinc : increasing_b fltb xs = true.
Hypothesis Hn : (4 <= length xs)%nat.
Hypothesis Hm : length m = (length xs - 1)%nat.

Let dx := diffs xs.
Let hk (k : nat) : R := nth k dx 0.

Lemma hk_pos (k : nat) : (S k < length xs)%nat -> 0 < hk k.
Proof. intros; apply gap_pos; assumption. Qed.

Lemma length_int : length (interior_rows dx m) = (length xs - 2)%nat.
Proof. unfold dx. rewrite length_interior_rows; rewrite ?length_diffs; lia. Qed.

Lemma nth_int (j : nat) : (S j < length xs - 1)%nat ->
  nth j (interior_rows dx m) (mk_row 0 0 0 0)%fld =
  (mk_row (hk (S j)) (two * (hk j + hk (S j))) (hk j)
          (three * (hk (S j) * nth j m 0 + hk j * nth (S j) m 0)))%fld.
Proof.
  intros Hj. unfold dx in *. pose proof (length_diffs xs).
  exact (nth_interior_rows (diffs xs) m j ltac:(lia) ltac:(lia)).
Qed.

(** Every interior row from [j] on, then the last row, is eliminated with a
    positive pivot when the incoming multiplier is in [[0, 1)]. *)
Lemma sweep_tail (r : nat) : forall (j : nat) (cp dp : R),
  (j + r = length xs - 2)%nat -> (1 <= j)%nat -> (1 <= r)%nat -> 0 <= cp < 1 ->
  sweep cp dp (skipn j (interior_rows dx m) ++ [last_row xs dx m]) <> None.
Proof.
  induction r as [|r IH]; intros j cp dp Hjr Hj Hr Hcp; [lia|].
  rewrite (skipn_nth_cons _ j (mk_row 0 0 0 0)%fld) by (rewrite length_int; lia).
  rewrite nth_int by lia. rewrite <- app_comm_cons.
  pose proof (hk_pos j ltac:(lia)) as H0. pose proof (hk_pos (S j) ltac:(lia)) as H1.
  assert (Hpiv : 2 * (hk j + hk (S j)) - hk (S j) * cp > 2 * hk j + hk (S j)) by nra.
  apply sweep_cons_some; [rsimpl; lra|]. cbn [r_sub r_diag r_sup r_rhs].
  destruct (Nat.eq_dec r 0) as [->|Hr'].
  - rewrite skipn_all2 by (rewrite length_int; lia). simpl app.
    apply sweep_cons_some; [|cbn [sweep]; discriminate].
    unfold last_row. rsimpl.
    set (piv := (1 + 1) * (hk j + hk (S j)) - hk (S j) * cp) in *.
    assert (Hp : 0 < piv) by (unfold piv; lra).
    replace (length xs - 1)%nat with (S (S j)) by lia.
    replace (length xs - 3)%nat with j by lia.
    assert (Hd : nth (S (S j)) xs 0 - nth j xs 0 = hk j + hk (S j))
      by (unfold hk, dx; rewrite !nth_diffs_R by lia; ring).
    rewrite Hd. fold (hk j).
    assert ((hk j + hk (S j)) * (hk j / piv) < hk j).
    { apply (Rmult_lt_reg_r piv); [exact Hp|].
      replace ((hk j + hk (S j)) * (hk j / piv) * piv) with ((hk j + hk (S j)) * hk j)
        by (field; lra).
      unfold piv. nra. }
    lra.
  - apply IH; [lia | lia | lia|]. rsimpl.
    set (piv := (1 + 1) * (hk j + hk (S j)) - hk (S j) * cp) in *.
    assert (Hp : 0 < piv) by (unfold piv; lra).
    split.
    + apply Rmult_le_pos; [lra | left; apply Rinv_0_lt_compat; exact Hp].
    + apply (Rmult_lt_reg_r piv); [exact Hp|].
      replace (hk j / piv * piv) with (hk j) by (field; lra). unfold piv; lra.
Qed.

(** The whole system: row 0 has pivot [h1], row 1 pivot [h0 + h1] and
    multiplier [h0 / (h0 + h1)], and [sweep_tail] does the rest. *)
Lemma thomas_system_some : thomas (system_rows xs m) <> None.
Proof.
  pose proof (hk_pos 0 ltac:(lia)) as H0. pose proof (hk_pos 1 ltac:(lia)) as H1.
  assert (Hd : nth 2 xs 0 - nth 0 xs 0 = hk 0 + hk 1)
    by (unfold hk, dx; rewrite !nth_diffs_R by lia; ring).
  unfold thomas, system_rows. fold dx.
  apply sweep_cons_some; [unfold first_row; rsimpl; fold (hk 1); lra|].
  rewrite <- (skipn_O (interior_rows dx m)).
  rewrite (skipn_nth_cons _ 0 (mk_row 0 0 0 0)%fld) by (rewrite length_int; lia).
  rewrite nth_int by lia. rewrite <- app_comm_cons.
  unfold first_row. cbn [r_sub r_diag r_sup r_rhs].
  apply sweep_cons_some.
  - rsimpl. fold (hk 0) (hk 1). rewrite Hd.
    replace ((1 + 1) * (hk 0 + hk 1) - hk 1 * ((hk 0 + hk 1) / (hk 1 - 0 * 0)))
      with (hk 0 + hk 1) by (field; lra). lra.
  - apply (sweep_tail (length xs - 3)); [lia | lia | lia|].
    rsimpl. fold (hk 0) (hk 1). rewrite Hd.
    replace ((1 + 1) * (hk 0 + hk 1) - hk 1 * ((hk 0 + hk 1) / (hk 1 - 0 * 0)))
      with (hk 0 + hk 1) by (field; lra).
    split.
    + apply Rmult_le_pos; [lra | left; apply Rinv_0_lt_compat; lra].
    + apply (Rmult_lt_reg_r (hk 0 + hk 1)); [lra|].
      replace (hk 0 / (hk 0 + hk 1) * (hk 0 + hk 1)) with (hk 0) by (field; lra). lra.
Qed.

End Pivots.

(** C12. On strictly increasing real knots, at least four of them,
    the fit never fails: the input checks pass and elimination meets no
    zero pivot, whatever the data values. *)
Theorem cubic_spline_R_ok (xs ys : list R) :
  (4 <= length xs)%nat -> increasing_b fltb xs = true -> length ys = length xs ->
  exists sp, cubic_spline xs ys = Ok sp.
Proof.
  intros Hn Hi Hy. apply cubic_spline_of_thomas; try assumption.
  apply thomas_system_some; [exact Hi | exact Hn | apply length_slopes; exact Hy].
Qed.

(** ** The anchor grid of the threshold interpolation *)

(** [self.equal_loudness_contour_freqs] (lines 53-55), as reals. *)
Definition anchor_freqs_R : list R := map Q2R contour_freqs.

Lemma anchor_freqs_increasing : increasing_b fltb anchor_freqs_R = true.
Proof.
  apply increasing_b_map with (ltA := Qltb); [|exact contour_freqs_increasing].
  intros a b Hab. apply fltb_R, Qlt_Rlt, Qltb_spec, Hab.
Qed.

Lemma length_anchor_freqs : length anchor_freqs_R = 29%nat.
Proof. unfold anchor_freqs_R. rewrite length_map. reflexivity. Qed.

(** [CubicSpline(x=anchor freqs, y=contour)] of line 80 never raises: for
    every contour of 29 values the fit on the 29 anchor frequencies
    succeeds. *)
Lemma anchor_spline_ok (contour : list R) :
  length contour = 29%nat -> exists sp, cubic_spline anchor_freqs_R contour = Ok sp.
Proof.
  intros Hc.
  assert (Hn : (4 <= length anchor_freqs_R)%nat) by (rewrite length_anchor_freqs; lia).
  assert (Hy : length contour = length anchor_freqs_R) by (rewrite length_anchor_freqs; exact Hc).
  apply cubic_spline_of_thomas; try assumption; [exact anchor_freqs_increasing|].
  apply thomas_system_some; [exact anchor_freqs_increasing | exact Hn | apply length_slopes; exact Hy].
Qed.

Lemma cubic_spline_R_ok_witness :
  (4 <= length [0; 1; 2; 3])%nat /\ increasing_b fltb [0; 1; 2; 3] = true /\
  length [1; 0; 2; 5] = length [0; 1; 2; 3] /\
  exists sp, cubic_spline [0; 1; 2; 3] [1; 0; 2; 5] = Ok sp.
Proof.
  assert (Hi : increasing_b fltb [0; 1; 2; 3] = true).
  { cbn [increasing_b]. rewrite !(proj2 (fltb_R _ _)) by lra. reflexivity. }
  split; [cbn; lia|]. split; [exact Hi|]. split; [reflexivity|].
  apply cubic_spline_R_ok; [cbn; lia | exact Hi | reflexivity].
Defined.

(** C31. Fit-then-evaluate round trip on the anchor grid: for every
    contour of 29 values, [CubicSpline] on the 29 anchor frequencies
    succeeds, and evaluating the fitted spline at the anchor frequencies
    gives back the contour. *)
Theorem anchor_spline_roundtrip (contour : list R) :
  length contour = 29%nat ->
  exists sp, cubic_spline anchor_freqs_R contour = Ok sp /\
    ppoly_eval sp anchor_freqs_R = map Some contour.
Proof.
  intros Hc. destruct (anchor_spline_ok contour Hc) as [sp E].
  exists sp. split; [exact E|].
  apply (cubic_spline_interpolates _ _ _ ltac:(rewrite length_anchor_freqs; lia) E).
Qed.

Lemma anchor_spline_roundtrip_witness :
  length (repeat 0 29) = 29%nat /\
  exists sp, cubic_spline anchor_freqs_R (repeat 0 29) = Ok sp /\
    ppoly_eval sp anchor_freqs_R = map Some (repeat 0 29).
Proof.
  split; [reflexivity|]. apply anchor_spline_roundtrip. reflexivity.
Defined.

(** For two or three knots scipy's closed forms always give slopes. *)
Lemma spline_slopes_short (xs ys : list R) :
  (length xs = 2 \/ length xs = 3)%nat -> spline_slopes xs ys <> None.
Proof. destruct xs as [|a [|b [|c [|d xs]]]]; cbn; intros H; (lia || discriminate). Qed.

(** C36. Error behaviour of [CubicSpline] on real data: the fit fails
    exactly on scipy's input checks (fewer than two points, [y] of another
    length, [x] not strictly increasing), and it then raises [ValueError];
    [LinAlgError] never arises. *)
Theorem cubic_spline_R_error (xs ys : list R) :
  (exists e, cubic_spline xs ys = Err e) <->
  ((length xs < 2)%nat \/ length ys <> length xs \/ increasing_b fltb xs = false) /\
  cubic_spline xs ys = Err ValueError.
Proof.
  unfold cubic_spline.
  destruct (Nat.ltb_spec (length xs) 2) as [H2|H2];
    [split; [intros _; split; [left; exact H2 | reflexivity] | eauto]|].
  destruct (Nat.eqb_spec (length ys) (length xs)) as [Hy|Hy]; cbn [negb];
    [|split; [intros _; split; [right; left; exact Hy | reflexivity] | eauto]].
  destruct (increasing_b fltb xs) eqn:Hi; cbn [negb];
    [|split; [intros _; split; [right; right; reflexivity | reflexivity] | eauto]].
  destruct (spline_slopes xs ys) as [s|] eqn:Hs.
  - split; [intros [e E]; discriminate | intros [[H|[H|H]] _]; (lia || congruence)].
  - exfalso. destruct (Nat.le_gt_cases 4 (length xs)) as [H4|H4].
    + rewrite spline_slopes_long in Hs by exact H4.
      exact (thomas_system_some xs (slopes xs ys) Hi H4 ltac:(apply length_slopes; exact Hy) Hs).
    + exact (spline_slopes_short xs ys ltac:(lia) Hs).
Qed.
