(* ===== verification/Compressor.v ===== *)
(** * [LoudnessCompressor]: state, construction and the three methods

    [loudness.py] lines 46-110.  The object holds the anchor frequencies,
    the hearing-threshold contour computed once at construction, the
    schwell factor [s] and the compression level [g] ([LoudnessCompressor]).
    [init] is [__init__] (it raises [ValueError] through
    [equal_loudness_contour] for a threshold level outside [[0, 90]]).
    The methods read the state and never change it:
    - [hearing_threshold_at_freqs]: Bark to Hertz (the [BarkScale]
      collaborator), the spline of [Spline.v] through (anchor frequency,
      contour), evaluated at the target frequencies, then [10^(x/10)];
    - [hearing_threshold_excitation]: the column [unsqueeze(1)] of those
      powers passed to the [OuterToInnerTransfer] collaborator;
    - [compress]: [compress_tensor], line 109-110 on tensors with torch
      broadcasting, against the threshold excitation.
    The collaborators of [utils.py] and [transfer.py] are interfaces: a
    [BarkScale] instance gives [bark_to_hertz], an [OuterToInnerTransfer]
    record gives [transfer_signal_with_freqs], and [TransferPositive] is
    the contract the client theorems assume of it (positive signals give
    positive excitations).  The theorems: [__init__] raises exactly out of
    range and otherwise establishes [lc_wf]; the threshold is positive and
    exact at the anchors, and for the default object it is [3.539] dB at
    1 kHz within [0.015]; [compress] refines [loudness_spec], is
    non-negative, zero at threshold, bounded by [x^g] for [g <= 1], and has
    the broadcast shape. *)

From Stdlib Require Import List Reals Lra Lia QArith Qreals.
From S2P Require Import Prelude ContourTable Contour Calibration FloatExt Compress Tensor Spline SplineReal.
Import ListNotations.
Open Scope R_scope.
Local Open Scope loud_scope.

(** ** Collaborators *)

(** [torchpaqm.utils.bark_to_hertz], applied element-wise. *)
Class BarkScale : Type := { bark_to_hertz : R -> R }.

(** [torchpaqm.transfer.OuterToInnerTransfer], the object passed to the
    methods; only [transfer_signal_with_freqs] is used. *)
Record OuterToInnerTransfer : Type := {
  transfer_signal_with_freqs : tensor -> list R -> tensor
}.

(** Every element is a finite positive number. *)
Definition pos_tensor (t : tensor) : Prop :=
  wf t /\ forall i j, (i < t_rows t)%nat -> (j < t_cols t)%nat ->
    exists x, get t i j = Fin x /\ 0 < x.

(** Every element is a finite non-negative number. *)
Definition nonneg_tensor (t : tensor) : Prop :=
  wf t /\ forall i j, (i < t_rows t)%nat -> (j < t_cols t)%nat ->
    exists x, get t i j = Fin x /\ 0 <= x.

(** The contract of the transfer: positive powers per frequency give
    positive powers per excitation band. *)
Class TransferPositive (tr : OuterToInnerTransfer) : Prop :=
  transfer_pos : forall sig freqs, pos_tensor sig ->
    pos_tensor (transfer_signal_with_freqs tr sig freqs).

(** ** State and construction *)

Record LoudnessCompressor : Type := mk_compressor {
  equal_loudness_contour_freqs : list R;
  hearing_threshold_contour : list R;
  schwell_factor : R;
  compression_level : R
}.

(** [__init__], lines 47-58. *)
Definition init (schwell_factor compression_level hearing_threshold : R)
  : result LoudnessCompressor :=
  let freqs := anchor_freqs_R in
  let* contour := equal_loudness_contour hearing_threshold in
  Ok (mk_compressor freqs contour schwell_factor compression_level).

(** The defaults of the signature, lines 49-51 and 43. *)
Definition init_default : result LoudnessCompressor :=
  init 0.5 0.04 (Q2R PHON_HEARING_THRESHOLD).

(** ** Methods *)

Section Methods.
Context `{BarkScale}.

(** [hearing_threshold_at_freqs], lines 78-85. *)
Definition hearing_threshold_at_freqs (lc : LoudnessCompressor) (bark_freqs : list R)
  : result (list xr) :=
  let hertz_freqs := map bark_to_hertz bark_freqs in
  let* interpolator :=
    cubic_spline (equal_loudness_contour_freqs lc) (hearing_threshold_contour lc) in
  let threshold_at_freqs := ppoly_eval interpolator hertz_freqs in
  Ok (map (fun v => match v with
                    | Some x => xpow (Fin 10) (x / 10)
                    | None => NaN
                    end) threshold_at_freqs).

(** [hearing_threshold_excitation], lines 90-95. *)
Definition hearing_threshold_excitation (lc : LoudnessCompressor) (bark_freqs : list R)
  (transfer : OuterToInnerTransfer) : result tensor :=
  let* threshold_at_freqs := hearing_threshold_at_freqs lc bark_freqs in
  Ok (transfer_signal_with_freqs transfer (unsqueeze1 threshold_at_freqs) bark_freqs).

End Methods.

(** Lines 105-110 on tensors, operation by operation. *)
Definition compress_tensor (s g : R) (e0 e : tensor) : result tensor :=
  let t1 := tmap (fun x => xdiv x (Fin s)) e0 in                 (* e0 / s *)
  let t2 := tmap (fun x => xpow x g) t1 in                       (* (e0 / s) ** g *)
  let* t3 := tzip xdiv e e0 in                                    (* e / e0 *)
  let t4 := tmap (fun x => xmul (Fin s) x) t3 in                 (* s * (e / e0) *)
  let t5 := tmap (fun x => xadd (Fin (1 - s)) x) t4 in           (* 1 - s + ... *)
  let t6 := tmap (fun x => xpow x g) t5 in                       (* (...) ** g *)
  let t7 := tmap (fun x => xsub x (Fin 1)) t6 in                 (* ... - 1 *)
  let* t8 := tzip xmul t2 t7 in                                   (* product *)
  Ok (tmap xclip0 t8).                                            (* torch.clip *)

(** [compress], lines 97-110. *)
Definition compress `{BarkScale} (lc : LoudnessCompressor) (power_spectrum : tensor)
  (bark_freqs : list R) (transfer : OuterToInnerTransfer) : result tensor :=
  let* e0 := hearing_threshold_excitation lc bark_freqs transfer in
  compress_tensor (schwell_factor lc) (compression_level lc) e0 power_spectrum.

(** ** [compress_tensor] element by element *)

(** On well-formed operands whose shapes broadcast, [compress_tensor]
    returns the broadcast shape and, at each position, [compress_elem] of
    the broadcast operands. *)
Lemma compress_tensor_elem (s g : R) (e0 e : tensor) (r c : nat) :
  wf e0 -> wf e ->
  bdim (t_rows e) (t_rows e0) = Some r -> bdim (t_cols e) (t_cols e0) = Some c ->
  exists t, compress_tensor s g e0 e = Ok t /\ wf t /\ t_rows t = r /\ t_cols t = c /\
    forall i j, (i < r)%nat -> (j < c)%nat ->
      get t i j = compress_elem s g (get e0 (bidx (t_rows e0) i) (bidx (t_cols e0) j))
                                    (get e (bidx (t_rows e) i) (bidx (t_cols e) j)).
Proof.
  intros W0 W Hr Hc. unfold compress_tensor.
  destruct (tzip_ok xdiv e e0 r c Hr Hc) as (t3 & E3 & W3 & R3 & C3 & G3).
  rewrite E3. cbn [bind].
  set (t7 := tmap _ (tmap _ (tmap _ (tmap _ t3)))).
  set (t2 := tmap _ (tmap _ e0)).
  assert (W7 : wf t7) by (unfold t7; repeat apply wf_tmap; exact W3).
  assert (W2 : wf t2) by (unfold t2; repeat apply wf_tmap; exact W0).
  assert (Hr8 : bdim (t_rows t2) (t_rows t7) = Some r)
    by (unfold t2, t7; cbn [t_rows tmap]; rewrite R3; apply (bdim_absorb _ _ _ Hr)).
  assert (Hc8 : bdim (t_cols t2) (t_cols t7) = Some c)
    by (unfold t2, t7; cbn [t_cols tmap]; rewrite C3; apply (bdim_absorb _ _ _ Hc)).
  destruct (tzip_ok xmul t2 t7 r c Hr8 Hc8) as (t8 & E8 & W8 & R8 & C8 & G8).
  rewrite E8. cbn [bind]. eexists; split; [reflexivity|].
  split; [apply wf_tmap; exact W8|]. cbn [t_rows t_cols tmap].
  split; [exact R8|]. split; [exact C8|].
  intros i j Hi Hj.
  assert (Hi0 := bidx_lt _ _ _ i (bdim_absorb _ _ _ Hr) Hi).
  assert (Hj0 := bidx_lt _ _ _ j (bdim_absorb _ _ _ Hc) Hj).
  rewrite get_tmap by (try rewrite R8; try rewrite C8; assumption).
  rewrite G8 by assumption.
  unfold t2, t7; cbn [t_rows t_cols tmap]. rewrite R3, C3, (bidx_id r i Hi), (bidx_id c j Hj).
  rewrite !get_tmap by (cbn [t_rows t_cols tmap]; repeat apply wf_tmap;
                        (assumption || rewrite ?R3, ?C3; assumption)).
  rewrite G3 by assumption. reflexivity.
Qed.

Lemma compress_tensor_err (s g : R) (e0 e : tensor) :
  bdim (t_rows e) (t_rows e0) = None \/ bdim (t_cols e) (t_cols e0) = None ->
  compress_tensor s g e0 e = Err RuntimeError.
Proof. intros H. unfold compress_tensor. rewrite tzip_err by exact H. reflexivity. Qed.

(** ** The state invariant *)

(** What every constructed compressor satisfies: the anchor frequencies of
    the table, and the contour of some level in [[0, 90]]. *)
Definition lc_wf (lc : LoudnessCompressor) : Prop :=
  equal_loudness_contour_freqs lc = anchor_freqs_R /\
  exists L, 0 <= L <= 90 /\ equal_loudness_contour L = Ok (hearing_threshold_contour lc).

Lemma lc_wf_contour_length (lc : LoudnessCompressor) :
  lc_wf lc -> length (hearing_threshold_contour lc) = 29%nat.
Proof. intros (_ & L & _ & E). exact (equal_loudness_contour_length L _ E). Qed.

(** The spline of a well-formed compressor exists (line 80 never raises). *)
Lemma lc_spline (lc : LoudnessCompressor) : lc_wf lc ->
  exists sp, cubic_spline (equal_loudness_contour_freqs lc) (hearing_threshold_contour lc)
             = Ok sp.
Proof.
  intros Hw. pose proof (lc_wf_contour_length lc Hw) as Hl.
  destruct Hw as [-> _]. apply anchor_spline_ok. exact Hl.
Qed.

Section Pipeline.
Context `{BarkScale}.

(** The threshold powers, value by value: [10^(S(f)/10)] for the spline [S]
    at the Hertz frequency [f] of each Bark value. *)
Lemma hearing_threshold_at_freqs_values (lc : LoudnessCompressor) (bark_freqs : list R) :
  lc_wf lc -> exists sp,
    cubic_spline (equal_loudness_contour_freqs lc) (hearing_threshold_contour lc) = Ok sp /\
    hearing_threshold_at_freqs lc bark_freqs =
      Ok (map (fun z => Fin (Rpower 10 (spline_value sp (bark_to_hertz z) / 10))) bark_freqs).
Proof.
  intros Hw. destruct (lc_spline lc Hw) as [sp Hsp]. exists sp. split; [exact Hsp|].
  unfold hearing_threshold_at_freqs. rewrite Hsp. cbn [bind].
  destruct (cubic_spline_knots _ _ _ Hsp) as (Hx & Hl & Hi).
  unfold ppoly_eval. rewrite ppoly_eval_loop_ref by (rewrite Hx; assumption).
  rewrite !map_map. f_equal. apply map_ext. intros z.
  rewrite xpow_pos by lra. reflexivity.
Qed.

Lemma pos_unsqueeze1 (v : list xr) :
  Forall (fun x => exists r, x = Fin r /\ 0 < r) v -> pos_tensor (unsqueeze1 v).
Proof.
  intros Hv. split; [apply wf_unsqueeze1|]. intros i j Hi Hj.
  cbn [t_rows t_cols unsqueeze1] in Hi, Hj. assert (j = 0%nat) as -> by lia.
  rewrite get_unsqueeze1 by exact Hi.
  rewrite Forall_forall in Hv. apply Hv, nth_In, Hi.
Qed.

Lemma threshold_excitation_pos (lc : LoudnessCompressor) (bark_freqs : list R)
  (tr : OuterToInnerTransfer) `{TransferPositive tr} :
  lc_wf lc -> exists e0,
    hearing_threshold_excitation lc bark_freqs tr = Ok e0 /\ pos_tensor e0.
Proof.
  intros Hw. destruct (hearing_threshold_at_freqs_values lc bark_freqs Hw) as (sp & _ & E).
  unfold hearing_threshold_excitation. rewrite E. cbn [bind].
  eexists; split; [reflexivity|]. apply transfer_pos, pos_unsqueeze1.
  apply Forall_forall. intros x Hx. apply in_map_iff in Hx as (z & <- & _).
  eexists; split; [reflexivity | apply Rpower_pos].
Qed.

End Pipeline.

(** Tensor-level refinement: on a positive threshold and a non-negative
    excitation whose shapes broadcast, every element of the result is the
    abstract specification [loudness_spec] of the broadcast operands. *)
Lemma compress_tensor_spec (s g : R) (e0 e : tensor) (r c : nat) :
  0 < s <= 1 -> 0 < g -> pos_tensor e0 -> nonneg_tensor e ->
  bdim (t_rows e) (t_rows e0) = Some r -> bdim (t_cols e) (t_cols e0) = Some c ->
  exists t, compress_tensor s g e0 e = Ok t /\ wf t /\ t_rows t = r /\ t_cols t = c /\
    forall i j, (i < r)%nat -> (j < c)%nat ->
      exists x0 x, get e0 (bidx (t_rows e0) i) (bidx (t_cols e0) j) = Fin x0 /\ 0 < x0 /\
        get e (bidx (t_rows e) i) (bidx (t_cols e) j) = Fin x /\ 0 <= x /\
        get t i j = Fin (loudness_spec s g x0 x).
Proof.
  intros Hs Hg [W0 P0] [W P] Hr Hc.
  destruct (compress_tensor_elem s g e0 e r c W0 W Hr Hc) as (t & E & Wt & Rt & Ct & G).
  exists t. repeat (split; [assumption|]). intros i j Hi Hj.
  destruct (P0 (bidx (t_rows e0) i) (bidx (t_cols e0) j)) as (x0 & Ex0 & Hx0);
    [apply (bidx_lt _ _ _ i (bdim_absorb _ _ _ Hr) Hi)
    |apply (bidx_lt _ _ _ j (bdim_absorb _ _ _ Hc) Hj)|].
  destruct (P (bidx (t_rows e) i) (bidx (t_cols e) j)) as (x & Ex & Hx);
    [apply (bidx_lt _ _ _ i Hr Hi) | apply (bidx_lt _ _ _ j Hc Hj)|].
  exists x0, x. repeat (split; [assumption|]).
  rewrite G, Ex0, Ex by assumption. apply compress_elem_refines; try lra.
  apply base_nonneg; lra.
Qed.

(** What a successful [__init__] stored. *)
Lemma init_inv (s g L : R) (lc : LoudnessCompressor) :
  init s g L = Ok lc -> 0 <= L <= 90 /\ lc_wf lc /\
    hearing_threshold_contour lc = map (iso226_spl L) EQUAL_LOUDNESS_CONTOUR_PARAMS /\
    schwell_factor lc = s /\ compression_level lc = g.
Proof.
  unfold init. destruct (equal_loudness_contour L) as [c|e] eqn:E; cbn [bind]; [|discriminate].
  intros H. injection H as <-. pose proof E as E'.
  unfold equal_loudness_contour in E.
  destruct (Rlt_dec L 0), (Rlt_dec 90 L); try discriminate.
  assert (c = map (iso226_spl L) EQUAL_LOUDNESS_CONTOUR_PARAMS) as -> by congruence.
  split; [lra|]. split; [split; [reflexivity | exists L; split; [lra | exact E']]|].
  cbn [hearing_threshold_contour schwell_factor compression_level]. auto.
Qed.

(** ** Construction *)

(** C6. [__init__] raises [ValueError] exactly when the hearing
    threshold level is outside [[0, 90]] (the guard of
    [equal_loudness_contour], line 63, reached from line 56). *)
Theorem init_error (s g L : R) :
  init s g L = Err ValueError <-> (L < 0 \/ 90 < L).
Proof.
  unfold init, equal_loudness_contour.
  destruct (Rlt_dec L 0); [cbn [bind]; split; auto|].
  destruct (Rlt_dec 90 L); [cbn [bind]; split; auto|].
  cbn [bind]. split; [discriminate | lra].
Qed.

(** C7. For a level in [[0, 90]], [__init__] succeeds, caches the
    contour evaluated once at that level, keeps [s] and [g], and the object
    satisfies the state invariant [lc_wf]. *)
Theorem init_ok (s g L : R) :
  0 <= L <= 90 -> exists lc, init s g L = Ok lc /\ lc_wf lc /\
    equal_loudness_contour L = Ok (hearing_threshold_contour lc) /\
    schwell_factor lc = s /\ compression_level lc = g.
Proof.
  intros HL.
  assert (E : equal_loudness_contour L = Ok (map (iso226_spl L) EQUAL_LOUDNESS_CONTOUR_PARAMS))
    by (unfold equal_loudness_contour; destruct (Rlt_dec L 0), (Rlt_dec 90 L);
        (lra || reflexivity)).
  unfold init. rewrite E. cbn [bind]. eexists; split; [reflexivity|].
  unfold lc_wf. cbn [equal_loudness_contour_freqs hearing_threshold_contour
                     schwell_factor compression_level].
  split; [split; [reflexivity | exists L; split; assumption]|].
  split; [reflexivity | split; reflexivity].
Qed.

(** ** The hearing threshold *)

Section ThresholdClaims.
Context `{BarkScale}.

(** C9. For every constructed compressor and every frequency vector,
    [hearing_threshold_at_freqs] returns one value per frequency, each a
    finite positive power (the spline never fails on the anchor grid and
    [10^(x/10)] is positive). *)
Theorem hearing_threshold_at_freqs_pos (lc : LoudnessCompressor) (bark_freqs : list R) :
  lc_wf lc -> exists v, hearing_threshold_at_freqs lc bark_freqs = Ok v /\
    length v = length bark_freqs /\ Forall (fun x => exists r, x = Fin r /\ 0 < r) v.
Proof.
  intros Hw. destruct (hearing_threshold_at_freqs_values lc bark_freqs Hw) as (sp & _ & E).
  eexists; split; [exact E|]. split; [apply length_map|].
  apply Forall_forall. intros x Hx. apply in_map_iff in Hx as (z & <- & _).
  eexists; split; [reflexivity | apply Rpower_pos].
Qed.

(** The spline passes through its control points, so at the anchors the
    threshold is [10^(c/10)] of the cached contour. *)
Lemma threshold_at_anchors_eq (lc : LoudnessCompressor) (bark_freqs : list R) :
  lc_wf lc -> map bark_to_hertz bark_freqs = anchor_freqs_R ->
  hearing_threshold_at_freqs lc bark_freqs =
    Ok (map (fun c => Fin (Rpower 10 (c / 10))) (hearing_threshold_contour lc)).
Proof.
  intros Hw Hb. destruct (lc_spline lc Hw) as [sp Hsp].
  pose proof Hsp as Hsp'. destruct Hw as [Hf _]. rewrite Hf in Hsp'.
  unfold hearing_threshold_at_freqs. rewrite Hsp. cbn [bind]. rewrite Hb.
  rewrite (cubic_spline_interpolates _ _ _ ltac:(rewrite length_anchor_freqs; lia) Hsp').
  rewrite map_map. f_equal. apply map_ext. intros c. apply xpow_pos. lra.
Qed.

(** C8. Interpolation identity: at Bark values that convert to
    the 29 anchor frequencies, the threshold is exactly [10^(c/10)] for the
    cached contour [c] (the spline passes through its control points). *)
Theorem hearing_threshold_at_anchors (lc : LoudnessCompressor) (bark_freqs : list R) :
  lc_wf lc -> map bark_to_hertz bark_freqs = anchor_freqs_R ->
  hearing_threshold_at_freqs lc bark_freqs =
    Ok (map (fun c => Fin (Rpower 10 (c / 10))) (hearing_threshold_contour lc)).
Proof. intros Hw Hb. exact (threshold_at_anchors_eq lc bark_freqs Hw Hb). Qed.

End ThresholdClaims.

(** ** Compression *)

Section CompressClaims.
Context `{BarkScale}.

(** C2. [compress] implements the specification: for a constructed
    compressor with [0 < s <= 1] and [g > 0], a transfer meeting its
    contract and a non-negative excitation, the threshold excitation [e0]
    is computed and positive; if the shapes of the excitation and of [e0]
    broadcast, the result has the broadcast shape and each element is
    [max(0, (e0/s)^g ((1 - s + s e/e0)^g - 1))] of the broadcast operands;
    otherwise torch raises [RuntimeError]. *)
Theorem compress_refines (lc : LoudnessCompressor) (e : tensor) (bark_freqs : list R)
  (tr : OuterToInnerTransfer) `{TransferPositive tr} :
  lc_wf lc -> 0 < schwell_factor lc <= 1 -> 0 < compression_level lc -> nonneg_tensor e ->
  exists e0, hearing_threshold_excitation lc bark_freqs tr = Ok e0 /\ pos_tensor e0 /\
    (forall r c, bdim (t_rows e) (t_rows e0) = Some r -> bdim (t_cols e) (t_cols e0) = Some c ->
       exists t, compress lc e bark_freqs tr = Ok t /\ t_rows t = r /\ t_cols t = c /\
         forall i j, (i < r)%nat -> (j < c)%nat ->
           exists x0 x, get e0 (bidx (t_rows e0) i) (bidx (t_cols e0) j) = Fin x0 /\
             get e (bidx (t_rows e) i) (bidx (t_cols e) j) = Fin x /\
             get t i j = Fin (loudness_spec (schwell_factor lc) (compression_level lc) x0 x)) /\
    (bdim (t_rows e) (t_rows e0) = None \/ bdim (t_cols e) (t_cols e0) = None ->
       compress lc e bark_freqs tr = Err RuntimeError).
Proof.
  intros Hw Hs Hg He.
  destruct (threshold_excitation_pos lc bark_freqs tr Hw) as (e0 & E0 & P0).
  exists e0. split; [exact E0|]. split; [exact P0|].
  unfold compress. rewrite E0. cbn [bind]. split.
  - intros r c Hr Hc.
    destruct (compress_tensor_spec _ _ e0 e r c Hs Hg P0 He Hr Hc)
      as (t & Et & _ & Rt & Ct & G).
    exists t. split; [exact Et|]. split; [exact Rt|]. split; [exact Ct|].
    intros i j Hi Hj. destruct (G i j Hi Hj) as (x0 & x & A & _ & B & _ & C).
    exists x0, x. auto.
  - apply compress_tensor_err.
Qed.

(** C1. Non-negativity of [compress]: under the same conditions,
    the threshold excitation [e0] is computed and, whenever the shapes of the
    excitation and [e0] broadcast, every element of the result is a finite
    non-negative number (never NaN, never infinite, never negative). *)
Theorem compress_nonneg (lc : LoudnessCompressor) (e : tensor) (bark_freqs : list R)
  (tr : OuterToInnerTransfer) `{TransferPositive tr} :
  lc_wf lc -> 0 < schwell_factor lc <= 1 -> 0 < compression_level lc -> nonneg_tensor e ->
  exists e0, hearing_threshold_excitation lc bark_freqs tr = Ok e0 /\
    forall r c, bdim (t_rows e) (t_rows e0) = Some r -> bdim (t_cols e) (t_cols e0) = Some c ->
    exists t, compress lc e bark_freqs tr = Ok t /\ nonneg_tensor t.
Proof.
  intros Hw Hs Hg He.
  destruct (threshold_excitation_pos lc bark_freqs tr Hw) as (e0 & E0 & P0).
  exists e0. split; [exact E0|]. intros r c Hr Hc.
  unfold compress. rewrite E0. cbn [bind].
  destruct (compress_tensor_spec _ _ e0 e r c Hs Hg P0 He Hr Hc)
    as (t & Et & Wt & Rt & Ct & G).
  exists t. split; [exact Et|]. split; [exact Wt|].
  intros i j Hi Hj. rewrite Rt in Hi. rewrite Ct in Hj.
  destruct (G i j Hi Hj) as (x0 & x & _ & _ & _ & _ & ->).
  eexists; split; [reflexivity | apply Rmax_r].
Qed.

(** C3. An excitation equal to the threshold excitation carries no
    loudness: [compress] applied to the threshold excitation [e0] itself
    returns a tensor of the shape of [e0] whose elements are all exactly
    [0]. *)
Theorem compress_at_threshold (lc : LoudnessCompressor) (bark_freqs : list R)
  (tr : OuterToInnerTransfer) `{TransferPositive tr} :
  lc_wf lc -> 0 < schwell_factor lc ->
  exists e0, hearing_threshold_excitation lc bark_freqs tr = Ok e0 /\
  exists t, compress lc e0 bark_freqs tr = Ok t /\
    t_rows t = t_rows e0 /\ t_cols t = t_cols e0 /\
    forall i j, (i < t_rows t)%nat -> (j < t_cols t)%nat -> get t i j = Fin 0.
Proof.
  intros Hw Hs.
  destruct (threshold_excitation_pos lc bark_freqs tr Hw) as (e0 & E0 & [W0 P0]).
  exists e0. split; [exact E0|].
  unfold compress. rewrite E0. cbn [bind].
  destruct (compress_tensor_elem (schwell_factor lc) (compression_level lc) e0 e0
              (t_rows e0) (t_cols e0) W0 W0 (bdim_same _) (bdim_same _))
    as (t & Et & _ & Rt & Ct & G).
  exists t. split; [exact Et|]. split; [exact Rt|]. split; [exact Ct|].
  intros i j Hi Hj. rewrite Rt in Hi. rewrite Ct in Hj.
  rewrite G by assumption. rewrite !bidx_id by assumption.
  destruct (P0 i j Hi Hj) as (x & -> & Hx).
  apply compress_elem_at_threshold; assumption.
Qed.

(** C28. Upper bound of [compress]: under the conditions of C1 and a
    compression level [g <= 1] (the code's default is [0.04]), whenever the
    shapes broadcast every element of the result is a finite number between
    [0] and [x^g], [x] the excitation element it is computed from: the
    compressed loudness never exceeds the power law of the excitation. *)
Theorem compress_bounded (lc : LoudnessCompressor) (e : tensor) (bark_freqs : list R)
  (tr : OuterToInnerTransfer) `{TransferPositive tr} :
  lc_wf lc -> 0 < schwell_factor lc <= 1 -> 0 < compression_level lc <= 1 -> nonneg_tensor e ->
  exists e0, hearing_threshold_excitation lc bark_freqs tr = Ok e0 /\
    forall r c, bdim (t_rows e) (t_rows e0) = Some r -> bdim (t_cols e) (t_cols e0) = Some c ->
    exists t, compress lc e bark_freqs tr = Ok t /\
      forall i j, (i < r)%nat -> (j < c)%nat ->
        exists v x, get t i j = Fin v /\ get e (bidx (t_rows e) i) (bidx (t_cols e) j) = Fin x /\
          0 <= v <= pw x (compression_level lc).
Proof.
  intros Hw Hs Hg He.
  destruct (threshold_excitation_pos lc bark_freqs tr Hw) as (e0 & E0 & P0).
  exists e0. split; [exact E0|]. intros r c Hr Hc.
  unfold compress. rewrite E0. cbn [bind].
  destruct (compress_tensor_spec (schwell_factor lc) (compression_level lc) e0 e r c
              Hs ltac:(lra) P0 He Hr Hc)
    as (t & Et & _ & _ & _ & G).
  exists t. split; [exact Et|]. intros i j Hi Hj.
  destruct (G i j Hi Hj) as (x0 & x & _ & Hx0 & Ex & Hx & ->).
  exists (loudness_spec (schwell_factor lc) (compression_level lc) x0 x), x.
  split; [reflexivity|]. split; [exact Ex|].
  split; [apply Rmax_r | apply loudness_spec_le_pw; assumption].
Qed.

End CompressClaims.

(** ** Witnesses

    At the default construction ([init_default]), with a Bark scale that
    returns its argument and the identity transfer (which meets
    [TransferPositive]). *)

Definition bark_as_hertz : BarkScale := {| bark_to_hertz := fun z => z |}.

Definition transfer_id : OuterToInnerTransfer :=
  {| transfer_signal_with_freqs := fun sig _ => sig |}.

#[export] Instance transfer_id_pos : TransferPositive transfer_id.
Proof. intros sig freqs Hs. exact Hs. Qed.

Definition lc_default : LoudnessCompressor :=
  mk_compressor anchor_freqs_R
    (map (iso226_spl (Q2R PHON_HEARING_THRESHOLD)) EQUAL_LOUDNESS_CONTOUR_PARAMS) 0.5 0.04.

Lemma init_default_ok : init_default = Ok lc_default.
Proof.
  unfold init_default, init, equal_loudness_contour, PHON_HEARING_THRESHOLD.
  destruct (Rlt_dec _ 0); [lra|]. destruct (Rlt_dec 90 _); [lra|]. reflexivity.
Qed.

Lemma lc_default_wf : lc_wf lc_default.
Proof.
  split; [reflexivity|]. exists (Q2R PHON_HEARING_THRESHOLD).
  unfold PHON_HEARING_THRESHOLD. split; [lra|].
  unfold equal_loudness_contour. destruct (Rlt_dec _ 0); [lra|].
  destruct (Rlt_dec 90 _); [lra | reflexivity].
Qed.

Definition spectrum_1x1 : tensor := mk_tensor 1 1 [[Fin 4]].

Lemma spectrum_1x1_nonneg : nonneg_tensor spectrum_1x1.
Proof.
  split; [split; [reflexivity | repeat constructor]|].
  intros i j Hi Hj. cbn in Hi, Hj. assert (i = 0%nat) as -> by lia.
  assert (j = 0%nat) as -> by lia. exists 4. split; [reflexivity | lra].
Qed.

Lemma init_ok_witness :
  exists lc, init 0.5 0.04 (Q2R PHON_HEARING_THRESHOLD) = Ok lc /\ lc_wf lc /\
    equal_loudness_contour (Q2R PHON_HEARING_THRESHOLD) = Ok (hearing_threshold_contour lc) /\
    schwell_factor lc = 0.5 /\ compression_level lc = 0.04.
Proof. apply init_ok. unfold PHON_HEARING_THRESHOLD. lra. Defined.

Lemma hearing_threshold_at_freqs_pos_witness :
  exists v, @hearing_threshold_at_freqs bark_as_hertz lc_default [1000] = Ok v /\
    length v = length [1000] /\ Forall (fun x => exists r, x = Fin r /\ 0 < r) v.
Proof. apply (@hearing_threshold_at_freqs_pos bark_as_hertz). exact lc_default_wf. Defined.

Lemma hearing_threshold_at_anchors_witness :
  @hearing_threshold_at_freqs bark_as_hertz lc_default anchor_freqs_R =
    Ok (map (fun c => Fin (Rpower 10 (c / 10))) (hearing_threshold_contour lc_default)).
Proof.
  apply (@hearing_threshold_at_anchors bark_as_hertz);
    [exact lc_default_wf | apply map_id].
Defined.

Lemma compress_refines_witness :
  exists e0, @hearing_threshold_excitation bark_as_hertz lc_default [1000] transfer_id = Ok e0 /\
    pos_tensor e0 /\
    (forall r c, bdim (t_rows spectrum_1x1) (t_rows e0) = Some r ->
       bdim (t_cols spectrum_1x1) (t_cols e0) = Some c ->
       exists t, @compress bark_as_hertz lc_default spectrum_1x1 [1000] transfer_id = Ok t /\
         t_rows t = r /\ t_cols t = c /\
         forall i j, (i < r)%nat -> (j < c)%nat ->
           exists x0 x, get e0 (bidx (t_rows e0) i) (bidx (t_cols e0) j) = Fin x0 /\
             get spectrum_1x1 (bidx (t_rows spectrum_1x1) i) (bidx (t_cols spectrum_1x1) j) = Fin x /\
             get t i j = Fin (loudness_spec (schwell_factor lc_default)
                                           (compression_level lc_default) x0 x)) /\
    (bdim (t_rows spectrum_1x1) (t_rows e0) = None \/
     bdim (t_cols spectrum_1x1) (t_cols e0) = None ->
       @compress bark_as_hertz lc_default spectrum_1x1 [1000] transfer_id = Err RuntimeError).
Proof.
  apply (@compress_refines bark_as_hertz lc_default spectrum_1x1 [1000] transfer_id _);
    [exact lc_default_wf | cbn; lra | cbn; lra | exact spectrum_1x1_nonneg].
Defined.

Lemma compress_nonneg_witness :
  exists e0, @hearing_threshold_excitation bark_as_hertz lc_default [1000] transfer_id = Ok e0 /\
    forall r c, bdim (t_rows spectrum_1x1) (t_rows e0) = Some r ->
    bdim (t_cols spectrum_1x1) (t_cols e0) = Some c ->
    exists t, @compress bark_as_hertz lc_default spectrum_1x1 [1000] transfer_id = Ok t /\
      nonneg_tensor t.
Proof.
  apply (@compress_nonneg bark_as_hertz lc_default spectrum_1x1 [1000] transfer_id _);
    [exact lc_default_wf | cbn; lra | cbn; lra | exact spectrum_1x1_nonneg].
Defined.

Lemma compress_at_threshold_witness :
  exists e0, @hearing_threshold_excitation bark_as_hertz lc_default [1000] transfer_id = Ok e0 /\
  exists t, @compress bark_as_hertz lc_default e0 [1000] transfer_id = Ok t /\
    t_rows t = t_rows e0 /\ t_cols t = t_cols e0 /\
    forall i j, (i < t_rows t)%nat -> (j < t_cols t)%nat -> get t i j = Fin 0.
Proof.
  apply (@compress_at_threshold bark_as_hertz lc_default [1000] transfer_id _);
    [exact lc_default_wf | cbn; lra].
Defined.

Lemma compress_bounded_witness :
  exists e0, @hearing_threshold_excitation bark_as_hertz lc_default [1000] transfer_id = Ok e0 /\
    forall r c, bdim (t_rows spectrum_1x1) (t_rows e0) = Some r ->
      bdim (t_cols spectrum_1x1) (t_cols e0) = Some c ->
    exists t, @compress bark_as_hertz lc_default spectrum_1x1 [1000] transfer_id = Ok t /\
      forall i j, (i < r)%nat -> (j < c)%nat ->
        exists v x, get t i j = Fin v /\
          get spectrum_1x1 (bidx (t_rows spectrum_1x1) i) (bidx (t_cols spectrum_1x1) j) = Fin x /\
          0 <= v <= pw x (compression_level lc_default).
Proof.
  apply (@compress_bounded bark_as_hertz lc_default spectrum_1x1 [1000] transfer_id _);
    [exact lc_default_wf | cbn; lra | cbn; lra | exact spectrum_1x1_nonneg].
Defined.

(** ** The default threshold at 1 kHz *)

Lemma anchor_1000 : nth 17 anchor_freqs_R 0 = 1000.
Proof.
  unfold anchor_freqs_R, contour_freqs, EQUAL_LOUDNESS_CONTOUR_PARAMS.
  cbn [map nth p_f]. unfold Q2R; simpl. lra.
Qed.

(** C32. The default compressor's threshold at 1 kHz: for the object built
    with the default arguments and any Bark value that converts to
    1000 Hz, [hearing_threshold_at_freqs] returns one finite power [v]
    whose level [10 log10 v] is within [0.015] dB of the hearing threshold
    level [PHON_HEARING_THRESHOLD = 3.539] (the spline through the cached
    contour, at an anchor, and the 1 kHz calibration of the contour). *)
Theorem default_threshold_1kHz `{BarkScale} (lc : LoudnessCompressor) (b : R) :
  init_default = Ok lc -> bark_to_hertz b = 1000 ->
  exists v, hearing_threshold_at_freqs lc [b] = Ok [Fin v] /\
    Rabs (10 * log10 v - Q2R PHON_HEARING_THRESHOLD) < 0.015.
Proof.
  intros E Hb. rewrite init_default_ok in E.
  assert (lc = lc_default) as -> by congruence.
  destruct (hearing_threshold_at_freqs_values lc_default [b] lc_default_wf) as (sp & Hsp & Ev).
  cbn [equal_loudness_contour_freqs hearing_threshold_contour lc_default] in Hsp.
  rewrite Ev. cbn [map]. eexists; split; [reflexivity|].
  rewrite log10_Rpower_10, Hb, <- anchor_1000.
  pose proof (spline_value_at_knot _ _ _ 17 ltac:(rewrite length_anchor_freqs; lia) Hsp
                ltac:(rewrite length_anchor_freqs; lia)) as K.
  change (@f0 R R_spline_ops) with 0 in K. rewrite K.
  rewrite (nth_map_lt _ _ _ (mk_param 0 0 0 0)) by (cbn; lia).
  pose proof (spl_1000_calibrated (Q2R PHON_HEARING_THRESHOLD)
                ltac:(unfold PHON_HEARING_THRESHOLD, Q2R; simpl; lra)).
  replace (10 * (iso226_spl (Q2R PHON_HEARING_THRESHOLD)
                   (nth 17 EQUAL_LOUDNESS_CONTOUR_PARAMS (mk_param 0 0 0 0)) / 10))
    with (iso226_spl (Q2R PHON_HEARING_THRESHOLD)
            (nth 17 EQUAL_LOUDNESS_CONTOUR_PARAMS (mk_param 0 0 0 0))) by field.
  lra.
Qed.

Lemma default_threshold_1kHz_witness :
  exists v, @hearing_threshold_at_freqs bark_as_hertz lc_default [1000] = Ok [Fin v] /\
    Rabs (10 * log10 v - Q2R PHON_HEARING_THRESHOLD) < 0.015.
Proof.
  apply (@default_threshold_1kHz bark_as_hertz lc_default 1000);
    [exact init_default_ok | reflexivity].
Defined.
