(* ===== verification/CompressorLevel.v ===== *)
(** * Raising the hearing-threshold level of [__init__]

    The components of [loudness.py] compose along one path: the level
    given to [__init__] (line 56) fixes the cached contour
    ([equal_loudness_contour], lines 60-76), the spline turns it into
    threshold powers at the anchors (lines 78-85), the transfer into the
    threshold excitation (lines 90-95), and line 109 compares the
    excitation with it.  This file follows a change of the level along that
    path: a compressor built at a higher level has a higher contour at
    every anchor ([Contour.v]), hence higher threshold powers there
    ([Compressor.v]); a transfer that preserves the order of its signals
    ([TransferMonotone], the contract a gain per band meets) gives a higher
    threshold excitation; and a higher threshold never gives more loudness
    for [g <= 1] ([Compress.v]).

    Theorem: two compressors that differ only in the level, evaluated at
    the anchor frequencies on the same excitation, return tensors of the
    same shape, the one with the higher level element-wise at most the
    other. *)

From Stdlib Require Import List Reals Lra Lia.
From S2P Require Import Prelude ContourTable Contour FloatExt Compress Tensor Spline SplineReal Compressor.
Import ListNotations.
Open Scope R_scope.
Local Open Scope loud_scope.

(** ** The order of tensors and the transfer's order contract *)

(** Two tensors of one shape whose elements are finite and ordered. *)
Definition tensor_le (a b : tensor) : Prop :=
  wf a /\ wf b /\ t_rows a = t_rows b /\ t_cols a = t_cols b /\
  forall i j, (i < t_rows a)%nat -> (j < t_cols a)%nat ->
    exists x y, get a i j = Fin x /\ get b i j = Fin y /\ x <= y.

(** [transfer_signal_with_freqs] preserves the order of positive signals
    of one shape. *)
Class TransferMonotone (tr : OuterToInnerTransfer) : Prop :=
  transfer_mono : forall sig1 sig2 freqs, pos_tensor sig1 -> pos_tensor sig2 ->
    tensor_le sig1 sig2 ->
    tensor_le (transfer_signal_with_freqs tr sig1 freqs) (transfer_signal_with_freqs tr sig2 freqs).

(** ** Lemmas along the path *)

Lemma iso226_spl_le (L1 L2 : R) (p : contour_param) :
  row_bounds p -> 0 <= L1 <= L2 -> iso226_spl L1 p <= iso226_spl L2 p.
Proof.
  intros Hp HL. destruct (Req_dec_T L1 L2) as [->|Hne]; [lra|].
  left. apply iso226_spl_lt; [exact Hp | lra | lra].
Qed.

Lemma nth_map_Fin {A : Type} (f : A -> R) (l : list A) (a0 : A) (i : nat) :
  (i < length l)%nat -> nth i (map (fun a => Fin (f a)) l) NaN = Fin (f (nth i l a0)).
Proof.
  intros Hi. rewrite (nth_indep _ NaN (Fin (f a0))) by (rewrite length_map; exact Hi).
  apply (map_nth (fun a => Fin (f a))).
Qed.

(** Columns of finite values ordered pointwise are ordered tensors. *)
Lemma unsqueeze1_map_le {A : Type} (f1 f2 : A -> R) (l : list A) :
  Forall (fun a => f1 a <= f2 a) l ->
  tensor_le (unsqueeze1 (map (fun a => Fin (f1 a)) l)) (unsqueeze1 (map (fun a => Fin (f2 a)) l)).
Proof.
  intros Hl. split; [apply wf_unsqueeze1|]. split; [apply wf_unsqueeze1|].
  cbn [unsqueeze1 t_rows t_cols]. rewrite !length_map. split; [reflexivity|]. split; [reflexivity|].
  intros i j Hi Hj. assert (j = 0%nat) as -> by lia.
  destruct l as [|a0 l']; [cbn in Hi; lia|].
  rewrite !get_unsqueeze1 by (rewrite length_map; exact Hi).
  rewrite !(nth_map_Fin _ _ a0 i Hi).
  eexists _, _. split; [reflexivity|]. split; [reflexivity|].
  rewrite Forall_forall in Hl. apply Hl, nth_In, Hi.
Qed.

Lemma Forall_Fin_pos {A : Type} (f : A -> R) (l : list A) :
  (forall a, 0 < f a) -> Forall (fun x => exists r, x = Fin r /\ 0 < r) (map (fun a => Fin (f a)) l).
Proof.
  intros Hf. apply Forall_forall. intros x Hx. apply in_map_iff in Hx as (a & <- & _).
  eexists; split; [reflexivity | apply Hf].
Qed.

Section Level.
Context `{BarkScale}.

(** The threshold excitation of a constructed compressor at the anchors:
    the transfer of the column [10^(spl/10)] of the contour at its level. *)
Lemma excitation_at_anchors (s g L : R) (lc : LoudnessCompressor) (bark_freqs : list R)
  (tr : OuterToInnerTransfer) :
  init s g L = Ok lc -> map bark_to_hertz bark_freqs = anchor_freqs_R ->
  hearing_threshold_excitation lc bark_freqs tr =
    Ok (transfer_signal_with_freqs tr
          (unsqueeze1 (map (fun p => Fin (Rpower 10 (iso226_spl L p / 10)))
                           EQUAL_LOUDNESS_CONTOUR_PARAMS)) bark_freqs).
Proof.
  intros E Hb. destruct (init_inv s g L lc E) as (_ & Hw & Hc & _ & _).
  unfold hearing_threshold_excitation. rewrite (threshold_at_anchors_eq lc bark_freqs Hw Hb).
  cbn [bind]. rewrite Hc, map_map. reflexivity.
Qed.

(** Two positive threshold excitations in order give ordered results of
    [compress_tensor] on the same excitation, for [g <= 1]. *)
Lemma compress_tensor_threshold_le (s g : R) (e01 e02 e : tensor) (r c : nat) :
  0 < s <= 1 -> 0 < g <= 1 -> pos_tensor e01 -> pos_tensor e02 -> tensor_le e01 e02 ->
  nonneg_tensor e ->
  bdim (t_rows e) (t_rows e01) = Some r -> bdim (t_cols e) (t_cols e01) = Some c ->
  exists t1 t2, compress_tensor s g e01 e = Ok t1 /\ compress_tensor s g e02 e = Ok t2 /\
    t_rows t1 = r /\ t_rows t2 = r /\ t_cols t1 = c /\ t_cols t2 = c /\
    forall i j, (i < r)%nat -> (j < c)%nat ->
      exists v1 v2, get t1 i j = Fin v1 /\ get t2 i j = Fin v2 /\ v2 <= v1.
Proof.
  intros Hs Hg P1 P2 (_ & _ & Er & Ec & Hle) He Hr Hc.
  destruct (compress_tensor_spec s g e01 e r c Hs ltac:(lra) P1 He Hr Hc)
    as (t1 & E1 & _ & R1 & C1 & G1).
  rewrite Er in Hr. rewrite Ec in Hc.
  destruct (compress_tensor_spec s g e02 e r c Hs ltac:(lra) P2 He Hr Hc)
    as (t2 & E2 & _ & R2 & C2 & G2).
  exists t1, t2. repeat (split; [assumption|]). intros i j Hi Hj.
  destruct (G1 i j Hi Hj) as (x01 & x & A1 & Hx01 & B1 & Hx & V1).
  destruct (G2 i j Hi Hj) as (x02 & x' & A2 & _ & B2 & _ & V2).
  rewrite <- Er, <- Ec in A2.
  destruct (Hle (bidx (t_rows e01) i) (bidx (t_cols e01) j)) as (y1 & y2 & F1 & F2 & Hy);
    [rewrite <- Er in Hr; apply (bidx_lt _ _ _ i (bdim_absorb _ _ _ Hr) Hi)
    |rewrite <- Ec in Hc; apply (bidx_lt _ _ _ j (bdim_absorb _ _ _ Hc) Hj)|].
  assert (y1 = x01) as -> by congruence. assert (y2 = x02) as -> by congruence.
  assert (x' = x) as -> by congruence.
  exists (loudness_spec s g x01 x), (loudness_spec s g x02 x).
  split; [exact V1|]. split; [exact V2|].
  apply loudness_spec_threshold_antitone; [lra | exact Hs | exact Hg | exact Hx].
Qed.

End Level.

(** ** Theorem *)

Section LevelClaims.
Context `{BarkScale}.

(** C24. Raising the hearing-threshold level never raises the loudness at
    the anchor bands: for [0 < s <= 1], [0 < g <= 1], levels [L1 <= L2]
    accepted by [__init__], Bark values that convert to the 29 anchor
    frequencies, a transfer meeting its positivity and order contracts and
    a non-negative excitation, both threshold excitations are computed,
    of one shape; whenever it broadcasts with the excitation, both calls
    of [compress] succeed with the broadcast shape, and every element of
    the result at [L2] is a finite number at most the one at [L1]. *)
Theorem compress_level_antitone (tr : OuterToInnerTransfer) `{TransferPositive tr}
  `{TransferMonotone tr} (s g L1 L2 : R) (lc1 lc2 : LoudnessCompressor)
  (e : tensor) (bark_freqs : list R) :
  0 < s <= 1 -> 0 < g <= 1 -> L1 <= L2 ->
  init s g L1 = Ok lc1 -> init s g L2 = Ok lc2 ->
  map bark_to_hertz bark_freqs = anchor_freqs_R -> nonneg_tensor e ->
  exists e01 e02, hearing_threshold_excitation lc1 bark_freqs tr = Ok e01 /\
    hearing_threshold_excitation lc2 bark_freqs tr = Ok e02 /\
    t_rows e01 = t_rows e02 /\ t_cols e01 = t_cols e02 /\
    forall r c, bdim (t_rows e) (t_rows e01) = Some r -> bdim (t_cols e) (t_cols e01) = Some c ->
      exists t1 t2, compress lc1 e bark_freqs tr = Ok t1 /\ compress lc2 e bark_freqs tr = Ok t2 /\
        t_rows t1 = r /\ t_rows t2 = r /\ t_cols t1 = c /\ t_cols t2 = c /\
        forall i j, (i < r)%nat -> (j < c)%nat ->
          exists v1 v2, get t1 i j = Fin v1 /\ get t2 i j = Fin v2 /\ v2 <= v1.
Proof.
  intros Hs Hg HL E1 E2 Hb He.
  destruct (init_inv s g L1 lc1 E1) as (HL1 & _ & _ & S1 & G1).
  destruct (init_inv s g L2 lc2 E2) as (HL2 & _ & _ & S2 & G2).
  set (sig k := unsqueeze1 (map (fun p => Fin (Rpower 10 (iso226_spl k p / 10)))
                                EQUAL_LOUDNESS_CONTOUR_PARAMS)).
  assert (Psig : forall k, pos_tensor (sig k))
    by (intros k; apply pos_unsqueeze1, Forall_Fin_pos; intros p; apply Rpower_pos).
  assert (Lsig : tensor_le (sig L1) (sig L2)).
  { apply unsqueeze1_map_le. eapply Forall_impl; [|exact table_row_bounds].
    intros p Hp. apply Rle_Rpower; [lra|].
    apply Rmult_le_compat_r; [lra | apply iso226_spl_le; [exact Hp | lra]]. }
  pose proof (transfer_mono _ _ bark_freqs (Psig L1) (Psig L2) Lsig) as Lt.
  exists (transfer_signal_with_freqs tr (sig L1) bark_freqs),
         (transfer_signal_with_freqs tr (sig L2) bark_freqs).
  split; [apply (excitation_at_anchors s g L1); assumption|].
  split; [apply (excitation_at_anchors s g L2); assumption|].
  destruct Lt as (W1 & W2 & Er & Ec & Hle) eqn:Lt'.
  split; [exact Er|]. split; [exact Ec|]. intros r c Hr Hc.
  unfold compress. rewrite (excitation_at_anchors s g L1 lc1 bark_freqs tr E1 Hb),
    (excitation_at_anchors s g L2 lc2 bark_freqs tr E2 Hb). cbn [bind].
  rewrite S1, G1, S2, G2.
  apply compress_tensor_threshold_le; try assumption; apply transfer_pos, Psig.
Qed.

End LevelClaims.

(** The identity transfer meets the order contract. *)
#[export] Instance transfer_id_mono : TransferMonotone transfer_id.
Proof. intros sig1 sig2 freqs _ _ Hle. exact Hle. Qed.

(** The default compressor against one built at [10] phon, at the anchors,
    on a [1 x 1] excitation. *)
Lemma compress_level_antitone_witness :
  exists lc1 lc2, init 0.5 0.04 (Q2R PHON_HEARING_THRESHOLD) = Ok lc1 /\ init 0.5 0.04 10 = Ok lc2 /\
  exists e01 e02, @hearing_threshold_excitation bark_as_hertz lc1 anchor_freqs_R transfer_id = Ok e01 /\
    @hearing_threshold_excitation bark_as_hertz lc2 anchor_freqs_R transfer_id = Ok e02 /\
    t_rows e01 = t_rows e02 /\ t_cols e01 = t_cols e02 /\
    forall r c, bdim (t_rows spectrum_1x1) (t_rows e01) = Some r ->
      bdim (t_cols spectrum_1x1) (t_cols e01) = Some c ->
      exists t1 t2, @compress bark_as_hertz lc1 spectrum_1x1 anchor_freqs_R transfer_id = Ok t1 /\
        @compress bark_as_hertz lc2 spectrum_1x1 anchor_freqs_R transfer_id = Ok t2 /\
        t_rows t1 = r /\ t_rows t2 = r /\ t_cols t1 = c /\ t_cols t2 = c /\
        forall i j, (i < r)%nat -> (j < c)%nat ->
          exists v1 v2, get t1 i j = Fin v1 /\ get t2 i j = Fin v2 /\ v2 <= v1.
Proof.
  assert (Ei : forall L, 0 <= L <= 90 -> init 0.5 0.04 L =
    Ok (mk_compressor anchor_freqs_R (map (iso226_spl L) EQUAL_LOUDNESS_CONTOUR_PARAMS) 0.5 0.04)).
  { intros L HL. unfold init, equal_loudness_contour.
    destruct (Rlt_dec L 0), (Rlt_dec 90 L); (lra || reflexivity). }
  assert (H1 : 0 <= Q2R PHON_HEARING_THRESHOLD <= 90) by (unfold PHON_HEARING_THRESHOLD; lra).
  eexists _, _. split; [exact (Ei _ H1)|]. split; [exact (Ei 10 ltac:(lra))|].
  apply (@compress_level_antitone bark_as_hertz transfer_id _ _ 0.5 0.04
           (Q2R PHON_HEARING_THRESHOLD) 10);
    [lra | lra | unfold PHON_HEARING_THRESHOLD; lra | exact (Ei _ H1) | exact (Ei 10 ltac:(lra))
    | apply map_id | exact spectrum_1x1_nonneg].
Defined.
