(* ===== verification/CompressorFloat.v ===== *)
(** * The compressor on float values: scipy's finiteness checks

    [Compressor.v] keeps the hearing-threshold contour as real numbers,
    which a level in [[0, 90]] guarantees.  Python passes the level as a
    float, and a NaN level passes the guard of [equal_loudness_contour]
    (line 63): [__init__] then succeeds and stores 29 NaN values.  This
    file follows the object on floats with their special values ([xr]):
    - [cubic_spline_f] is [scipy.interpolate.CubicSpline] on float arrays:
      [_cubic.prepare_input] checks the lengths, then that [x] and [y]
      hold only finite values, each failure a [ValueError], before the fit
      of [Spline.v];
    - [LoudnessCompressorF], [init_f], [hearing_threshold_at_freqs_f],
      [hearing_threshold_excitation_f] and [compress_f] are the object of
      lines 46-110 with the contour kept as floats.

    Lemmas: an object built from a finite level is the [lift] of the real
    object of [Compressor.v], and the methods of a lifted object return
    what the real methods return.  Theorem: an object built from a NaN
    level is accepted by [__init__], and its
    first use fails with [ValueError] inside scipy, in
    [hearing_threshold_at_freqs] and so in [compress]: the error is
    deferred from construction to the first call. *)

From Stdlib Require Import List Reals Lra Lia.
From S2P Require Import Prelude ContourTable Contour FloatExt ContourFloat Tensor Spline SplineReal Compressor.
Import ListNotations.
Open Scope R_scope.
Local Open Scope loud_scope.

(** ** scipy's [CubicSpline] on float arrays *)

(** The value of a float as a number, once it is known to be finite. *)
Definition fin_val (a : xr) : R := match a with Fin x => x | _ => 0 end.

(** [CubicSpline.__init__] through [prepare_input]: fewer than two points,
    lengths that differ, a non-finite [x] and a non-finite [y] each raise
    [ValueError], in that order; finite data go on to the fit. *)
Definition cubic_spline_f (xs ys : list xr) : result spline :=
  if Nat.ltb (length xs) 2 then Err ValueError
  else if negb (Nat.eqb (length ys) (length xs)) then Err ValueError
  else if negb (forallb is_fin xs) then Err ValueError
  else if negb (forallb is_fin ys) then Err ValueError
  else cubic_spline (map fin_val xs) (map fin_val ys).

(** ** The object on floats *)

Record LoudnessCompressorF : Type := mk_compressor_f {
  equal_loudness_contour_freqs_f : list xr;
  hearing_threshold_contour_f : list xr;
  schwell_factor_f : R;
  compression_level_f : R
}.

(** [__init__], lines 47-58, with the level a float. *)
Definition init_f (schwell_factor compression_level : R) (hearing_threshold : xr)
  : result LoudnessCompressorF :=
  let freqs := map Fin anchor_freqs_R in
  let* contour := equal_loudness_contour_f hearing_threshold in
  Ok (mk_compressor_f freqs contour schwell_factor compression_level).

Section MethodsF.
Context `{BarkScale}.

(** [hearing_threshold_at_freqs], lines 78-85. *)
Definition hearing_threshold_at_freqs_f (lc : LoudnessCompressorF) (bark_freqs : list R)
  : result (list xr) :=
  let hertz_freqs := map bark_to_hertz bark_freqs in
  let* interpolator :=
    cubic_spline_f (equal_loudness_contour_freqs_f lc) (hearing_threshold_contour_f lc) in
  let threshold_at_freqs := ppoly_eval interpolator hertz_freqs in
  Ok (map (fun v => match v with
                    | Some x => xpow (Fin 10) (x / 10)
                    | None => NaN
                    end) threshold_at_freqs).

(** [hearing_threshold_excitation], lines 90-95. *)
Definition hearing_threshold_excitation_f (lc : LoudnessCompressorF) (bark_freqs : list R)
  (transfer : OuterToInnerTransfer) : result tensor :=
  let* threshold_at_freqs := hearing_threshold_at_freqs_f lc bark_freqs in
  Ok (transfer_signal_with_freqs transfer (unsqueeze1 threshold_at_freqs) bark_freqs).

(** [compress], lines 97-110. *)
Definition compress_f (lc : LoudnessCompressorF) (power_spectrum : tensor)
  (bark_freqs : list R) (transfer : OuterToInnerTransfer) : result tensor :=
  let* e0 := hearing_threshold_excitation_f lc bark_freqs transfer in
  compress_tensor (schwell_factor_f lc) (compression_level_f lc) e0 power_spectrum.

End MethodsF.

(** The float object holding the values of a real one. *)
Definition lift (lc : LoudnessCompressor) : LoudnessCompressorF :=
  mk_compressor_f (map Fin (equal_loudness_contour_freqs lc))
    (map Fin (hearing_threshold_contour lc)) (schwell_factor lc) (compression_level lc).

(** ** The float front end of the fit *)

Lemma forallb_is_fin_map (l : list R) : forallb is_fin (map Fin l) = true.
Proof. induction l as [|x l IH]; cbn; [reflexivity | exact IH]. Qed.

Lemma map_fin_val_Fin (l : list R) : map fin_val (map Fin l) = l.
Proof. rewrite map_map. apply map_id. Qed.

(** On finite data the checks of [prepare_input] pass and the float fit is
    the fit of [Spline.v]. *)
Lemma cubic_spline_f_fin (xs ys : list R) :
  cubic_spline_f (map Fin xs) (map Fin ys) = cubic_spline xs ys.
Proof.
  unfold cubic_spline_f. rewrite !length_map, !forallb_is_fin_map, !map_fin_val_Fin.
  cbn [negb]. unfold cubic_spline.
  destruct (Nat.ltb (length xs) 2), (negb (Nat.eqb (length ys) (length xs))); reflexivity.
Qed.

(** A NaN or an infinity in [y] makes the fit raise [ValueError], whatever
    the knots. *)
Lemma cubic_spline_f_nonfin (xs ys : list xr) :
  forallb is_fin ys = false -> cubic_spline_f xs ys = Err ValueError.
Proof.
  intros Hy. unfold cubic_spline_f. rewrite Hy.
  destruct (Nat.ltb (length xs) 2), (negb (Nat.eqb (length ys) (length xs))),
    (negb (forallb is_fin xs)); reflexivity.
Qed.

(** ** Construction on special levels *)

Lemma init_f_fin (s g l : R) : init_f s g (Fin l) = rmap lift (init s g l).
Proof.
  unfold init_f, init. rewrite equal_loudness_contour_f_fin.
  destruct (equal_loudness_contour l); reflexivity.
Qed.

Lemma init_f_inf (s g : R) : init_f s g PInf = Err ValueError /\ init_f s g NInf = Err ValueError.
Proof. split; reflexivity. Qed.

Lemma init_f_nan (s g : R) :
  init_f s g NaN = Ok (mk_compressor_f (map Fin anchor_freqs_R) (repeat NaN 29) s g).
Proof. reflexivity. Qed.

(** ** The methods of a lifted object *)

Section LiftF.
Context `{BarkScale}.

Lemma hearing_threshold_at_freqs_f_lift (lc : LoudnessCompressor) (bark_freqs : list R) :
  hearing_threshold_at_freqs_f (lift lc) bark_freqs = hearing_threshold_at_freqs lc bark_freqs.
Proof.
  unfold hearing_threshold_at_freqs_f, hearing_threshold_at_freqs, lift.
  cbn [equal_loudness_contour_freqs_f hearing_threshold_contour_f].
  rewrite cubic_spline_f_fin. reflexivity.
Qed.

Lemma hearing_threshold_excitation_f_lift (lc : LoudnessCompressor) (bark_freqs : list R)
  (transfer : OuterToInnerTransfer) :
  hearing_threshold_excitation_f (lift lc) bark_freqs transfer =
  hearing_threshold_excitation lc bark_freqs transfer.
Proof.
  unfold hearing_threshold_excitation_f, hearing_threshold_excitation.
  rewrite hearing_threshold_at_freqs_f_lift. reflexivity.
Qed.

Lemma compress_f_lift (lc : LoudnessCompressor) (power_spectrum : tensor)
  (bark_freqs : list R) (transfer : OuterToInnerTransfer) :
  compress_f (lift lc) power_spectrum bark_freqs transfer =
  compress lc power_spectrum bark_freqs transfer.
Proof.
  unfold compress_f, compress. rewrite hearing_threshold_excitation_f_lift. reflexivity.
Qed.

(** An error of [hearing_threshold_at_freqs] is the error of [compress]. *)
Lemma compress_f_err (lc : LoudnessCompressorF) (power_spectrum : tensor)
  (bark_freqs : list R) (transfer : OuterToInnerTransfer) (e : py_error) :
  hearing_threshold_at_freqs_f lc bark_freqs = Err e ->
  compress_f lc power_spectrum bark_freqs transfer = Err e.
Proof.
  intros Hs. unfold compress_f, hearing_threshold_excitation_f. rewrite Hs. reflexivity.
Qed.

End LiftF.

(** ** Theorems *)

Section FloatClaims.
Context `{BarkScale}.

(** C37. Every object that [__init__] accepts on a float level comes from
    a finite level in [[0, 90]], and then [hearing_threshold_at_freqs]
    never fails; or it comes from a NaN level, and then the first call of
    [hearing_threshold_at_freqs], and so of [compress], raises [ValueError]
    from scipy's check that [y] is finite: the error the guard of line 63
    misses is deferred from construction to the first use. *)
Theorem init_f_deferred_error (s g : R) (L : xr) (lc : LoudnessCompressorF) :
  init_f s g L = Ok lc ->
  (exists l, L = Fin l /\ 0 <= l <= 90 /\
     forall bark_freqs, exists v, hearing_threshold_at_freqs_f lc bark_freqs = Ok v) \/
  (L = NaN /\ forall bark_freqs transfer power_spectrum,
     hearing_threshold_at_freqs_f lc bark_freqs = Err ValueError /\
     compress_f lc power_spectrum bark_freqs transfer = Err ValueError).
Proof.
  destruct L as [l| | |]; intros E.
  - left. rewrite init_f_fin in E. unfold init in E.
    destruct (equal_loudness_contour l) as [c|e] eqn:Ec; cbn [bind rmap] in E; [|discriminate].
    injection E as <-. exists l. split; [reflexivity|]. split.
    + unfold equal_loudness_contour in Ec.
      destruct (Rlt_dec l 0), (Rlt_dec 90 l); try discriminate; lra.
    + intros bark_freqs. rewrite hearing_threshold_at_freqs_f_lift.
      unfold hearing_threshold_at_freqs.
      cbn [equal_loudness_contour_freqs hearing_threshold_contour].
      destruct (anchor_spline_ok c (equal_loudness_contour_length l c Ec)) as [sp ->].
      eexists; reflexivity.
  - rewrite (proj1 (init_f_inf s g)) in E. discriminate.
  - rewrite (proj2 (init_f_inf s g)) in E. discriminate.
  - right. rewrite init_f_nan in E. injection E as <-. split; [reflexivity|].
    intros bark_freqs transfer power_spectrum.
    assert (Hs : hearing_threshold_at_freqs_f
                   (mk_compressor_f (map Fin anchor_freqs_R) (repeat NaN 29) s g) bark_freqs
                 = Err ValueError).
    { unfold hearing_threshold_at_freqs_f.
      cbn [equal_loudness_contour_freqs_f hearing_threshold_contour_f].
      rewrite cubic_spline_f_nonfin by reflexivity. reflexivity. }
    split; [exact Hs | apply compress_f_err, Hs].
Qed.

End FloatClaims.

(** A NaN threshold level with the default factors: [__init__] succeeds
    and [compress] fails on every input. *)
Lemma init_f_deferred_error_witness :
  exists lc, init_f 0.5 0.04 NaN = Ok lc /\
  ((exists l, NaN = Fin l /\ 0 <= l <= 90 /\
     forall bark_freqs, exists v, @hearing_threshold_at_freqs_f bark_as_hertz lc bark_freqs = Ok v) \/
   (NaN = NaN /\ forall bark_freqs transfer power_spectrum,
     @hearing_threshold_at_freqs_f bark_as_hertz lc bark_freqs = Err ValueError /\
     @compress_f bark_as_hertz lc power_spectrum bark_freqs transfer = Err ValueError)).
Proof.
  eexists. split; [reflexivity|].
  apply (@init_f_deferred_error bark_as_hertz 0.5 0.04 NaN). reflexivity.
Defined.
